(** * GridUniverse: a shallow embedding of [core/envs/griduniverse_env.py]

    The environment object is a record, its methods are programs of a
    state-and-exception monad over that record, numpy arrays are lists
    indexed the way numpy indexes them (negative indices count from the
    end, anything else out of range raises [IndexError]), and Python
    integers are [Z].  The reward matrix is an [int64] array: its
    entries are kept as [Z], and the one arithmetic operation the source
    performs on them, [+=], wraps around as 64-bit signed addition does.

    Three things of the source are outside the model and are taken as
    inputs instead:
    - [config.default_rewards], a module that is not part of the sources:
      the six reward constants are the record [Config]; they are taken
      to be integers an [int64] array holds ([int64_config]);
    - the process-wide random generator behind [random.choice]: every
      draw is an explicit natural number [pick], reduced modulo the length
      of the sequence drawn from;
    - the file system and [maze_generation]: a text world is passed as
      the list of rows that [_create_custom_world_from_file] hands over.
    The optional graphical viewer is never created ([self.viewer] stays
    [None]) and [print] is not modelled. *)

From stdpp Require Import base list numbers strings.
From Stdlib Require Import ZArith Lia Ascii.

Open Scope Z_scope.

(** ** Python and numpy primitives *)

Module Py.

Inductive exn : Type := IndexError | ValueError.

Inductive result (A : Type) : Type :=
| Ok (a : A)
| Raise (e : exn).
Arguments Ok {A} a.
Arguments Raise {A} e.

Definition is_ok {A} (r : result A) : bool :=
  match r with Ok _ => true | Raise _ => false end.

(** Position denoted by index [i] in a sequence of length [n]:
    [0 <= i < n] is itself, [-n <= i < 0] counts from the end. *)
Definition index_of (n : nat) (i : Z) : option nat :=
  if bool_decide (0 ≤ i < Z.of_nat n) then Some (Z.to_nat i)
  else if bool_decide (- Z.of_nat n ≤ i < 0) then Some (Z.to_nat (i + Z.of_nat n))
  else None.

(** [a[i]] *)
Definition getitem {A} (a : list A) (i : Z) : result A :=
  match index_of (length a) i with
  | Some k => match a !! k with Some v => Ok v | None => Raise IndexError end
  | None => Raise IndexError
  end.

(** [a[i] = v] *)
Definition setitem {A} (a : list A) (i : Z) (v : A) : result (list A) :=
  match index_of (length a) i with
  | Some k => Ok (<[k:=v]> a)
  | None => Raise IndexError
  end.

(** [x in l] *)
Definition contains (x : Z) (l : list Z) : bool := bool_decide (x ∈ l).

(** [l.index(x)]: position of the first occurrence, [ValueError] if none. *)
Fixpoint index (x : Z) (l : list Z) : result nat :=
  match l with
  | [] => Raise ValueError
  | y :: l' =>
      if bool_decide (y = x) then Ok 0%nat
      else match index x l' with Ok k => Ok (S k) | Raise e => Raise e end
  end.

(** [l.remove(x)]: drops the first occurrence, [ValueError] if none. *)
Fixpoint remove (x : Z) (l : list Z) : result (list Z) :=
  match l with
  | [] => Raise ValueError
  | y :: l' =>
      if bool_decide (y = x) then Ok l'
      else match remove x l' with Ok r => Ok (y :: r) | Raise e => Raise e end
  end.

(** [set(l)], as a duplicate-free list, and [s & t]. *)
Definition set (l : list Z) : list Z := remove_dups l.
Definition inter (s t : list Z) : list Z := list_intersection s t.

(** [random.choice(l)] with the draw [pick]. *)
Definition choice (pick : nat) (l : list Z) : result Z :=
  match l !! (pick mod length l)%nat with
  | Some x => Ok x
  | None => Raise IndexError
  end.

(** [np.arange(n)] *)
Definition arange (n : Z) : list Z := seqZ 0 n.

(** The value a numpy [int64] holds after an operation whose exact
    result is [z]: signed 64-bit wrap-around. *)
Definition int64 (z : Z) : Z := (z + 2 ^ 63) mod 2 ^ 64 - 2 ^ 63.

End Py.
Export Py.

(** ** The absent [config] module *)

Record Config : Type := mkConfig {
  LEMON_REWARD : Z;
  APPLE_REWARD : Z;
  MELON_REWARD : Z;
  LAVA_REWARD : Z;
  TERMINAL_GOAL_REWARD : Z;
  MOVEMENT_REWARD : Z
}.

(** The constants fit the [int64] entries of the reward matrix. *)
Definition int64_config (cfg : Config) : Prop :=
  Forall (λ z, - 2 ^ 63 ≤ z < 2 ^ 63)
    [LEMON_REWARD cfg; APPLE_REWARD cfg; MELON_REWARD cfg; LAVA_REWARD cfg;
     TERMINAL_GOAL_REWARD cfg; MOVEMENT_REWARD cfg].

(** ** The environment object *)

Record GridUniverseEnv : Type := mkEnv {
  x_max : Z;
  y_max : Z;
  world : list (Z * Z);
  initial_states : list Z;
  initial_state : Z;
  previous_state : Z;
  current_state : Z;
  goal_states : list Z;
  lava_states : list Z;
  lemons : list Z;
  apples : list Z;
  melons : list Z;
  current_lemons : list Z;
  current_apples : list Z;
  current_melons : list Z;
  wall_indices : list Z;
  wall_grid : list Z;
  reward_matrix : list Z;
  last_n_states : list (Z * Z);
  done : bool;
  rewards : Config
}.

Definition set_x_max (v : Z) (self : GridUniverseEnv) : GridUniverseEnv :=
  {| x_max := v; y_max := y_max self; world := world self; initial_states :=
     initial_states self; initial_state := initial_state self; previous_state :=
     previous_state self; current_state := current_state self; goal_states :=
     goal_states self; lava_states := lava_states self; lemons := lemons self; apples :=
     apples self; melons := melons self; current_lemons := current_lemons self;
     current_apples := current_apples self; current_melons := current_melons self;
     wall_indices := wall_indices self; wall_grid := wall_grid self; reward_matrix :=
     reward_matrix self; last_n_states := last_n_states self; done := done self; rewards
     := rewards self |}.

Definition set_y_max (v : Z) (self : GridUniverseEnv) : GridUniverseEnv :=
  {| x_max := x_max self; y_max := v; world := world self; initial_states :=
     initial_states self; initial_state := initial_state self; previous_state :=
     previous_state self; current_state := current_state self; goal_states :=
     goal_states self; lava_states := lava_states self; lemons := lemons self; apples :=
     apples self; melons := melons self; current_lemons := current_lemons self;
     current_apples := current_apples self; current_melons := current_melons self;
     wall_indices := wall_indices self; wall_grid := wall_grid self; reward_matrix :=
     reward_matrix self; last_n_states := last_n_states self; done := done self; rewards
     := rewards self |}.

Definition set_world (v : list (Z * Z)) (self : GridUniverseEnv) : GridUniverseEnv :=
  {| x_max := x_max self; y_max := y_max self; world := v; initial_states :=
     initial_states self; initial_state := initial_state self; previous_state :=
     previous_state self; current_state := current_state self; goal_states :=
     goal_states self; lava_states := lava_states self; lemons := lemons self; apples :=
     apples self; melons := melons self; current_lemons := current_lemons self;
     current_apples := current_apples self; current_melons := current_melons self;
     wall_indices := wall_indices self; wall_grid := wall_grid self; reward_matrix :=
     reward_matrix self; last_n_states := last_n_states self; done := done self; rewards
     := rewards self |}.

Definition set_initial_states (v : list Z) (self : GridUniverseEnv) : GridUniverseEnv :=
  {| x_max := x_max self; y_max := y_max self; world := world self; initial_states := v;
     initial_state := initial_state self; previous_state := previous_state self;
     current_state := current_state self; goal_states := goal_states self; lava_states
     := lava_states self; lemons := lemons self; apples := apples self; melons := melons
     self; current_lemons := current_lemons self; current_apples := current_apples self;
     current_melons := current_melons self; wall_indices := wall_indices self; wall_grid
     := wall_grid self; reward_matrix := reward_matrix self; last_n_states :=
     last_n_states self; done := done self; rewards := rewards self |}.

Definition set_initial_state (v : Z) (self : GridUniverseEnv) : GridUniverseEnv :=
  {| x_max := x_max self; y_max := y_max self; world := world self; initial_states :=
     initial_states self; initial_state := v; previous_state := previous_state self;
     current_state := current_state self; goal_states := goal_states self; lava_states
     := lava_states self; lemons := lemons self; apples := apples self; melons := melons
     self; current_lemons := current_lemons self; current_apples := current_apples self;
     current_melons := current_melons self; wall_indices := wall_indices self; wall_grid
     := wall_grid self; reward_matrix := reward_matrix self; last_n_states :=
     last_n_states self; done := done self; rewards := rewards self |}.

Definition set_previous_state (v : Z) (self : GridUniverseEnv) : GridUniverseEnv :=
  {| x_max := x_max self; y_max := y_max self; world := world self; initial_states :=
     initial_states self; initial_state := initial_state self; previous_state := v;
     current_state := current_state self; goal_states := goal_states self; lava_states
     := lava_states self; lemons := lemons self; apples := apples self; melons := melons
     self; current_lemons := current_lemons self; current_apples := current_apples self;
     current_melons := current_melons self; wall_indices := wall_indices self; wall_grid
     := wall_grid self; reward_matrix := reward_matrix self; last_n_states :=
     last_n_states self; done := done self; rewards := rewards self |}.

Definition set_current_state (v : Z) (self : GridUniverseEnv) : GridUniverseEnv :=
  {| x_max := x_max self; y_max := y_max self; world := world self; initial_states :=
     initial_states self; initial_state := initial_state self; previous_state :=
     previous_state self; current_state := v; goal_states := goal_states self;
     lava_states := lava_states self; lemons := lemons self; apples := apples self;
     melons := melons self; current_lemons := current_lemons self; current_apples :=
     current_apples self; current_melons := current_melons self; wall_indices :=
     wall_indices self; wall_grid := wall_grid self; reward_matrix := reward_matrix
     self; last_n_states := last_n_states self; done := done self; rewards := rewards
     self |}.

Definition set_goal_states (v : list Z) (self : GridUniverseEnv) : GridUniverseEnv :=
  {| x_max := x_max self; y_max := y_max self; world := world self; initial_states :=
     initial_states self; initial_state := initial_state self; previous_state :=
     previous_state self; current_state := current_state self; goal_states := v;
     lava_states := lava_states self; lemons := lemons self; apples := apples self;
     melons := melons self; current_lemons := current_lemons self; current_apples :=
     current_apples self; current_melons := current_melons self; wall_indices :=
     wall_indices self; wall_grid := wall_grid self; reward_matrix := reward_matrix
     self; last_n_states := last_n_states self; done := done self; rewards := rewards
     self |}.

Definition set_lava_states (v : list Z) (self : GridUniverseEnv) : GridUniverseEnv :=
  {| x_max := x_max self; y_max := y_max self; world := world self; initial_states :=
     initial_states self; initial_state := initial_state self; previous_state :=
     previous_state self; current_state := current_state self; goal_states :=
     goal_states self; lava_states := v; lemons := lemons self; apples := apples self;
     melons := melons self; current_lemons := current_lemons self; current_apples :=
     current_apples self; current_melons := current_melons self; wall_indices :=
     wall_indices self; wall_grid := wall_grid self; reward_matrix := reward_matrix
     self; last_n_states := last_n_states self; done := done self; rewards := rewards
     self |}.

Definition set_lemons (v : list Z) (self : GridUniverseEnv) : GridUniverseEnv :=
  {| x_max := x_max self; y_max := y_max self; world := world self; initial_states :=
     initial_states self; initial_state := initial_state self; previous_state :=
     previous_state self; current_state := current_state self; goal_states :=
     goal_states self; lava_states := lava_states self; lemons := v; apples := apples
     self; melons := melons self; current_lemons := current_lemons self; current_apples
     := current_apples self; current_melons := current_melons self; wall_indices :=
     wall_indices self; wall_grid := wall_grid self; reward_matrix := reward_matrix
     self; last_n_states := last_n_states self; done := done self; rewards := rewards
     self |}.

Definition set_apples (v : list Z) (self : GridUniverseEnv) : GridUniverseEnv :=
  {| x_max := x_max self; y_max := y_max self; world := world self; initial_states :=
     initial_states self; initial_state := initial_state self; previous_state :=
     previous_state self; current_state := current_state self; goal_states :=
     goal_states self; lava_states := lava_states self; lemons := lemons self; apples :=
     v; melons := melons self; current_lemons := current_lemons self; current_apples :=
     current_apples self; current_melons := current_melons self; wall_indices :=
     wall_indices self; wall_grid := wall_grid self; reward_matrix := reward_matrix
     self; last_n_states := last_n_states self; done := done self; rewards := rewards
     self |}.

Definition set_melons (v : list Z) (self : GridUniverseEnv) : GridUniverseEnv :=
  {| x_max := x_max self; y_max := y_max self; world := world self; initial_states :=
     initial_states self; initial_state := initial_state self; previous_state :=
     previous_state self; current_state := current_state self; goal_states :=
     goal_states self; lava_states := lava_states self; lemons := lemons self; apples :=
     apples self; melons := v; current_lemons := current_lemons self; current_apples :=
     current_apples self; current_melons := current_melons self; wall_indices :=
     wall_indices self; wall_grid := wall_grid self; reward_matrix := reward_matrix
     self; last_n_states := last_n_states self; done := done self; rewards := rewards
     self |}.

Definition set_current_lemons (v : list Z) (self : GridUniverseEnv) : GridUniverseEnv :=
  {| x_max := x_max self; y_max := y_max self; world := world self; initial_states :=
     initial_states self; initial_state := initial_state self; previous_state :=
     previous_state self; current_state := current_state self; goal_states :=
     goal_states self; lava_states := lava_states self; lemons := lemons self; apples :=
     apples self; melons := melons self; current_lemons := v; current_apples :=
     current_apples self; current_melons := current_melons self; wall_indices :=
     wall_indices self; wall_grid := wall_grid self; reward_matrix := reward_matrix
     self; last_n_states := last_n_states self; done := done self; rewards := rewards
     self |}.

Definition set_current_apples (v : list Z) (self : GridUniverseEnv) : GridUniverseEnv :=
  {| x_max := x_max self; y_max := y_max self; world := world self; initial_states :=
     initial_states self; initial_state := initial_state self; previous_state :=
     previous_state self; current_state := current_state self; goal_states :=
     goal_states self; lava_states := lava_states self; lemons := lemons self; apples :=
     apples self; melons := melons self; current_lemons := current_lemons self;
     current_apples := v; current_melons := current_melons self; wall_indices :=
     wall_indices self; wall_grid := wall_grid self; reward_matrix := reward_matrix
     self; last_n_states := last_n_states self; done := done self; rewards := rewards
     self |}.

Definition set_current_melons (v : list Z) (self : GridUniverseEnv) : GridUniverseEnv :=
  {| x_max := x_max self; y_max := y_max self; world := world self; initial_states :=
     initial_states self; initial_state := initial_state self; previous_state :=
     previous_state self; current_state := current_state self; goal_states :=
     goal_states self; lava_states := lava_states self; lemons := lemons self; apples :=
     apples self; melons := melons self; current_lemons := current_lemons self;
     current_apples := current_apples self; current_melons := v; wall_indices :=
     wall_indices self; wall_grid := wall_grid self; reward_matrix := reward_matrix
     self; last_n_states := last_n_states self; done := done self; rewards := rewards
     self |}.

Definition set_wall_indices (v : list Z) (self : GridUniverseEnv) : GridUniverseEnv :=
  {| x_max := x_max self; y_max := y_max self; world := world self; initial_states :=
     initial_states self; initial_state := initial_state self; previous_state :=
     previous_state self; current_state := current_state self; goal_states :=
     goal_states self; lava_states := lava_states self; lemons := lemons self; apples :=
     apples self; melons := melons self; current_lemons := current_lemons self;
     current_apples := current_apples self; current_melons := current_melons self;
     wall_indices := v; wall_grid := wall_grid self; reward_matrix := reward_matrix
     self; last_n_states := last_n_states self; done := done self; rewards := rewards
     self |}.

Definition set_wall_grid (v : list Z) (self : GridUniverseEnv) : GridUniverseEnv :=
  {| x_max := x_max self; y_max := y_max self; world := world self; initial_states :=
     initial_states self; initial_state := initial_state self; previous_state :=
     previous_state self; current_state := current_state self; goal_states :=
     goal_states self; lava_states := lava_states self; lemons := lemons self; apples :=
     apples self; melons := melons self; current_lemons := current_lemons self;
     current_apples := current_apples self; current_melons := current_melons self;
     wall_indices := wall_indices self; wall_grid := v; reward_matrix := reward_matrix
     self; last_n_states := last_n_states self; done := done self; rewards := rewards
     self |}.

Definition set_reward_matrix (v : list Z) (self : GridUniverseEnv) : GridUniverseEnv :=
  {| x_max := x_max self; y_max := y_max self; world := world self; initial_states :=
     initial_states self; initial_state := initial_state self; previous_state :=
     previous_state self; current_state := current_state self; goal_states :=
     goal_states self; lava_states := lava_states self; lemons := lemons self; apples :=
     apples self; melons := melons self; current_lemons := current_lemons self;
     current_apples := current_apples self; current_melons := current_melons self;
     wall_indices := wall_indices self; wall_grid := wall_grid self; reward_matrix := v;
     last_n_states := last_n_states self; done := done self; rewards := rewards self |}.

Definition set_last_n_states (v : list (Z * Z)) (self : GridUniverseEnv) : GridUniverseEnv :=
  {| x_max := x_max self; y_max := y_max self; world := world self; initial_states :=
     initial_states self; initial_state := initial_state self; previous_state :=
     previous_state self; current_state := current_state self; goal_states :=
     goal_states self; lava_states := lava_states self; lemons := lemons self; apples :=
     apples self; melons := melons self; current_lemons := current_lemons self;
     current_apples := current_apples self; current_melons := current_melons self;
     wall_indices := wall_indices self; wall_grid := wall_grid self; reward_matrix :=
     reward_matrix self; last_n_states := v; done := done self; rewards := rewards self
     |}.

Definition set_done (v : bool) (self : GridUniverseEnv) : GridUniverseEnv :=
  {| x_max := x_max self; y_max := y_max self; world := world self; initial_states :=
     initial_states self; initial_state := initial_state self; previous_state :=
     previous_state self; current_state := current_state self; goal_states :=
     goal_states self; lava_states := lava_states self; lemons := lemons self; apples :=
     apples self; melons := melons self; current_lemons := current_lemons self;
     current_apples := current_apples self; current_melons := current_melons self;
     wall_indices := wall_indices self; wall_grid := wall_grid self; reward_matrix :=
     reward_matrix self; last_n_states := last_n_states self; done := v; rewards :=
     rewards self |}.
(** [num_previous_states_to_store], set once in [__init__]. *)
Definition num_previous_states_to_store : nat := 500.

(** ** Programs over the environment *)

Definition M (A : Type) : Type := GridUniverseEnv → result A * GridUniverseEnv.

Definition ret {A} (a : A) : M A := λ self, (Ok a, self).
Definition raise {A} (e : exn) : M A := λ self, (Raise e, self).
Definition bind {A B} (m : M A) (k : A → M B) : M B :=
  λ self, match m self with
          | (Ok a, self') => k a self'
          | (Raise e, self') => (Raise e, self')
          end.
Definition gets {A} (f : GridUniverseEnv → A) : M A := λ self, (Ok (f self), self).
Definition modify (f : GridUniverseEnv → GridUniverseEnv) : M unit :=
  λ self, (Ok tt, f self).
Definition lift {A} (r : result A) : M A := λ self, (r, self).

Declare Scope env_scope.
Delimit Scope env_scope with env.
Notation "x <- c ;; k" := (bind c (λ x, k))
  (at level 100, c at next level, right associativity) : env_scope.
Notation "c ;; k" := (bind c (λ _, k))
  (at level 100, right associativity) : env_scope.
Open Scope env_scope.

(** [for x in xs: body(x)] *)
Fixpoint for_ {A} (xs : list A) (body : A → M unit) : M unit :=
  match xs with
  | [] => ret tt
  | x :: xs' => body x ;; for_ xs' body
  end.

(** ** Methods of [GridUniverseEnv] *)

(** The sequence [np.fromiter] collects in [_generate_world]: rows outermost. *)
Definition fromiter_coords (xm ym : Z) : list (Z * Z) :=
  y ← arange ym; x ← arange xm; [(x, y)].

Definition _generate_world : M (list (Z * Z)) :=
  xm <- gets x_max ;;
  ym <- gets y_max ;;
  (* [np.nditer] refuses an empty [np.arange]; the outer iterator is
     built first. *)
  if bool_decide (ym ≤ 0) then raise ValueError
  else if bool_decide (xm ≤ 0) then raise ValueError
  else ret (fromiter_coords xm ym).

Definition world_size (self : GridUniverseEnv) : Z := Z.of_nat (length (world self)).

(** The four closures of [self.action_state_to_next_state]. *)
Definition up (s : Z) : M Z :=
  w <- gets world ;; xm <- gets x_max ;;
  c <- lift (getitem w s) ;;
  ret (if bool_decide (c.2 > 0) then s - xm else s).
Definition right (s : Z) : M Z :=
  w <- gets world ;; xm <- gets x_max ;;
  c <- lift (getitem w s) ;;
  ret (if bool_decide (c.1 < xm - 1) then s + 1 else s).
Definition down (s : Z) : M Z :=
  w <- gets world ;; xm <- gets x_max ;; ym <- gets y_max ;;
  c <- lift (getitem w s) ;;
  ret (if bool_decide (c.2 < ym - 1) then s + xm else s).
Definition left (s : Z) : M Z :=
  w <- gets world ;;
  c <- lift (getitem w s) ;;
  ret (if bool_decide (c.1 > 0) then s - 1 else s).

Definition action_state_to_next_state : list (Z → M Z) := [up; right; down; left].

Definition UP : Z := 0.
Definition RIGHT : Z := 1.
Definition DOWN : Z := 2.
Definition LEFT : Z := 3.

Definition _generate_walls (walls : option (list Z)) : M unit :=
  match walls with
  | None => ret tt
  | Some walls =>
      for_ walls (λ wall_state,
        size <- gets world_size ;;
        if bool_decide (wall_state < 0) || bool_decide (wall_state > size - 1)
        then raise ValueError
        else
          g <- gets wall_grid ;;
          g' <- lift (setitem g wall_state 1) ;;
          modify (set_wall_grid g') ;;
          modify (λ self, set_wall_indices (wall_indices self ++ [wall_state]) self))
  end.

(** [self.reward_matrix[state] += v], an [int64] addition *)
Definition reward_matrix_add (v : Z) (state : Z) : M unit :=
  m <- gets reward_matrix ;;
  old <- lift (getitem m state) ;;
  m' <- lift (setitem m state (int64 (old + v))) ;;
  modify (set_reward_matrix m').

(** [self.reward_matrix[state] = v] *)
Definition reward_matrix_set (v : Z) (state : Z) : M unit :=
  m <- gets reward_matrix ;;
  m' <- lift (setitem m state v) ;;
  modify (set_reward_matrix m').

Definition _generate_reward_matrix : M unit :=
  cfg <- gets rewards ;;
  ca <- gets current_apples ;; for_ ca (reward_matrix_add (APPLE_REWARD cfg)) ;;
  cl <- gets current_lemons ;; for_ cl (reward_matrix_add (LEMON_REWARD cfg)) ;;
  cm <- gets current_melons ;; for_ cm (reward_matrix_add (MELON_REWARD cfg)) ;;
  gs <- gets goal_states ;; for_ gs (reward_matrix_set (TERMINAL_GOAL_REWARD cfg)) ;;
  ls <- gets lava_states ;; for_ ls (reward_matrix_set (LAVA_REWARD cfg)).

Definition reward_function (next_state : Z) (collect : bool) : M Z :=
  if collect then
    m <- gets reward_matrix ;;
    reward <- lift (getitem m next_state) ;;
    cl <- gets current_lemons ;; ca <- gets current_apples ;; cm <- gets current_melons ;;
    (if contains next_state cl || contains next_state ca || contains next_state cm then
       (if contains next_state cl then
          tl <- gets lemons ;;
          _ <- lift (index next_state tl) ;;
          cl' <- lift (remove next_state cl) ;;
          modify (set_current_lemons cl')
        else if contains next_state ca then
          ta <- gets apples ;;
          _ <- lift (index next_state ta) ;;
          ca' <- lift (remove next_state ca) ;;
          modify (set_current_apples ca')
        else if contains next_state cm then
          tm <- gets melons ;;
          _ <- lift (index next_state tm) ;;
          cm' <- lift (remove next_state cm) ;;
          modify (set_current_melons cm')
        else ret tt) ;;
       cfg <- gets rewards ;;
       reward_matrix_set (MOVEMENT_REWARD cfg) next_state
     else ret tt) ;;
    ret reward
  else
    m <- gets reward_matrix ;;
    lift (getitem m next_state).

Definition _is_wall (state : Z) : M bool :=
  g <- gets wall_grid ;;
  v <- lift (getitem g state) ;;
  ret (bool_decide (v = 1)).

Definition is_lava (state : Z) : M bool :=
  ls <- gets lava_states ;; ret (contains state ls).

Definition is_terminal_goal (state : Z) : M bool :=
  gs <- gets goal_states ;; ret (contains state gs).

Definition is_terminal (state : Z) : M bool :=
  l <- is_lava state ;;
  if l then ret true else is_terminal_goal state.

Definition look_step_ahead (state action : Z) (care_about_terminal : bool)
  : M (Z * Z * bool) :=
  next_state <-
    (if care_about_terminal then
       t <- is_terminal state ;;
       if t then ret state
       else
         f <- lift (getitem action_state_to_next_state action) ;;
         next_state <- f state ;;
         w <- _is_wall next_state ;;
         ret (if negb w then next_state else state)
     else
       f <- lift (getitem action_state_to_next_state action) ;;
       next_state <- f state ;;
       w <- _is_wall next_state ;;
       ret (if negb w then next_state else state)) ;;
  reward <- reward_function next_state true ;;
  d <- is_terminal next_state ;;
  ret (next_state, reward, d).

Definition _step (action : Z) : M (Z * Z * bool) :=
  modify (λ self, set_previous_state (current_state self) self) ;;
  cs <- gets current_state ;;
  r <- look_step_ahead cs action true ;;
  let '(next_state, reward, d) := r in
  modify (set_current_state next_state) ;;
  modify (set_done d) ;;
  w <- gets world ;; cs' <- gets current_state ;;
  c <- lift (getitem w cs') ;;
  modify (λ self, set_last_n_states (last_n_states self ++ [c]) self) ;;
  h <- gets last_n_states ;;
  (if bool_decide (num_previous_states_to_store < length h)%nat
   then modify (set_last_n_states (tail h))
   else ret tt) ;;
  cs'' <- gets current_state ;; d' <- gets done ;;
  ret (cs'', reward, d').

Definition _reset (pick : nat) : M Z :=
  modify (set_done false) ;;
  starts <- gets initial_states ;;
  s <- lift (choice pick starts) ;;
  modify (set_initial_state s) ;;
  modify (set_current_state s) ;;
  modify (set_previous_state s) ;;
  modify (set_last_n_states []) ;;
  modify (λ self, set_current_lemons (lemons self) self) ;;
  modify (λ self, set_current_apples (apples self) self) ;;
  modify (λ self, set_current_melons (melons self) self) ;;
  _generate_reward_matrix ;;
  gets current_state.

Definition _check_specific_collisions : M unit :=
  self <- gets id ;;
  let dup l := bool_decide (length l ≠ length (set l)) in
  if dup (current_apples self) then raise ValueError
  else if dup (current_lemons self) then raise ValueError
  else if dup (current_melons self) then raise ValueError
  else if dup (wall_indices self) then raise ValueError
  else if dup (initial_states self) then raise ValueError
  else if dup (goal_states self) then raise ValueError
  else if dup (lava_states self) then raise ValueError
  else if bool_decide
            (0 < length (inter (set (initial_states self)) (set (wall_indices self))))%nat
  then raise ValueError
  else if bool_decide
            (0 < length (inter (set (goal_states self)) (set (wall_indices self))))%nat
  then raise ValueError
  else if bool_decide
            (0 < length (inter (set (lava_states self)) (set (wall_indices self))))%nat
  then raise ValueError
  else
    let fruit := current_apples self ++ current_lemons self ++ current_melons self in
    let all_fruit := set fruit in
    if bool_decide (length all_fruit ≠ length fruit) && bool_decide (0 < length fruit)%nat
    then raise ValueError
    else if bool_decide (0 < length (inter all_fruit (set (wall_indices self))))%nat
    then raise ValueError
    else ret tt.

(** The body of the inner loop of [_create_custom_world_from_text]; the
    local list [walls_indices] is threaded through. *)
Definition place_char (char : ascii) (curr_index : Z) (walls_indices : list Z)
  : M (list Z) :=
  if Ascii.eqb char "G"%char then
    modify (λ self, set_goal_states (goal_states self ++ [curr_index]) self) ;;
    ret walls_indices
  else if Ascii.eqb char "L"%char then
    modify (λ self, set_lava_states (lava_states self ++ [curr_index]) self) ;;
    ret walls_indices
  else if Ascii.eqb char "l"%char then
    modify (λ self, set_lemons (lemons self ++ [curr_index]) self) ;;
    ret walls_indices
  else if Ascii.eqb char "a"%char then
    modify (λ self, set_apples (apples self ++ [curr_index]) self) ;;
    ret walls_indices
  else if Ascii.eqb char "m"%char then
    modify (λ self, set_melons (melons self ++ [curr_index]) self) ;;
    ret walls_indices
  else if Ascii.eqb char "o"%char then ret walls_indices
  else if Ascii.eqb char "#"%char then ret (walls_indices ++ [curr_index])
  else if Ascii.eqb char "x"%char then
    modify (λ self, set_initial_states (initial_states self ++ [curr_index]) self) ;;
    ret walls_indices
  else raise ValueError.

Fixpoint scan_line (line : list ascii) (curr_index : Z) (walls_indices : list Z)
  : M (Z * list Z) :=
  match line with
  | [] => ret (curr_index, walls_indices)
  | char :: line' =>
      walls_indices' <- place_char char curr_index walls_indices ;;
      scan_line line' (curr_index + 1) walls_indices'
  end.

Fixpoint scan_lines (text_world_lines : list string) (width_of_grid : nat)
  (curr_index : Z) (walls_indices : list Z) : M (Z * list Z) :=
  match text_world_lines with
  | [] => ret (curr_index, walls_indices)
  | line :: lines' =>
      if bool_decide (String.length line ≠ width_of_grid) then raise ValueError
      else
        r <- scan_line (String.list_ascii_of_string line) curr_index walls_indices ;;
        scan_lines lines' width_of_grid r.1 r.2
  end.

Definition _create_custom_world_from_text (text_world_lines : list string) (pick : nat)
  : M unit :=
  modify (set_goal_states []) ;;
  modify (set_initial_states []) ;;
  modify (set_lava_states []) ;;
  modify (set_initial_states []) ;;
  modify (set_lemons []) ;;
  modify (set_apples []) ;;
  modify (set_melons []) ;;
  match text_world_lines with
  | [] => raise IndexError
  | first :: _ =>
      let width_of_grid := String.length first in
      r <- scan_lines text_world_lines width_of_grid 0 [] ;;
      let walls_indices := r.2 in
      starts <- gets initial_states ;;
      if bool_decide (length starts = 0%nat) then raise ValueError
      else
        goals <- gets goal_states ;;
        if bool_decide (length goals = 0%nat) then raise ValueError
        else
          modify (set_y_max (Z.of_nat (length text_world_lines))) ;;
          modify (set_x_max (Z.of_nat width_of_grid)) ;;
          w <- _generate_world ;;
          modify (set_world w) ;;
          modify (λ self, set_wall_grid (replicate (length (world self)) 0) self) ;;
          modify (set_wall_indices []) ;;
          _generate_walls (Some walls_indices) ;;
          modify (λ self,
            set_reward_matrix
              (replicate (length (world self)) (MOVEMENT_REWARD (rewards self))) self) ;;
          _ <- _reset pick ;;
          ret tt
  end.

(** Constructor arguments. [initial_state] is an [int] or a list;
    [custom_world_fp] and [random_maze], when given, carry the rows of
    the text world they lead to. *)
Record Params : Type := mkParams {
  grid_shape : Z * Z;
  p_initial_state : Z + list Z;
  p_goal_states : option (list Z);
  p_lava_states : option (list Z);
  p_walls : option (list Z);
  p_lemons : option (list Z);
  p_melons : option (list Z);
  p_apples : option (list Z);
  custom_world_fp : option (list string);
  random_maze : option (list string)
}.

(** The object before [__init__] has assigned anything. *)
Definition blank (cfg : Config) : GridUniverseEnv :=
  {| x_max := 0; y_max := 0; world := []; initial_states := []; initial_state := 0;
     previous_state := 0; current_state := 0; goal_states := []; lava_states := [];
     lemons := []; apples := []; melons := []; current_lemons := [];
     current_apples := []; current_melons := []; wall_indices := []; wall_grid := [];
     reward_matrix := []; last_n_states := []; done := false; rewards := cfg |}.

(** [__init__] from its first line to the seeding of the generator:
    every attribute is assigned from the arguments. *)
Definition init_fields (p : Params) (pick : nat) : M unit :=
  modify (set_x_max (grid_shape p).1) ;;
  modify (set_y_max (grid_shape p).2) ;;
  w <- _generate_world ;;
  modify (set_world w) ;;
  modify (set_initial_states
            (match p_initial_state p with inl i => [i] | inr l => l end)) ;;
  starts <- gets initial_states ;;
  s <- lift (choice pick starts) ;;
  modify (set_initial_state s) ;;
  modify (set_current_state s) ;;
  modify (set_previous_state s) ;;
  size <- gets world_size ;;
  modify (set_goal_states
            (match p_goal_states p with
             | None | Some [] => [size - 1]
             | Some gs => gs
             end)) ;;
  modify (set_lava_states (default [] (p_lava_states p))) ;;
  ls <- gets lava_states ;;
  for_ ls (λ t_s,
    if bool_decide (t_s < 0) || bool_decide (t_s > size - 1)
    then raise ValueError else ret tt) ;;
  modify (set_lemons (default [] (p_lemons p))) ;;
  modify (set_apples (default [] (p_apples p))) ;;
  modify (set_melons (default [] (p_melons p))) ;;
  modify (λ self, set_current_lemons (lemons self) self) ;;
  modify (λ self, set_current_apples (apples self) self) ;;
  modify (λ self, set_current_melons (melons self) self) ;;
  modify (set_wall_indices []) ;;
  modify (λ self, set_wall_grid (replicate (length (world self)) 0) self) ;;
  _generate_walls (p_walls p) ;;
  modify (λ self,
    set_reward_matrix
      (replicate (length (world self)) (MOVEMENT_REWARD (rewards self))) self) ;;
  _generate_reward_matrix ;;
  gs <- gets goal_states ;;
  for_ gs (reward_matrix_set 10) ;;
  ls' <- gets lava_states ;;
  for_ ls' (reward_matrix_set (-10)) ;;
  modify (set_last_n_states []) ;;
  modify (set_done false).

(** The rest of [__init__]: the optional text worlds, then the
    collision check on whatever has been placed. *)
Definition init_body (p : Params) (picks : nat → nat) : M unit :=
  init_fields p (picks 0%nat) ;;
  match custom_world_fp p with
  | Some lines => _create_custom_world_from_text lines (picks 1%nat)
  | None => ret tt
  end ;;
  match random_maze p with
  | Some lines => _create_custom_world_from_text lines (picks 2%nat)
  | None => ret tt
  end ;;
  _check_specific_collisions.

(** [GridUniverseEnv(...)]: the constructed object, or the exception. *)
Definition __init__ (cfg : Config) (p : Params) (picks : nat → nat)
  : result GridUniverseEnv :=
  match init_body p picks (blank cfg) with
  | (Ok _, self) => Ok self
  | (Raise e, _) => Raise e
  end.

(** ** The public call surface and the environments it can reach *)

Inductive call : Type :=
| Step (action : Z)
| Reset (pick : nat)
| LookStepAhead (state action : Z) (care_about_terminal : bool)
| RewardFunction (next_state : Z) (collect : bool).

(** The object after a call, whether the call returned or raised. *)
Definition exec (c : call) (self : GridUniverseEnv) : GridUniverseEnv :=
  match c with
  | Step action => (_step action self).2
  | Reset pick => (_reset pick self).2
  | LookStepAhead state action care => (look_step_ahead state action care self).2
  | RewardFunction next_state collect => (reward_function next_state collect self).2
  end.

Inductive reachable : GridUniverseEnv → Prop :=
| reachable_init cfg p picks self :
    __init__ cfg p picks = Ok self → reachable self
| reachable_call c self :
    reachable self → reachable (exec c self).

(** ** Vocabulary of the specification *)

(** [size] = width times height. *)
Definition size (self : GridUniverseEnv) : Z := x_max self * y_max self.

Definition fruit (self : GridUniverseEnv) : list Z :=
  apples self ++ lemons self ++ melons self.

Definition current_fruit (self : GridUniverseEnv) : list Z :=
  current_apples self ++ current_lemons self ++ current_melons self.

Definition terminal_states (self : GridUniverseEnv) : list Z :=
  lava_states self ++ goal_states self.

(** What holds of every reachable environment. *)
Record layout_ok (self : GridUniverseEnv) : Prop := {
  lo_x : 0 < x_max self;
  lo_y : 0 < y_max self;
  lo_world : world self = fromiter_coords (x_max self) (y_max self);
  lo_wall_len : Z.of_nat (length (wall_grid self)) = size self;
  lo_wall_grid : ∀ i, 0 ≤ i < size self →
    wall_grid self !! Z.to_nat i
    = Some (if bool_decide (i ∈ wall_indices self) then 1 else 0);
  lo_walls : ∀ w, w ∈ wall_indices self → 0 ≤ w < size self;
  lo_matrix : Z.of_nat (length (reward_matrix self)) = size self;
  lo_terminal : ∀ t, t ∈ terminal_states self → - size self ≤ t < size self;
  lo_fruit : ∀ f, f ∈ fruit self → - size self ≤ f < size self;
  lo_fruit_nodup : NoDup (fruit self);
  lo_starts : initial_states self ≠ []
}.

Record episode_ok (self : GridUniverseEnv) : Prop := {
  ep_lemons : current_lemons self `sublist_of` lemons self;
  ep_apples : current_apples self `sublist_of` apples self;
  ep_melons : current_melons self `sublist_of` melons self;
  ep_done : done self = true →
    current_state self ∈ terminal_states self ∧
    current_state self ∉ current_fruit self
}.

(** The candidate neighbour of a cell, by rows and columns. *)
Definition neighbour (self : GridUniverseEnv) (action s : Z) : Z :=
  let col := s mod x_max self in
  let row := s / x_max self in
  if bool_decide (action = UP) then (if bool_decide (0 < row) then s - x_max self else s)
  else if bool_decide (action = RIGHT) then
    (if bool_decide (col < x_max self - 1) then s + 1 else s)
  else if bool_decide (action = DOWN) then
    (if bool_decide (row < y_max self - 1) then s + x_max self else s)
  else if bool_decide (action = LEFT) then (if bool_decide (0 < col) then s - 1 else s)
  else s.

(** A move into a wall is cancelled. *)
Definition blocked (self : GridUniverseEnv) (s candidate : Z) : Z :=
  if bool_decide (candidate ∈ wall_indices self) then s else candidate.

(** The reward matrix of the specification's [rebuild]: every state is
    filled with the step cost before [_generate_reward_matrix] runs, as
    [__init__] and [_create_custom_world_from_text] do. *)
Definition rebuild : M unit :=
  modify (λ self,
    set_reward_matrix
      (replicate (length (world self)) (MOVEMENT_REWARD (rewards self))) self) ;;
  _generate_reward_matrix.

(** The part of the object that collecting a fruit may touch. *)
Definition with_collection (cl ca cm m : list Z) (self : GridUniverseEnv)
  : GridUniverseEnv :=
  set_reward_matrix m
    (set_current_melons cm (set_current_apples ca (set_current_lemons cl self))).

(** [self'] differs from [self] at most by fruit collected in between. *)
Definition collects (self self' : GridUniverseEnv) : Prop :=
  ∃ cl ca cm m,
    self' = with_collection cl ca cm m self ∧
    cl `sublist_of` current_lemons self ∧
    ca `sublist_of` current_apples self ∧
    cm `sublist_of` current_melons self ∧
    length m = length (reward_matrix self).

(** The bounded history after one more visit. *)
Definition record_visit (c : Z * Z) (h : list (Z * Z)) : list (Z * Z) :=
  let h' := h ++ [c] in
  if bool_decide (num_previous_states_to_store < length h')%nat then tail h' else h'.

(** The ids, counted from [i], of the cells of [cs] that hold [c]. *)
Fixpoint positions (c : ascii) (cs : list ascii) (i : Z) : list Z :=
  match cs with
  | [] => []
  | d :: cs' => (if Ascii.eqb d c then [i] else []) ++ positions c cs' (i + 1)
  end.

(** The characters of a text world in read order. *)
Definition cells (text_world_lines : list string) : list ascii :=
  line ← text_world_lines; String.list_ascii_of_string line.

Definition legal (c : ascii) : bool :=
  bool_decide (c ∈ ["G"; "L"; "l"; "a"; "m"; "o"; "#"; "x"]%char).

(** [m] changes the object within [R], whether it returns or raises. *)
Definition within (R : relation GridUniverseEnv) {A} (m : M A) : Prop :=
  ∀ self, R self (m self).2.

(** Only the reward matrix changes, and it keeps its length. *)
Definition matrix_only (self self' : GridUniverseEnv) : Prop :=
  ∃ m, self' = set_reward_matrix m self ∧ length m = length (reward_matrix self).

(** [self'] has the layout and the entity registry of [self]. *)
Definition same_layout (self self' : GridUniverseEnv) : Prop :=
  x_max self' = x_max self ∧ y_max self' = y_max self ∧ world self' = world self ∧
  wall_grid self' = wall_grid self ∧ wall_indices self' = wall_indices self ∧
  goal_states self' = goal_states self ∧ lava_states self' = lava_states self ∧
  apples self' = apples self ∧ lemons self' = lemons self ∧
  melons self' = melons self ∧ initial_states self' = initial_states self ∧
  length (reward_matrix self') = length (reward_matrix self).

(** The wall grid after marking the cells [ws]. *)
Definition mark (g : list Z) (ws : list Z) : list Z :=
  foldl (λ g w, <[Z.to_nat w:=1]> g) g ws.

(** What [_check_specific_collisions] accepts. *)
Definition collision_free (self : GridUniverseEnv) : Prop :=
  NoDup (current_apples self) ∧ NoDup (current_lemons self) ∧
  NoDup (current_melons self) ∧ NoDup (wall_indices self) ∧
  NoDup (initial_states self) ∧ NoDup (goal_states self) ∧
  NoDup (lava_states self) ∧
  Forall (λ x, x ∉ wall_indices self) (initial_states self) ∧
  Forall (λ x, x ∉ wall_indices self) (goal_states self) ∧
  Forall (λ x, x ∉ wall_indices self) (lava_states self) ∧
  NoDup (current_fruit self) ∧
  Forall (λ x, x ∉ wall_indices self) (current_fruit self).

#[global] Instance collision_free_dec self : Decision (collision_free self).
Proof. unfold collision_free. apply _. Defined.

(** The registry after the cells [cs], numbered from [i], have been read. *)
Definition place (cs : list ascii) (i : Z) (self : GridUniverseEnv) : GridUniverseEnv :=
  set_initial_states (initial_states self ++ positions "x" cs i)
    (set_melons (melons self ++ positions "m" cs i)
       (set_apples (apples self ++ positions "a" cs i)
          (set_lemons (lemons self ++ positions "l" cs i)
             (set_lava_states (lava_states self ++ positions "L" cs i)
                (set_goal_states (goal_states self ++ positions "G" cs i) self))))).

(** Every row has [width] characters, and every character is legal. *)
Definition well_formed_rows (width : nat) (text_world_lines : list string) : bool :=
  forallb (λ line, bool_decide (String.length line = width)) text_world_lines
  && forallb legal (cells text_world_lines).

(** What [_create_custom_world_from_text] leaves when it returns. *)
Record loaded (width : nat) (text_world_lines : list string)
    (self : GridUniverseEnv) : Prop := {
  ld_x : x_max self = Z.of_nat width;
  ld_y : y_max self = Z.of_nat (length text_world_lines);
  ld_cells : length (cells text_world_lines) = (length text_world_lines * width)%nat;
  ld_world : world self = fromiter_coords (x_max self) (y_max self);
  ld_goal : goal_states self = positions "G" (cells text_world_lines) 0;
  ld_lava : lava_states self = positions "L" (cells text_world_lines) 0;
  ld_lemons : lemons self = positions "l" (cells text_world_lines) 0;
  ld_apples : apples self = positions "a" (cells text_world_lines) 0;
  ld_melons : melons self = positions "m" (cells text_world_lines) 0;
  ld_starts : initial_states self = positions "x" (cells text_world_lines) 0;
  ld_walls : wall_indices self = positions "#" (cells text_world_lines) 0;
  ld_wall_grid :
    wall_grid self = mark (replicate (length (world self)) 0) (wall_indices self);
  ld_matrix : length (reward_matrix self) = length (world self);
  ld_current_lemons : current_lemons self = lemons self;
  ld_current_apples : current_apples self = apples self;
  ld_current_melons : current_melons self = melons self;
  ld_start : initial_state self ∈ initial_states self;
  ld_current : current_state self = initial_state self;
  ld_previous : previous_state self = initial_state self;
  ld_history : last_n_states self = [];
  ld_done : done self = false
}.

(** What [__init__] has put in place before it checks for collisions. *)
Record placed (self : GridUniverseEnv) : Prop := {
  pl_x : 0 < x_max self;
  pl_y : 0 < y_max self;
  pl_world : world self = fromiter_coords (x_max self) (y_max self);
  pl_walls : Forall (λ w, 0 ≤ w < size self) (wall_indices self);
  pl_wall_grid :
    wall_grid self = mark (replicate (length (world self)) 0) (wall_indices self);
  pl_matrix : Z.of_nat (length (reward_matrix self)) = size self;
  pl_valid :
    Forall (λ x, - size self ≤ x < size self) (fruit self ++ terminal_states self);
  pl_starts : initial_states self ≠ [];
  pl_current_lemons : current_lemons self = lemons self;
  pl_current_apples : current_apples self = apples self;
  pl_current_melons : current_melons self = melons self;
  pl_done : done self = false
}.

(** What the first part of [__init__] makes of the arguments. *)
Record assigned (p : Params) (self : GridUniverseEnv) : Prop := {
  as_x : x_max self = (grid_shape p).1;
  as_y : y_max self = (grid_shape p).2;
  as_starts :
    initial_states self = match p_initial_state p with inl i => [i] | inr l => l end;
  as_start : initial_state self ∈ initial_states self;
  as_goal :
    goal_states self
    = match p_goal_states p with
      | None | Some [] => [size self - 1]
      | Some gs => gs
      end;
  as_lava : lava_states self = default [] (p_lava_states p);
  as_lemons : lemons self = default [] (p_lemons p);
  as_apples : apples self = default [] (p_apples p);
  as_melons : melons self = default [] (p_melons p);
  as_walls : wall_indices self = default [] (p_walls p);
  as_lava_range : Forall (λ t, 0 ≤ t < size self) (lava_states self);
  as_placed : placed self
}.

(** ** Concrete worlds *)

(** Sample reward constants for concrete runs; the values of
    [config.default_rewards] are not part of the sources. *)
Definition sample_rewards : Config :=
  {| LEMON_REWARD := -5; APPLE_REWARD := 5; MELON_REWARD := 20;
     LAVA_REWARD := -10; TERMINAL_GOAL_REWARD := 10; MOVEMENT_REWARD := -1 |}.

(** The defaults of the constructor's signature. *)
Definition default_params (shape : Z * Z) : Params :=
  {| grid_shape := shape; p_initial_state := inl 0; p_goal_states := None;
     p_lava_states := None; p_walls := None; p_lemons := None; p_melons := None;
     p_apples := None; custom_world_fp := None; random_maze := None |}.

Definition first_pick : nat → nat := λ _, 0%nat.

(** [GridUniverseEnv(grid_shape=(2, 2))]: start at 0, goal at 3. *)
Definition world_2x2 : result GridUniverseEnv :=
  __init__ sample_rewards (default_params (2, 2)) first_pick.

(** [GridUniverseEnv(grid_shape=(2, 2), apples=[1])] *)
Definition apple_params : Params :=
  {| grid_shape := (2, 2); p_initial_state := inl 0; p_goal_states := None;
     p_lava_states := None; p_walls := None; p_lemons := None; p_melons := None;
     p_apples := Some [1]; custom_world_fp := None; random_maze := None |}.

(** The object a constructor call returned; [blank] if it raised. *)
Definition constructed (r : result GridUniverseEnv) : GridUniverseEnv :=
  match r with Ok self => self | Raise _ => blank sample_rewards end.

(** The object after a sequence of calls. *)
Definition after (calls : list call) (self : GridUniverseEnv) : GridUniverseEnv :=
  foldl (λ self c, exec c self) self calls.

(** [GridUniverseEnv(grid_shape=(2, 2), goal_states=[3], lava_states=[3])] *)
Definition goal_on_lava_params : Params :=
  {| grid_shape := (2, 2); p_initial_state := inl 0; p_goal_states := Some [3];
     p_lava_states := Some [3]; p_walls := None; p_lemons := None; p_melons := None;
     p_apples := None; custom_world_fp := None; random_maze := None |}.

(** [GridUniverseEnv(grid_shape=(2, 2), goal_states=[3], walls=[3])] *)
Definition wall_on_goal_params : Params :=
  {| grid_shape := (2, 2); p_initial_state := inl 0; p_goal_states := Some [3];
     p_lava_states := None; p_walls := Some [3]; p_lemons := None; p_melons := None;
     p_apples := None; custom_world_fp := None; random_maze := None |}.

(** [GridUniverseEnv(grid_shape=(2, 2), initial_state=100)] *)
Definition far_start_params : Params :=
  {| grid_shape := (2, 2); p_initial_state := inl 100; p_goal_states := None;
     p_lava_states := None; p_walls := None; p_lemons := None; p_melons := None;
     p_apples := None; custom_world_fp := None; random_maze := None |}.

(** [GridUniverseEnv(grid_shape=(2, 2), goal_states=[-1])] *)
Definition negative_goal_params : Params :=
  {| grid_shape := (2, 2); p_initial_state := inl 0; p_goal_states := Some [-1];
     p_lava_states := None; p_walls := None; p_lemons := None; p_melons := None;
     p_apples := None; custom_world_fp := None; random_maze := None |}.

(** [GridUniverseEnv(grid_shape=(2, 2), apples=[-3])] *)
Definition negative_apple_params : Params :=
  {| grid_shape := (2, 2); p_initial_state := inl 0; p_goal_states := None;
     p_lava_states := None; p_walls := None; p_lemons := None; p_melons := None;
     p_apples := Some [-3]; custom_world_fp := None; random_maze := None |}.

(** [GridUniverseEnv(grid_shape=(2, 2), lava_states=[4])] *)
Definition far_lava_params : Params :=
  {| grid_shape := (2, 2); p_initial_state := inl 0; p_goal_states := None;
     p_lava_states := Some [4]; p_walls := None; p_lemons := None; p_melons := None;
     p_apples := None; custom_world_fp := None; random_maze := None |}.

(** The 2x2 world after [step(RIGHT)] and [step(DOWN)]: the goal is
    reached. *)
Definition terminated_2x2 : GridUniverseEnv :=
  after [Step RIGHT; Step DOWN] (constructed world_2x2).

(** [GridUniverseEnv(grid_shape=(2, 2), apples=[1])] under any reward
    constants. *)
Definition apple_world (cfg : Config) : GridUniverseEnv :=
  constructed (__init__ cfg apple_params first_pick).

(** The state ids the constructor arguments supply for each category. *)
Definition supplied_starts (p : Params) : list Z :=
  match p_initial_state p with inl i => [i] | inr l => l end.

Definition supplied_goals (p : Params) : list Z :=
  match p_goal_states p with
  | None | Some [] => [(grid_shape p).1 * (grid_shape p).2 - 1]
  | Some gs => gs
  end.

Definition supplied_lava (p : Params) : list Z := default [] (p_lava_states p).
Definition supplied_walls (p : Params) : list Z := default [] (p_walls p).
Definition supplied_fruit (p : Params) : list Z :=
  default [] (p_apples p) ++ default [] (p_lemons p) ++ default [] (p_melons p).

(** [GridUniverseEnv(custom_world_fp=...)] for a file holding the rows
    [xo] and [oG]. *)
Definition text_params : Params :=
  {| grid_shape := (4, 4); p_initial_state := inl 0; p_goal_states := None;
     p_lava_states := None; p_walls := None; p_lemons := None; p_melons := None;
     p_apples := None; custom_world_fp := Some ["xo"; "oG"]%string;
     random_maze := None |}.

(** ** Further vocabulary *)

(** The step a direction takes in (column, row) coordinates. *)
Definition direction (action : Z) : Z * Z :=
  if bool_decide (action = UP) then (0, -1)
  else if bool_decide (action = RIGHT) then (1, 0)
  else if bool_decide (action = DOWN) then (0, 1)
  else if bool_decide (action = LEFT) then (-1, 0)
  else (0, 0).

(** The episode a constructor call leaves. *)
Record started (self : GridUniverseEnv) : Prop := {
  st_current : current_state self = initial_state self;
  st_previous : previous_state self = initial_state self;
  st_start : initial_state self ∈ initial_states self;
  st_history : last_n_states self = []
}.

(** No id twice in a category, no fruit twice among the fruit, and
    nothing placed on a wall. *)
Definition registry_ok (self : GridUniverseEnv) : Prop :=
  NoDup (wall_indices self) ∧ NoDup (initial_states self) ∧
  NoDup (goal_states self) ∧ NoDup (lava_states self) ∧ NoDup (fruit self) ∧
  Forall (λ x, x ∉ wall_indices self) (initial_states self) ∧
  Forall (λ x, x ∉ wall_indices self) (goal_states self) ∧
  Forall (λ x, x ∉ wall_indices self) (lava_states self) ∧
  Forall (λ x, x ∉ wall_indices self) (fruit self).

(** Every fruit that has left the working lists has left the step cost
    in the reward matrix. *)
Definition collected_at_step_cost (self : GridUniverseEnv) : Prop :=
  ∀ f, f ∈ fruit self → f ∉ current_fruit self →
    getitem (reward_matrix self) f = Ok (MOVEMENT_REWARD (rewards self)).

(** The history holds at most [num_previous_states_to_store] cells of the
    world, the newest of them the cell of the current state. *)
Definition history_ok (self : GridUniverseEnv) : Prop :=
  (length (last_n_states self) ≤ num_previous_states_to_store)%nat ∧
  (∀ c, c ∈ last_n_states self → c ∈ world self) ∧
  (∀ c, last (last_n_states self) = Some c →
        getitem (world self) (current_state self) = Ok c).

(** Where [step(action)] takes the agent from its current state: a
    terminal state keeps it, otherwise it goes to the neighbour in the
    direction [action] indexes (negative indices count from the end of the
    four closures) unless that is a wall. *)
Definition destination (self : GridUniverseEnv) (action : Z) : Z :=
  let s := current_state self in
  if bool_decide (s ∈ terminal_states self) then s
  else blocked self s (neighbour self (action mod 4) s).

(** Every start state is a cell of the grid. *)
Definition starts_on_grid (self : GridUniverseEnv) : Prop :=
  Forall (λ s, 0 ≤ s < size self) (initial_states self).

(** How many of the ids [xs] denote cell [k] of a sequence of length [n],
    negative ids counting from the end. *)
Definition hits (n : nat) (xs : list Z) (k : nat) : nat :=
  length (filter (λ x, index_of n x = Some k) xs).

(** An [int64] entry after [+= v] has run on it [c] times. *)
Definition added (v : Z) (c : nat) (old : Z) : Z :=
  Nat.iter c (λ entry, int64 (entry + v)) old.

(** The entry [_generate_reward_matrix] leaves in cell [k] of a matrix of
    length [n] that held [old]: the last loops win, the fruit loops add,
    once for every id that denotes the cell. *)
Definition generated (cfg : Config) (n : nat)
    (ca cl cm goals lava : list Z) (k : nat) (old : Z) : Z :=
  if bool_decide (0 < hits n lava k)%nat then LAVA_REWARD cfg
  else if bool_decide (0 < hits n goals k)%nat then TERMINAL_GOAL_REWARD cfg
  else added (MELON_REWARD cfg) (hits n cm k)
         (added (LEMON_REWARD cfg) (hits n cl k)
            (added (APPLE_REWARD cfg) (hits n ca k) old)).

(** The reward constants with the two literals [__init__] writes over the
    terminal entries. *)
Definition constructor_rewards (cfg : Config) : Config :=
  {| LEMON_REWARD := LEMON_REWARD cfg; APPLE_REWARD := APPLE_REWARD cfg;
     MELON_REWARD := MELON_REWARD cfg; LAVA_REWARD := -10;
     TERMINAL_GOAL_REWARD := 10; MOVEMENT_REWARD := MOVEMENT_REWARD cfg |}.

(** The reward a text world stores for a cell holding [char]. *)
Definition cell_reward (cfg : Config) (char : ascii) : Z :=
  if Ascii.eqb char "L"%char then LAVA_REWARD cfg
  else if Ascii.eqb char "G"%char then TERMINAL_GOAL_REWARD cfg
  else if Ascii.eqb char "a"%char then int64 (MOVEMENT_REWARD cfg + APPLE_REWARD cfg)
  else if Ascii.eqb char "l"%char then int64 (MOVEMENT_REWARD cfg + LEMON_REWARD cfg)
  else if Ascii.eqb char "m"%char then int64 (MOVEMENT_REWARD cfg + MELON_REWARD cfg)
  else MOVEMENT_REWARD cfg.

(** The text world a construction ends with: the maze when one is asked
    for, else the file when one is given. *)
Definition text_world (p : Params) : option (list string) :=
  match random_maze p with
  | Some lines => Some lines
  | None => custom_world_fp p
  end.

(** The object after loading the rows [xo] and [oG] into a blank one. *)
Definition loaded_2x2 : GridUniverseEnv :=
  (_create_custom_world_from_text ["xo"; "oG"]%string 0 (blank sample_rewards)).2.

(** ** Rendering as text *)

(** [for s in xs: new_world[s] = char] *)
Fixpoint paint (char : ascii) (xs : list Z) (new_world : list ascii)
  : result (list ascii) :=
  match xs with
  | [] => Ok new_world
  | s :: xs' =>
      match setitem new_world s char with
      | Ok new_world' => paint char xs' new_world'
      | Raise e => Raise e
      end
  end.

(** The rows of [np.reshape(a, (rows, cols))]. *)
Fixpoint chunks {A} (a : list A) (rows cols : nat) : list (list A) :=
  match rows with
  | O => []
  | S rows' => take cols a :: chunks (drop cols a) rows' cols
  end.

Definition reshape {A} (a : list A) (rows cols : nat) : result (list (list A)) :=
  if bool_decide (length a = (rows * cols)%nat) then Ok (chunks a rows cols)
  else Raise ValueError.

(** What the two write loops of [_render] send to [outfile]. *)
Definition write_rows (rows : list (list ascii)) : list ascii :=
  (row ← rows; (state ← row; [state; " "%char]) ++ ["010"%char]) ++ ["010"%char].

(** [_render(mode)] for [mode] one of ['human'] and ['ansi'], with [close]
    left false: the text written to [outfile]. *)
Definition _render : M (list ascii) :=
  xm <- gets x_max ;;
  ym <- gets y_max ;;
  if bool_decide (xm ≤ 0) then raise ValueError
  else if bool_decide (ym ≤ 0) then raise ValueError
  else
    let new_world := replicate (Z.to_nat xm * Z.to_nat ym) "o"%char in
    cs <- gets current_state ;;
    new_world <- lift (setitem new_world cs "x"%char) ;;
    gs <- gets goal_states ;;
    new_world <- lift (paint "G" gs new_world) ;;
    ls <- gets lava_states ;;
    new_world <- lift (paint "L" ls new_world) ;;
    ws <- gets wall_indices ;;
    new_world <- lift (paint "#" ws new_world) ;;
    cm <- gets current_melons ;;
    new_world <- lift (paint "m" cm new_world) ;;
    cl <- gets current_lemons ;;
    new_world <- lift (paint "l" cl new_world) ;;
    ca <- gets current_apples ;;
    new_world <- lift (paint "a" ca new_world) ;;
    rows <- lift (reshape new_world (Z.to_nat ym) (Z.to_nat xm)) ;;
    ret (write_rows rows).

(** The character [_render] shows in cell [k]: the loops that run later
    paint over the earlier ones. *)
Definition shown (self : GridUniverseEnv) (k : nat) : ascii :=
  let n := Z.to_nat (size self) in
  if bool_decide (0 < hits n (current_apples self) k)%nat then "a"%char
  else if bool_decide (0 < hits n (current_lemons self) k)%nat then "l"%char
  else if bool_decide (0 < hits n (current_melons self) k)%nat then "m"%char
  else if bool_decide (0 < hits n (wall_indices self) k)%nat then "#"%char
  else if bool_decide (0 < hits n (lava_states self) k)%nat then "L"%char
  else if bool_decide (0 < hits n (goal_states self) k)%nat then "G"%char
  else if bool_decide (0 < hits n [current_state self] k)%nat then "x"%char
  else "o"%char.

(** The arguments a construction without a text world accepts: a grid
    with cells, a start state to draw, lava and wall ids on the grid,
    goal and fruit ids that index the reward matrix, and no collision the
    constructor checks for. *)
Definition valid_params (p : Params) : Prop :=
  let n := (grid_shape p).1 * (grid_shape p).2 in
  0 < (grid_shape p).1 ∧ 0 < (grid_shape p).2 ∧
  supplied_starts p ≠ [] ∧
  Forall (λ x, 0 ≤ x < n) (supplied_lava p) ∧
  Forall (λ x, 0 ≤ x < n) (supplied_walls p) ∧
  Forall (λ x, - n ≤ x < n) (supplied_goals p) ∧
  Forall (λ x, - n ≤ x < n) (supplied_fruit p) ∧
  NoDup (supplied_walls p) ∧ NoDup (supplied_starts p) ∧
  NoDup (supplied_goals p) ∧ NoDup (supplied_lava p) ∧
  NoDup (supplied_fruit p) ∧
  Forall (λ x, x ∉ supplied_walls p)
    (supplied_starts p ++ supplied_goals p ++ supplied_lava p ++ supplied_fruit p).
(** * Facts about the primitives *)

Section PyFacts.

Lemma index_of_nonneg (n : nat) (i : Z) :
  0 ≤ i < Z.of_nat n → index_of n i = Some (Z.to_nat i).
Proof. intros H. unfold index_of. rewrite bool_decide_eq_true_2; auto. Qed.

Lemma index_of_neg (n : nat) (i : Z) :
  - Z.of_nat n ≤ i < 0 → index_of n i = Some (Z.to_nat (i + Z.of_nat n)).
Proof.
  intros H. unfold index_of.
  rewrite bool_decide_eq_false_2 by lia. rewrite bool_decide_eq_true_2; auto.
Qed.

Lemma index_of_Some (n : nat) (i : Z) (k : nat) :
  index_of n i = Some k → (k < n)%nat ∧ - Z.of_nat n ≤ i < Z.of_nat n.
Proof.
  unfold index_of. repeat case_bool_decide; intros [= <-]; lia.
Qed.

Lemma index_of_None (n : nat) (i : Z) :
  index_of n i = None ↔ ¬ (- Z.of_nat n ≤ i < Z.of_nat n).
Proof.
  unfold index_of. repeat case_bool_decide; split; try discriminate; try lia; auto.
Qed.

Lemma index_of_is_Some (n : nat) (i : Z) :
  - Z.of_nat n ≤ i < Z.of_nat n → ∃ k, index_of n i = Some k ∧ (k < n)%nat.
Proof.
  intros H. destruct (index_of n i) as [k|] eqn:E.
  - exists k. split; auto. by apply index_of_Some in E as [? _].
  - apply index_of_None in E. lia.
Qed.

Lemma getitem_nonneg {A} (a : list A) (i : Z) (v : A) :
  0 ≤ i → a !! Z.to_nat i = Some v → getitem a i = Ok v.
Proof.
  intros Hi Hv. unfold getitem.
  apply lookup_lt_Some in Hv as Hlt.
  rewrite index_of_nonneg by lia. by rewrite Hv.
Qed.

Lemma getitem_Ok_range {A} (a : list A) (i : Z) (v : A) :
  getitem a i = Ok v → - Z.of_nat (length a) ≤ i < Z.of_nat (length a).
Proof.
  unfold getitem. destruct (index_of (length a) i) as [k|] eqn:E; [|discriminate].
  intros _. by apply index_of_Some in E as [_ ?].
Qed.

Lemma getitem_in_range {A} (a : list A) (i : Z) :
  - Z.of_nat (length a) ≤ i < Z.of_nat (length a) → ∃ v, getitem a i = Ok v.
Proof.
  intros H. apply index_of_is_Some in H as (k & Hk & Hlt).
  unfold getitem. rewrite Hk.
  destruct (lookup_lt_is_Some_2 a k Hlt) as [v Hv]. rewrite Hv. eauto.
Qed.

Lemma getitem_out_of_range {A} (a : list A) (i : Z) :
  ¬ (- Z.of_nat (length a) ≤ i < Z.of_nat (length a)) →
  getitem a i = Raise IndexError.
Proof.
  intros H. apply index_of_None in H. unfold getitem. by rewrite H.
Qed.

Lemma setitem_Ok_range {A} (a a' : list A) (i : Z) (v : A) :
  setitem a i v = Ok a' →
  - Z.of_nat (length a) ≤ i < Z.of_nat (length a) ∧ length a' = length a.
Proof.
  unfold setitem. destruct (index_of (length a) i) as [k|] eqn:E; [|discriminate].
  intros [= <-]. apply index_of_Some in E as [_ ?].
  split; auto. apply length_insert.
Qed.

Lemma setitem_in_range {A} (a : list A) (i : Z) (v : A) :
  - Z.of_nat (length a) ≤ i < Z.of_nat (length a) →
  ∃ k, index_of (length a) i = Some k ∧ setitem a i v = Ok (<[k:=v]> a).
Proof.
  intros H. apply index_of_is_Some in H as (k & Hk & Hlt).
  exists k. unfold setitem. by rewrite Hk.
Qed.

Lemma setitem_after_getitem {A} (a : list A) (i : Z) (v w : A) :
  getitem a i = Ok v → ∃ a', setitem a i w = Ok a' ∧ length a' = length a.
Proof.
  intros H. apply getitem_Ok_range in H.
  destruct (setitem_in_range a i w H) as (k & _ & ->).
  eexists; split; eauto. apply length_insert.
Qed.

Lemma contains_true (x : Z) (l : list Z) : contains x l = true ↔ x ∈ l.
Proof. unfold contains. apply bool_decide_eq_true. Qed.

Lemma contains_false (x : Z) (l : list Z) : contains x l = false ↔ x ∉ l.
Proof. unfold contains. apply bool_decide_eq_false. Qed.

Lemma index_elem (x : Z) (l : list Z) : x ∈ l → ∃ k, index x l = Ok k.
Proof.
  induction l as [|y l IH]; intros H; [by apply elem_of_nil in H|].
  cbn. case_bool_decide; [eauto|].
  apply elem_of_cons in H as [->|H]; [done|].
  destruct (IH H) as [k ->]. eauto.
Qed.

Lemma remove_elem (x : Z) (l : list Z) :
  x ∈ l → ∃ r, remove x l = Ok r ∧ r `sublist_of` l ∧ (NoDup l → x ∉ r).
Proof.
  induction l as [|y l IH]; intros H; [by apply elem_of_nil in H|].
  cbn. case_bool_decide as Hy.
  - subst y. exists l. split; [done|]. split; [by apply sublist_cons|].
    intros Hnd. by apply NoDup_cons in Hnd as [? _].
  - apply elem_of_cons in H as [->|H]; [done|].
    destruct (IH H) as (r & -> & Hsub & Hnot).
    exists (y :: r). split; [done|]. split; [by apply sublist_skip|].
    intros Hnd. apply NoDup_cons in Hnd as [_ Hnd].
    intros Hin. apply elem_of_cons in Hin as [->|Hin]; [done|]. by apply Hnot.
Qed.

Lemma set_length_le (l : list Z) : (length (set l) ≤ length l)%nat.
Proof.
  unfold set. induction l as [|x l IH]; cbn; [lia|].
  case_decide; cbn; lia.
Qed.

Lemma set_length_NoDup (l : list Z) : length (set l) = length l ↔ NoDup l.
Proof.
  unfold set. split.
  - induction l as [|x l IH]; cbn; [constructor|].
    case_decide as Hx.
    + intros Hlen. pose proof (set_length_le l) as Hle. unfold set in Hle. lia.
    + cbn. intros [= Hlen]. constructor; auto.
  - intros H. induction H as [|x l Hx Hl IH]; cbn; [done|].
    destruct (decide_rel elem_of x l); [done|]. cbn. by rewrite IH.
Qed.

Lemma inter_nonempty (l k : list Z) :
  (0 < length (inter (set l) (set k)))%nat ↔ ∃ x, x ∈ l ∧ x ∈ k.
Proof.
  unfold inter, set. split.
  - destruct (list_intersection _ _) as [|x r] eqn:E; cbn; [lia|]. intros _.
    assert (Hx : x ∈ list_intersection (remove_dups l) (remove_dups k))
      by (rewrite E; apply elem_of_cons; auto).
    apply list_elem_of_intersection in Hx as [H1 H2].
    rewrite elem_of_remove_dups in H1, H2. eauto.
  - intros (x & H1 & H2).
    assert (Hx : x ∈ list_intersection (remove_dups l) (remove_dups k)).
    { apply list_elem_of_intersection. by rewrite !elem_of_remove_dups. }
    destruct (list_intersection _ _); [by apply elem_of_nil in Hx|cbn; lia].
Qed.

Lemma choice_elem (pick : nat) (l : list Z) (x : Z) : choice pick l = Ok x → x ∈ l.
Proof.
  unfold choice. destruct (l !! _) as [y|] eqn:E; [|discriminate].
  intros [= <-]. by eapply list_elem_of_lookup_2.
Qed.

Lemma choice_nonempty (pick : nat) (l : list Z) :
  l ≠ [] → ∃ x, choice pick l = Ok x.
Proof.
  intros Hl. unfold choice.
  assert (Hlen : (0 < length l)%nat) by (destruct l; [done|cbn; lia]).
  destruct (lookup_lt_is_Some_2 l (pick mod length l)%nat) as [x ->]; eauto.
  apply Nat.mod_upper_bound. lia.
Qed.

Lemma choice_nil (pick : nat) : choice pick [] = Raise IndexError.
Proof. reflexivity. Qed.

Lemma int64_range (z : Z) : - 2 ^ 63 ≤ int64 z < 2 ^ 63.
Proof.
  unfold int64. pose proof (Z.mod_pos_bound (z + 2 ^ 63) (2 ^ 64)). lia.
Qed.

Lemma int64_id (z : Z) : - 2 ^ 63 ≤ z < 2 ^ 63 → int64 z = z.
Proof. intros H. unfold int64. rewrite Z.mod_small; lia. Qed.

Lemma int64_add_l (x y : Z) : int64 (int64 x + y) = int64 (x + y).
Proof.
  unfold int64. f_equal.
  replace ((x + 2 ^ 63) mod 2 ^ 64 - 2 ^ 63 + y + 2 ^ 63)
    with ((x + 2 ^ 63) mod 2 ^ 64 + y) by lia.
  rewrite Zplus_mod_idemp_l. f_equal. lia.
Qed.

Lemma int64_eq_iff (x y : Z) : int64 x = int64 y ↔ (x - y) mod 2 ^ 64 = 0.
Proof.
  unfold int64. split.
  - intros H.
    assert (Hm : (x + 2 ^ 63) mod 2 ^ 64 = (y + 2 ^ 63) mod 2 ^ 64) by lia.
    replace (x - y) with ((x + 2 ^ 63) - (y + 2 ^ 63)) by lia.
    rewrite Zminus_mod, Hm, Z.sub_diag. reflexivity.
  - intros H. f_equal.
    replace (x + 2 ^ 63) with ((x - y) + (y + 2 ^ 63)) by lia.
    by rewrite Zplus_mod, H, Z.add_0_l, Z.mod_mod.
Qed.

End PyFacts.
(** * The world layout *)

Section World.

Lemma bind_singleton_fmap {A B} (f : A → B) (l : list A) :
  (x ← l; [f x]) = f <$> l.
Proof. induction l as [|a l IH]; cbn; [done|]. by rewrite IH. Qed.

Lemma bind_lookup_uniform {A B} (f : A → list B) (k : nat) (l : list A) (i j : nat) :
  (∀ y, length (f y) = k) → (j < k)%nat →
  (l ≫= f) !! (i * k + j)%nat = l !! i ≫= (λ y, f y !! j).
Proof.
  intros Hlen Hj. revert i. induction l as [|a l IH]; intros i; [done|].
  cbn. destruct i as [|i]; cbn.
  - rewrite lookup_app_l by (rewrite Hlen; lia). done.
  - rewrite lookup_app_r by (rewrite Hlen; lia).
    rewrite Hlen. replace (k + i * k + j - k)%nat with (i * k + j)%nat by lia.
    apply IH.
Qed.

Lemma bind_length_uniform {A B} (f : A → list B) (k : nat) (l : list A) :
  (∀ y, length (f y) = k) → length (l ≫= f) = (length l * k)%nat.
Proof.
  intros Hlen. induction l as [|a l IH]; cbn; [done|].
  rewrite length_app, Hlen, IH. lia.
Qed.

Lemma fromiter_coords_length (xm ym : Z) :
  0 ≤ xm → 0 ≤ ym → Z.of_nat (length (fromiter_coords xm ym)) = xm * ym.
Proof.
  intros Hx Hy. unfold fromiter_coords.
  rewrite (bind_length_uniform _ (Z.to_nat xm)).
  - unfold arange. rewrite length_seqZ. lia.
  - intros y. rewrite bind_singleton_fmap, length_fmap.
    unfold arange. by rewrite length_seqZ.
Qed.

(** State id [s] sits at column [s mod x_max] of row [s / x_max]. *)
Lemma fromiter_coords_lookup (xm ym s : Z) :
  0 < xm → 0 ≤ s < xm * ym →
  fromiter_coords xm ym !! Z.to_nat s = Some (s mod xm, s / xm).
Proof.
  intros Hx Hs. unfold fromiter_coords.
  assert (Hq : 0 ≤ s / xm < ym).
  { split; [apply Z.div_pos; lia|]. apply Z.div_lt_upper_bound; lia. }
  assert (Hr : 0 ≤ s mod xm < xm) by (apply Z.mod_pos_bound; lia).
  replace (Z.to_nat s)
    with (Z.to_nat (s / xm) * Z.to_nat xm + Z.to_nat (s mod xm))%nat.
  2:{ pose proof (Z.div_mod s xm ltac:(lia)) as Hdm. nia. }
  rewrite (bind_lookup_uniform _ (Z.to_nat xm)).
  - unfold arange. rewrite lookup_seqZ_lt by lia. cbn.
    rewrite bind_singleton_fmap, list_lookup_fmap, lookup_seqZ_lt by lia. cbn.
    f_equal. f_equal; lia.
  - intros y. rewrite bind_singleton_fmap, length_fmap.
    unfold arange. by rewrite length_seqZ.
  - lia.
Qed.

End World.
(** * Running the methods *)

Section Readers.

Lemma bind_Ok {A B} (m : M A) (k : A → M B) self a self' :
  m self = (Ok a, self') → bind m k self = k a self'.
Proof. intros H. unfold bind. by rewrite H. Qed.

Lemma bind_Raise {A B} (m : M A) (k : A → M B) self e self' :
  m self = (Raise e, self') → bind m k self = (Raise e, self').
Proof. intros H. unfold bind. by rewrite H. Qed.

Lemma bind_Ok_inv {A B} (m : M A) (k : A → M B) self b self'' :
  bind m k self = (Ok b, self'') →
  ∃ a self', m self = (Ok a, self') ∧ k a self' = (Ok b, self'').
Proof.
  unfold bind. destruct (m self) as [[a|e] self']; [eauto|discriminate].
Qed.

Lemma is_terminal_run s self :
  is_terminal s self = (Ok (bool_decide (s ∈ terminal_states self)), self).
Proof.
  unfold is_terminal, is_lava, is_terminal_goal, terminal_states, contains.
  unfold bind, gets, ret. cbn.
  destruct (bool_decide (s ∈ lava_states self)) eqn:El; cbn.
  - apply bool_decide_eq_true in El.
    rewrite bool_decide_eq_true_2; [done|]. apply elem_of_app; auto.
  - apply bool_decide_eq_false in El. do 2 f_equal.
    apply bool_decide_ext. rewrite elem_of_app. tauto.
Qed.

Lemma world_getitem self s :
  layout_ok self → 0 ≤ s < size self →
  getitem (world self) s = Ok (s mod x_max self, s / x_max self).
Proof.
  intros L Hs. apply getitem_nonneg; [lia|].
  rewrite (lo_world _ L). apply fromiter_coords_lookup; [apply L|done].
Qed.

Lemma world_length self :
  layout_ok self → Z.of_nat (length (world self)) = size self.
Proof.
  intros L. rewrite (lo_world _ L).
  apply fromiter_coords_length; pose proof (lo_x _ L); pose proof (lo_y _ L); lia.
Qed.

Lemma _is_wall_run self s :
  layout_ok self → 0 ≤ s < size self →
  _is_wall s self = (Ok (bool_decide (s ∈ wall_indices self)), self).
Proof.
  intros L Hs. unfold _is_wall. cbn.
  unfold bind, gets, lift, ret.
  rewrite (getitem_nonneg _ _ _ (proj1 Hs) (lo_wall_grid _ L s Hs)).
  do 2 f_equal. repeat case_bool_decide; done.
Qed.

Lemma neighbour_range self a s :
  0 < x_max self → 0 ≤ s < size self → 0 ≤ neighbour self a s < size self.
Proof.
  intros Hx Hs. unfold neighbour, size in *.
  pose proof (Z.div_mod s (x_max self) ltac:(lia)) as Hdm.
  pose proof (Z.mod_pos_bound s (x_max self) Hx) as Hm.
  assert (Hq : 0 ≤ s / x_max self) by (apply Z.div_pos; lia).
  set (q := s / x_max self) in *. set (r := s mod x_max self) in *.
  clearbody q r.
  assert (Hqy : q < y_max self).
  { apply (Z.mul_lt_mono_pos_l (x_max self)); lia. }
  assert (x_max self * (q + 1) ≤ x_max self * y_max self)
    by (apply Z.mul_le_mono_nonneg_l; lia).
  repeat case_bool_decide; try lia.
  - assert (x_max self * 1 ≤ x_max self * q)
      by (apply Z.mul_le_mono_nonneg_l; lia). lia.
  - assert (x_max self * (q + 2) ≤ x_max self * y_max self)
      by (apply Z.mul_le_mono_nonneg_l; lia). lia.
Qed.

(** The closure chosen by a direction computes [neighbour]. *)
Lemma move_run self a s :
  layout_ok self → 0 ≤ s < size self → 0 ≤ a < 4 →
  ∃ f, getitem action_state_to_next_state a = Ok f ∧
       f s self = (Ok (neighbour self a s), self).
Proof.
  intros L Hs Ha.
  assert (a = 0 ∨ a = 1 ∨ a = 2 ∨ a = 3) as [ -> | [ -> | [ -> | -> ] ] ] by lia;
    eexists; (split; [reflexivity|]);
    unfold up, right, down, left, bind, gets, lift, ret;
    rewrite (world_getitem _ _ L Hs); cbn; unfold neighbour; cbn;
    do 2 f_equal; repeat case_bool_decide; try done; lia.
Qed.

(** Python's negative indices also select a closure. *)
Lemma move_run_negative self a s :
  layout_ok self → 0 ≤ s < size self → -4 ≤ a < 0 →
  ∃ f, getitem action_state_to_next_state a = Ok f ∧
       f s self = (Ok (neighbour self (a + 4) s), self).
Proof.
  intros L Hs Ha.
  assert (a = -4 ∨ a = -3 ∨ a = -2 ∨ a = -1) as [ -> | [ -> | [ -> | -> ] ] ] by lia;
    eexists; (split; [reflexivity|]);
    unfold up, right, down, left, bind, gets, lift, ret;
    rewrite (world_getitem _ _ L Hs); cbn; unfold neighbour; cbn;
    do 2 f_equal; repeat case_bool_decide; try done; lia.
Qed.

Lemma move_out_of_range a :
  ¬ (-4 ≤ a < 4) → getitem action_state_to_next_state a = Raise IndexError.
Proof. intros H. apply getitem_out_of_range. cbn. lia. Qed.

End Readers.
Section Collecting.

Lemma with_collection_id self :
  with_collection (current_lemons self) (current_apples self)
    (current_melons self) (reward_matrix self) self = self.
Proof. by destruct self. Qed.

Lemma collects_refl self : collects self self.
Proof.
  exists (current_lemons self), (current_apples self), (current_melons self),
    (reward_matrix self).
  by rewrite with_collection_id.
Qed.

Lemma collects_trans self1 self2 self3 :
  collects self1 self2 → collects self2 self3 → collects self1 self3.
Proof.
  intros (cl & ca & cm & m & -> & Hl & Ha & Hm & Hlen)
         (cl' & ca' & cm' & m' & -> & Hl' & Ha' & Hm' & Hlen').
  cbn in *. exists cl', ca', cm', m'. split; [done|].
  repeat split; try (etrans; eassumption); congruence.
Qed.

Lemma reward_function_peek self ns :
  reward_function ns false self = (getitem (reward_matrix self) ns, self).
Proof. reflexivity. Qed.

Lemma reward_function_out_of_range self ns :
  ¬ (- Z.of_nat (length (reward_matrix self)) ≤ ns
     < Z.of_nat (length (reward_matrix self))) →
  reward_function ns true self = (Raise IndexError, self).
Proof.
  intros H. unfold reward_function, bind, gets, lift.
  by rewrite (getitem_out_of_range _ _ H).
Qed.

(** Collecting on a cell without fruit only reads the matrix. *)
Lemma reward_function_no_fruit self ns r :
  getitem (reward_matrix self) ns = Ok r →
  ns ∉ current_fruit self →
  reward_function ns true self = (Ok r, self).
Proof.
  intros Hr Hn. unfold current_fruit in Hn. rewrite !elem_of_app in Hn.
  unfold reward_function, bind, gets, lift, ret. rewrite Hr.
  rewrite (proj2 (contains_false ns (current_lemons self))) by tauto.
  rewrite (proj2 (contains_false ns (current_apples self))) by tauto.
  rewrite (proj2 (contains_false ns (current_melons self))) by tauto.
  done.
Qed.

(** Collecting on a cell with fruit: the old entry is returned, the
    fruit leaves its working list, and the entry becomes the step cost. *)
Lemma reward_function_fruit self ns r :
  episode_ok self →
  getitem (reward_matrix self) ns = Ok r →
  ns ∈ current_fruit self →
  ∃ cl ca cm k,
    reward_function ns true self
    = (Ok r, with_collection cl ca cm
               (<[k:=MOVEMENT_REWARD (rewards self)]> (reward_matrix self)) self) ∧
    index_of (length (reward_matrix self)) ns = Some k ∧
    cl `sublist_of` current_lemons self ∧
    ca `sublist_of` current_apples self ∧
    cm `sublist_of` current_melons self ∧
    (NoDup (current_fruit self) → ns ∉ ca ++ cl ++ cm).
Proof.
  intros E Hr Hin.
  destruct (setitem_in_range (reward_matrix self) ns
              (MOVEMENT_REWARD (rewards self)) (getitem_Ok_range _ _ _ Hr))
    as (k & Hk & Hset).
  unfold reward_function, bind, gets, lift, ret. rewrite Hr.
  unfold current_fruit in *.
  destruct (contains ns (current_lemons self)) eqn:Cl.
  { apply contains_true in Cl. cbn.
    destruct (index_elem ns (lemons self)) as [i ->].
    { eapply elem_of_sublist; [done|apply (ep_lemons _ E)]. }
    destruct (remove_elem ns _ Cl) as (cl & -> & Hsub & Hnot).
    cbn. unfold reward_matrix_set, bind, gets, lift, modify. cbn.
    rewrite Hset.
    exists cl, (current_apples self), (current_melons self), k.
    split; [by destruct self|]. repeat split; try done.
    intros Hnd Hx. apply NoDup_app in Hnd as (Hnda & Hdisj & Hnd).
    apply NoDup_app in Hnd as (Hndl & Hdisj' & Hndm).
    rewrite !elem_of_app in Hx. destruct Hx as [Hx|[Hx|Hx]].
    - apply (Hdisj _ Hx). apply elem_of_app; auto.
    - by apply Hnot.
    - by apply (Hdisj' _ Cl). }
  destruct (contains ns (current_apples self)) eqn:Ca.
  { apply contains_true in Ca. cbn.
    destruct (index_elem ns (apples self)) as [i ->].
    { eapply elem_of_sublist; [done|apply (ep_apples _ E)]. }
    destruct (remove_elem ns _ Ca) as (ca & -> & Hsub & Hnot).
    cbn. unfold reward_matrix_set, bind, gets, lift, modify. cbn.
    rewrite Hset.
    exists (current_lemons self), ca, (current_melons self), k.
    split; [by destruct self|]. repeat split; try done.
    intros Hnd Hx. apply NoDup_app in Hnd as (Hnda & Hdisj & Hnd).
    rewrite !elem_of_app in Hx. destruct Hx as [Hx|Hx].
    - by apply Hnot.
    - apply (Hdisj _ Ca). by apply elem_of_app. }
  destruct (contains ns (current_melons self)) eqn:Cm.
  { apply contains_true in Cm. apply contains_false in Cl, Ca. cbn.
    destruct (index_elem ns (melons self)) as [i ->].
    { eapply elem_of_sublist; [done|apply (ep_melons _ E)]. }
    destruct (remove_elem ns _ Cm) as (cm & -> & Hsub & Hnot).
    cbn. unfold reward_matrix_set, bind, gets, lift, modify. cbn.
    rewrite Hset.
    exists (current_lemons self), (current_apples self), cm, k.
    split; [by destruct self|]. repeat split; try done.
    intros Hnd Hx. apply NoDup_app in Hnd as (Hnda & Hdisj & Hnd).
    apply NoDup_app in Hnd as (Hndl & Hdisj' & Hndm).
    rewrite !elem_of_app in Hx. destruct Hx as [Hx|[Hx|Hx]]; try done.
    by apply Hnot. }
  apply contains_false in Cl, Ca, Cm. rewrite !elem_of_app in Hin. tauto.
Qed.

End Collecting.
Section Transition.

(** What [look_step_ahead] does once [next_state] is settled. *)
Local Abbreviation settle next_state :=
  (reward <- reward_function next_state%Z true ;;
   d <- is_terminal next_state%Z ;;
   ret (next_state%Z, reward, d)).

Lemma collects_terminal_states self self' :
  collects self self' → terminal_states self' = terminal_states self.
Proof. by intros (cl & ca & cm & m & -> & _). Qed.

Lemma reward_function_collects self ns c :
  episode_ok self → collects self (reward_function ns c self).2.
Proof.
  intros E. destruct c; [|apply collects_refl].
  destruct (getitem (reward_matrix self) ns) as [r|e] eqn:Hr.
  - destruct (decide (ns ∈ current_fruit self)) as [Hin|Hn].
    + destruct (reward_function_fruit _ _ _ E Hr Hin)
        as (cl & ca & cm & k & -> & _ & Hl & Ha & Hm & _).
      cbn. exists cl, ca, cm, (<[k:=MOVEMENT_REWARD (rewards self)]> (reward_matrix self)).
      repeat split; try done. apply length_insert.
    + rewrite (reward_function_no_fruit _ _ _ Hr Hn). apply collects_refl.
  - unfold reward_function, bind, gets, lift. rewrite Hr. apply collects_refl.
Qed.

(** On a valid index the collecting reward read returns. *)
Lemma reward_function_returns self ns :
  episode_ok self →
  - Z.of_nat (length (reward_matrix self)) ≤ ns
    < Z.of_nat (length (reward_matrix self)) →
  ∃ r self',
    reward_function ns true self = (Ok r, self') ∧
    getitem (reward_matrix self) ns = Ok r ∧
    collects self self' ∧
    (ns ∉ current_fruit self → self' = self) ∧
    (NoDup (current_fruit self) → ns ∉ current_fruit self') ∧
    (ns ∈ current_fruit self →
     getitem (reward_matrix self') ns = Ok (MOVEMENT_REWARD (rewards self))).
Proof.
  intros E Hns. destruct (getitem_in_range _ _ Hns) as [r Hr].
  pose proof (reward_function_collects self ns true E) as Hc.
  destruct (decide (ns ∈ current_fruit self)) as [Hin|Hn].
  - destruct (reward_function_fruit _ _ _ E Hr Hin)
      as (cl & ca & cm & k & Hrun & Hk & Hl & Ha & Hm & Hnot).
    rewrite Hrun in Hc |- *. cbn in Hc. eexists _, _. split; [done|].
    repeat split; try done.
    intros _. cbn. unfold getitem. rewrite length_insert, Hk.
    apply index_of_Some in Hk as [Hlt _].
    by rewrite list_lookup_insert_eq.
  - rewrite (reward_function_no_fruit _ _ _ Hr Hn) in Hc |- *.
    eexists _, _. split; [done|]. repeat split; try done.
Qed.

Lemma settle_returns self ns :
  episode_ok self →
  - Z.of_nat (length (reward_matrix self)) ≤ ns
    < Z.of_nat (length (reward_matrix self)) →
  ∃ r self',
    settle ns self = (Ok (ns, r, bool_decide (ns ∈ terminal_states self)), self') ∧
    reward_function ns true self = (Ok r, self').
Proof.
  intros E Hns.
  destruct (reward_function_returns _ _ E Hns) as (r & self' & Hrun & _ & Hc & _).
  exists r, self'. split; [|done].
  rewrite (bind_Ok _ _ _ _ _ Hrun).
  unfold bind. rewrite is_terminal_run. cbn.
  by rewrite (collects_terminal_states _ _ Hc).
Qed.

(** A terminal state short-circuits the move, whatever the action. *)
Lemma look_step_ahead_terminal self s a :
  s ∈ terminal_states self →
  look_step_ahead s a true self = settle s self.
Proof.
  intros Ht. unfold look_step_ahead.
  unfold bind at 1. unfold bind at 1. rewrite is_terminal_run.
  by rewrite bool_decide_eq_true_2.
Qed.

(** Otherwise a direction moves to the neighbour unless a wall is there. *)
Lemma look_step_ahead_move self s a care :
  layout_ok self → 0 ≤ s < size self → 0 ≤ a < 4 →
  care = false ∨ s ∉ terminal_states self →
  look_step_ahead s a care self = settle (blocked self s (neighbour self a s)) self.
Proof.
  intros L Hs Ha Hc.
  destruct (move_run _ _ _ L Hs Ha) as (f & Hf & Hrun).
  pose proof (neighbour_range self a s (lo_x _ L) Hs) as Hn.
  assert (Hwalk :
    (f <- lift (getitem action_state_to_next_state a) ;;
     next_state <- f s ;;
     w <- _is_wall next_state ;;
     ret (if negb w then next_state else s)) self
    = (Ok (blocked self s (neighbour self a s)), self)).
  { unfold bind, lift. rewrite Hf, Hrun, (_is_wall_run _ _ L Hn). cbn.
    unfold blocked. by case_bool_decide. }
  unfold look_step_ahead. destruct care.
  - destruct Hc as [?|Hc]; [done|].
    unfold bind at 1. unfold bind at 1. rewrite is_terminal_run.
    rewrite bool_decide_eq_false_2 by done. by rewrite Hwalk.
  - unfold bind at 1. by rewrite Hwalk.
Qed.

(** A negative index into the list of closures is a direction too. *)
Lemma look_step_ahead_move_negative self s a care :
  layout_ok self → 0 ≤ s < size self → -4 ≤ a < 0 →
  care = false ∨ s ∉ terminal_states self →
  look_step_ahead s a care self
  = settle (blocked self s (neighbour self (a + 4) s)) self.
Proof.
  intros L Hs Ha Hc.
  destruct (move_run_negative _ _ _ L Hs Ha) as (f & Hf & Hrun).
  pose proof (neighbour_range self (a + 4) s (lo_x _ L) Hs) as Hn.
  assert (Hwalk :
    (f <- lift (getitem action_state_to_next_state a) ;;
     next_state <- f s ;;
     w <- _is_wall next_state ;;
     ret (if negb w then next_state else s)) self
    = (Ok (blocked self s (neighbour self (a + 4) s)), self)).
  { unfold bind, lift. rewrite Hf, Hrun, (_is_wall_run _ _ L Hn). cbn.
    unfold blocked. by case_bool_decide. }
  unfold look_step_ahead. destruct care.
  - destruct Hc as [?|Hc]; [done|].
    unfold bind at 1. unfold bind at 1. rewrite is_terminal_run.
    rewrite bool_decide_eq_false_2 by done. by rewrite Hwalk.
  - unfold bind at 1. by rewrite Hwalk.
Qed.

(** Any other action is an [IndexError], before anything is touched. *)
Lemma look_step_ahead_bad_action self s a care :
  ¬ (-4 ≤ a < 4) →
  care = false ∨ s ∉ terminal_states self →
  look_step_ahead s a care self = (Raise IndexError, self).
Proof.
  intros Ha Hc. unfold look_step_ahead. destruct care.
  - destruct Hc as [?|Hc]; [done|].
    unfold bind at 1. unfold bind at 1. rewrite is_terminal_run.
    rewrite bool_decide_eq_false_2 by done.
    unfold bind, lift. by rewrite (move_out_of_range _ Ha).
  - unfold bind, lift. by rewrite (move_out_of_range _ Ha).
Qed.

Lemma blocked_range self s c :
  0 ≤ s < size self → 0 ≤ c < size self → 0 ≤ blocked self s c < size self.
Proof. intros Hs Hc. unfold blocked. by case_bool_decide. Qed.

Lemma blocked_not_wall self s c :
  s ∉ wall_indices self → blocked self s c ∉ wall_indices self.
Proof. intros Hs. unfold blocked. by case_bool_decide. Qed.

End Transition.
(** * Invariants *)

Section Preservation.

Lemma current_fruit_NoDup self :
  layout_ok self → episode_ok self → NoDup (current_fruit self).
Proof.
  intros L E. eapply sublist_NoDup; [apply (lo_fruit_nodup _ L)|].
  unfold current_fruit, fruit.
  repeat apply sublist_app; apply E.
Qed.

Lemma layout_ok_collects self self' :
  layout_ok self → collects self self' → layout_ok self'.
Proof.
  intros L (cl & ca & cm & m & -> & _ & _ & _ & Hlen).
  destruct L. constructor; try done.
  cbn. by rewrite Hlen.
Qed.

Lemma episode_ok_collects self self' :
  layout_ok self → episode_ok self → collects self self' → episode_ok self'.
Proof.
  intros L E (cl & ca & cm & m & -> & Hl & Ha & Hm & Hlen).
  destruct E as [El Ea Em Ed]. constructor; cbn.
  - by etrans.
  - by etrans.
  - by etrans.
  - intros Hd. destruct (Ed Hd) as [Ht Hn]. split; [done|].
    intros Hin. apply Hn. unfold current_fruit in *. cbn in Hin.
    eapply elem_of_sublist; [exact Hin|]. by repeat apply sublist_app.
Qed.

(** The four closures and the wall test only read the object. *)
Lemma closures_read_only f s self :
  f ∈ action_state_to_next_state → (f s self).2 = self.
Proof.
  unfold action_state_to_next_state. rewrite !elem_of_cons, elem_of_nil.
  intros [->|[->|[->|[->|[]]]]];
    unfold up, right, down, left, bind, gets, lift, ret;
    by destruct (getitem (world self) s).
Qed.

Lemma _is_wall_read_only s self : (_is_wall s self).2 = self.
Proof.
  unfold _is_wall, bind, gets, lift, ret. by destruct (getitem (wall_grid self) s).
Qed.

Lemma getitem_elem {A} (l : list A) i v : getitem l i = Ok v → v ∈ l.
Proof.
  unfold getitem. destruct (index_of _ _) as [k|]; [|discriminate].
  destruct (l !! k) as [w|] eqn:E; [|discriminate]. intros [= <-].
  by eapply list_elem_of_lookup_2.
Qed.

Local Abbreviation walk state action :=
  (f <- lift (getitem action_state_to_next_state action%Z) ;;
   next_state <- f state%Z ;;
   w <- _is_wall next_state ;;
   ret (if negb w then next_state else state%Z)).

Lemma walk_read_only self s a : ∃ res, walk s a self = (res, self).
Proof.
  unfold bind at 1. unfold lift.
  destruct (getitem action_state_to_next_state a) as [f|e] eqn:Hf; [|eauto].
  apply getitem_elem in Hf.
  pose proof (closures_read_only f s self Hf) as Hro.
  unfold bind at 1. destruct (f s self) as [[ns|e] self1]; cbn in Hro; subst self1;
    [|eauto].
  pose proof (_is_wall_read_only ns self) as Hw.
  unfold bind. destruct (_is_wall ns self) as [[w|e] self1]; cbn in Hw; subst self1;
    cbn; eauto.
Qed.

(** Every call of [look_step_ahead] either raises with the object
    untouched, or returns what the collecting reward read leaves. *)
Lemma look_step_ahead_cases self s a care :
  episode_ok self →
  (∃ e, look_step_ahead s a care self = (Raise e, self)) ∨
  (∃ ns r self',
      look_step_ahead s a care self
      = (Ok (ns, r, bool_decide (ns ∈ terminal_states self)), self') ∧
      reward_function ns true self = (Ok r, self') ∧
      - Z.of_nat (length (reward_matrix self)) ≤ ns
        < Z.of_nat (length (reward_matrix self))).
Proof.
  intros E.
  assert (Hsettle : ∀ ns,
    (∃ e, (reward <- reward_function ns true ;;
           d <- is_terminal ns ;; ret (ns, reward, d)) self = (Raise e, self)) ∨
    (∃ ns' r self',
        (reward <- reward_function ns true ;;
         d <- is_terminal ns ;; ret (ns, reward, d)) self
        = (Ok (ns', r, bool_decide (ns' ∈ terminal_states self)), self') ∧
        reward_function ns' true self = (Ok r, self') ∧
        - Z.of_nat (length (reward_matrix self)) ≤ ns'
          < Z.of_nat (length (reward_matrix self)))).
  { intros ns.
    destruct (decide (- Z.of_nat (length (reward_matrix self)) ≤ ns
                      < Z.of_nat (length (reward_matrix self)))) as [Hin|Hout].
    - right. destruct (settle_returns _ _ E Hin) as (r & self' & Hrun & Hr).
      exists ns, r, self'. done.
    - left. exists IndexError.
      by rewrite (bind_Raise _ _ _ _ _ (reward_function_out_of_range _ _ Hout)). }
  assert (Hmove : ∃ res,
    look_step_ahead s a care self
    = match res with
      | Ok ns => (reward <- reward_function ns true ;;
                  d <- is_terminal ns ;; ret (ns, reward, d)) self
      | Raise e => (Raise e, self)
      end).
  { destruct (walk_read_only self s a) as [res Hwalk].
    unfold look_step_ahead. destruct care.
    - unfold bind at 1. unfold bind at 1. rewrite is_terminal_run.
      case_bool_decide.
      + by exists (Ok s).
      + rewrite Hwalk. by exists res.
    - unfold bind at 1. rewrite Hwalk. by exists res. }
  destruct Hmove as [[ns|e] ->]; [apply Hsettle|eauto].
Qed.

End Preservation.
(** ** Frames: what a program may change *)

Section Frames.

Context (R : relation GridUniverseEnv) `{!PreOrder R}.

Lemma within_ret {A} (a : A) : within R (ret a).
Proof. intros self. reflexivity. Qed.

Lemma within_raise {A} e : within R (raise (A:=A) e).
Proof. intros self. reflexivity. Qed.

Lemma within_gets {A} (f : GridUniverseEnv → A) : within R (gets f).
Proof. intros self. reflexivity. Qed.

Lemma within_lift {A} (r : result A) : within R (lift r).
Proof. intros self. reflexivity. Qed.

Lemma within_modify f : (∀ self, R self (f self)) → within R (modify f).
Proof. intros H self. apply H. Qed.

Lemma within_bind {A B} (m : M A) (k : A → M B) :
  within R m → (∀ a, within R (k a)) → within R (bind m k).
Proof.
  intros Hm Hk self. unfold bind. specialize (Hm self).
  destruct (m self) as [[a|e] self']; cbn in *; [|done].
  etrans; [exact Hm|apply Hk].
Qed.

Lemma within_for {A} (xs : list A) (body : A → M unit) :
  (∀ x, within R (body x)) → within R (for_ xs body).
Proof.
  intros Hb. induction xs as [|x xs IH]; cbn; [apply within_ret|].
  apply within_bind; auto.
Qed.

End Frames.

Section MatrixFrame.

#[global] Instance matrix_only_preorder : PreOrder matrix_only.
Proof.
  split.
  - intros self. exists (reward_matrix self). by destruct self.
  - intros self1 self2 self3 (m & -> & Hm) (m' & -> & Hm').
    exists m'. split; [done|]. cbn in Hm'. congruence.
Qed.

Lemma reward_matrix_add_within v x : within matrix_only (reward_matrix_add v x).
Proof.
  intros self. unfold reward_matrix_add, bind, gets, lift, modify.
  destruct (getitem (reward_matrix self) x) as [old|e]; cbn; [|reflexivity].
  destruct (setitem (reward_matrix self) x (int64 (old + v))) as [m'|e] eqn:Hs; cbn;
    [|reflexivity].
  exists m'. split; [done|]. by apply setitem_Ok_range in Hs as [_ ?].
Qed.

Lemma reward_matrix_set_within v x : within matrix_only (reward_matrix_set v x).
Proof.
  intros self. unfold reward_matrix_set, bind, gets, lift, modify.
  destruct (setitem (reward_matrix self) x v) as [m'|e] eqn:Hs; cbn; [|reflexivity].
  exists m'. split; [done|]. by apply setitem_Ok_range in Hs as [_ ?].
Qed.

Lemma _generate_reward_matrix_within : within matrix_only _generate_reward_matrix.
Proof.
  unfold _generate_reward_matrix.
  repeat first
    [ exact matrix_only_preorder
    | apply reward_matrix_add_within
    | apply reward_matrix_set_within
    | apply within_gets
    | apply within_for; [ idtac | intros ? ]
    | apply within_bind; [ idtac | idtac | intros ? ] ].
Qed.

End MatrixFrame.
Section Calls.

Lemma layout_ok_same self self' :
  layout_ok self → same_layout self self' → layout_ok self'.
Proof.
  intros L (Hx & Hy & Hw & Hg & Hi & Hgs & Hls & Ha & Hl & Hm & Hs & Hlen).
  destruct L. constructor;
    unfold size, terminal_states, fruit in *;
    rewrite ?Hx, ?Hy, ?Hw, ?Hg, ?Hi, ?Hgs, ?Hls, ?Ha, ?Hl, ?Hm, ?Hs, ?Hlen; done.
Qed.

Lemma matrix_only_same_layout self self' :
  matrix_only self self' → same_layout self self'.
Proof. intros (m & -> & Hlen). by repeat split. Qed.

Lemma _step_raises self a e self1 :
  look_step_ahead (current_state self) a true
    (set_previous_state (current_state self) self) = (Raise e, self1) →
  _step a self = (Raise e, self1).
Proof.
  intros H. unfold _step.
  unfold bind at 1. unfold modify at 1. unfold bind at 1. unfold gets at 1.
  cbn [current_state set_previous_state].
  by rewrite (bind_Raise _ _ _ _ _ H).
Qed.

Lemma _step_returns self a ns r d self1 c :
  look_step_ahead (current_state self) a true
    (set_previous_state (current_state self) self) = (Ok (ns, r, d), self1) →
  getitem (world self1) ns = Ok c →
  _step a self
  = (Ok (ns, r, d),
     set_last_n_states (record_visit c (last_n_states self1))
       (set_done d (set_current_state ns self1))).
Proof.
  intros H Hc. unfold _step.
  unfold bind at 1. unfold modify at 1. unfold bind at 1. unfold gets at 1.
  cbn [current_state set_previous_state].
  rewrite (bind_Ok _ _ _ _ _ H).
  unfold bind, modify, gets, lift, ret. cbn. rewrite Hc. cbn.
  unfold record_visit. cbn. by case_bool_decide.
Qed.

Theorem step_preserves self a :
  layout_ok self → episode_ok self →
  layout_ok (exec (Step a) self) ∧ episode_ok (exec (Step a) self).
Proof.
  intros L E. unfold exec.
  set (self0 := set_previous_state (current_state self) self).
  assert (L0 : layout_ok self0) by (eapply layout_ok_same; [exact L|by repeat split]).
  assert (E0 : episode_ok self0) by (destruct E; by constructor).
  destruct (look_step_ahead_cases self0 (current_state self) a true E0)
    as [[e Hrun]|(ns & r & self1 & Hrun & Hr & Hns)].
  - by rewrite (_step_raises _ _ _ _ Hrun).
  - destruct (reward_function_returns _ _ E0 Hns)
      as (r' & self1' & Hr' & _ & Hc & _ & Hnot & _).
    rewrite Hr in Hr'. injection Hr' as <- <-.
    pose proof (layout_ok_collects _ _ L0 Hc) as L1.
    pose proof (episode_ok_collects _ _ L0 E0 Hc) as E1.
    destruct (getitem_in_range (world self1) ns) as [c Hw].
    { rewrite (world_length _ L1), <- (lo_matrix _ L1).
      destruct Hc as (? & ? & ? & ? & -> & _ & _ & _ & Hlen). cbn. by rewrite Hlen. }
    rewrite (_step_returns _ _ _ _ _ _ _ Hrun Hw). cbn. split.
    + eapply layout_ok_same; [exact L1|by repeat split].
    + destruct E1. constructor; try done. cbn.
      intros Hd. apply bool_decide_eq_true in Hd. split.
      * pose proof (collects_terminal_states _ _ Hc) as Ht.
        unfold terminal_states in Ht. rewrite Ht. exact Hd.
      * apply Hnot. by apply current_fruit_NoDup.
Qed.

Theorem look_step_ahead_preserves self s a care :
  layout_ok self → episode_ok self →
  layout_ok (exec (LookStepAhead s a care) self) ∧
  episode_ok (exec (LookStepAhead s a care) self).
Proof.
  intros L E. unfold exec.
  destruct (look_step_ahead_cases self s a care E)
    as [[e ->]|(ns & r & self1 & -> & Hr & Hns)]; [done|].
  pose proof (reward_function_collects self ns true E) as Hc.
  rewrite Hr in Hc. cbn in *. split.
  - by eapply layout_ok_collects.
  - by eapply episode_ok_collects.
Qed.

Theorem reward_function_preserves self ns c :
  layout_ok self → episode_ok self →
  layout_ok (exec (RewardFunction ns c) self) ∧
  episode_ok (exec (RewardFunction ns c) self).
Proof.
  intros L E. unfold exec.
  pose proof (reward_function_collects self ns c E) as Hc. split.
  - by eapply layout_ok_collects.
  - by eapply episode_ok_collects.
Qed.

(** [reset] either fails to draw a start state, or restores the
    working fruit lists and runs [_generate_reward_matrix]. *)
Lemma _reset_cases self pick :
  (_reset pick self).2 = set_done false self ∨
  ∃ s m,
    s ∈ initial_states self ∧ length m = length (reward_matrix self) ∧
    (_reset pick self).2
    = set_reward_matrix m
        (set_current_melons (melons self)
           (set_current_apples (apples self)
              (set_current_lemons (lemons self)
                 (set_last_n_states []
                    (set_previous_state s
                       (set_current_state s
                          (set_initial_state s (set_done false self)))))))).
Proof.
  destruct (_reset pick self) as [res self'] eqn:Hrun. cbn [snd]. revert Hrun.
  unfold _reset.
  unfold bind at 1. unfold modify at 1. unfold bind at 1. unfold gets at 1.
  unfold bind at 1. unfold lift at 1. cbn [initial_states set_done].
  destruct (choice pick (initial_states self)) as [s|e] eqn:Hs;
    [|intros [= <- <-]; by left].
  intros Hrun. right. exists s. apply choice_elem in Hs.
  revert Hrun. unfold bind, modify, gets. cbn -[_generate_reward_matrix].
  match goal with
  | |- context [_generate_reward_matrix ?e] =>
      pose proof (_generate_reward_matrix_within e) as Hm; set (self1 := e) in *
  end.
  destruct (_generate_reward_matrix self1) as [[[]|e] self2]; cbn in *;
    destruct Hm as (m & -> & Hlen); intros [= <- <-]; exists m; done.
Qed.

Theorem reset_preserves self pick :
  layout_ok self → episode_ok self →
  layout_ok (exec (Reset pick) self) ∧ episode_ok (exec (Reset pick) self).
Proof.
  intros L E. unfold exec.
  destruct (_reset_cases self pick) as [->|(s & m & Hs & Hlen & ->)].
  - split.
    + eapply layout_ok_same; [exact L|by repeat split].
    + destruct E. constructor; cbn; done.
  - split.
    + eapply layout_ok_same; [exact L|by repeat split].
    + constructor; cbn; done.
Qed.

Theorem exec_preserves c self :
  layout_ok self → episode_ok self →
  layout_ok (exec c self) ∧ episode_ok (exec c self).
Proof.
  destruct c.
  - apply step_preserves.
  - apply reset_preserves.
  - apply look_step_ahead_preserves.
  - apply reward_function_preserves.
Qed.

End Calls.
(** * Construction *)

Section Loops.

Lemma bind_modify {B} f (k : unit → M B) self :
  bind (modify f) k self = k tt (f self).
Proof. reflexivity. Qed.

Lemma bind_gets {A B} (f : GridUniverseEnv → A) (k : A → M B) self :
  bind (gets f) k self = k (f self) self.
Proof. reflexivity. Qed.

Lemma bind_lift {A B} (r : result A) (k : A → M B) self :
  bind (lift r) k self
  = match r with Ok a => k a self | Raise e => (Raise e, self) end.
Proof. by destruct r. Qed.

Lemma _generate_world_run self :
  _generate_world self
  = (if bool_decide (0 < y_max self ∧ 0 < x_max self)
     then Ok (fromiter_coords (x_max self) (y_max self))
     else Raise ValueError, self).
Proof.
  unfold _generate_world. rewrite !bind_gets.
  repeat case_bool_decide; try done; lia.
Qed.

(** The bounds check on the lava states of [__init__]. *)
Lemma lava_check_run (size : Z) (ls : list Z) self :
  for_ ls (λ t_s,
    if bool_decide (t_s < 0) || bool_decide (t_s > size - 1)
    then raise ValueError else ret tt) self
  = (if bool_decide (Forall (λ t, 0 ≤ t < size) ls)
     then Ok tt else Raise ValueError, self).
Proof.
  induction ls as [|t ls IH]; cbn [for_].
  - by rewrite bool_decide_eq_true_2.
  - unfold bind. destruct (bool_decide (t < 0) || bool_decide (t > size - 1)) eqn:Ht.
    + cbn. rewrite bool_decide_eq_false_2; [done|].
      intros Hf. apply Forall_cons in Hf as [Hf _].
      apply orb_true_iff in Ht as [Ht|Ht]; apply bool_decide_eq_true in Ht; lia.
    + cbn. rewrite IH. apply orb_false_iff in Ht as [H1 H2].
      apply bool_decide_eq_false in H1, H2.
      f_equal.
      rewrite (bool_decide_ext (Forall (λ t, 0 ≤ t < size) (t :: ls))
                 (Forall (λ t, 0 ≤ t < size) ls)); [done|].
      rewrite Forall_cons. intuition lia.
Qed.

Lemma mark_length g ws : length (mark g ws) = length g.
Proof.
  revert g. induction ws as [|w ws IH]; intros g; cbn; [done|].
  by rewrite IH, length_insert.
Qed.

Lemma mark_lookup g ws (i : Z) :
  0 ≤ i < Z.of_nat (length g) → Forall (λ w, 0 ≤ w) ws →
  mark g ws !! Z.to_nat i
  = if bool_decide (i ∈ ws) then Some 1 else g !! Z.to_nat i.
Proof.
  revert g. induction ws as [|w ws IH]; intros g Hi Hws; cbn.
  - rewrite bool_decide_eq_false_2; [done|]. apply not_elem_of_nil.
  - apply Forall_cons in Hws as [Hw Hws].
    fold (mark (<[Z.to_nat w:=1]> g) ws).
    rewrite IH by (rewrite ?length_insert; done).
    destruct (decide (i ∈ ws)) as [Hin|Hn].
    + rewrite !bool_decide_eq_true_2; [done| |done]. apply elem_of_cons; auto.
    + rewrite (bool_decide_eq_false_2 _ Hn).
      destruct (decide (i = w)) as [->|Hne].
      * rewrite bool_decide_eq_true_2 by (apply elem_of_cons; auto).
        apply list_lookup_insert_eq. lia.
      * rewrite bool_decide_eq_false_2
          by (rewrite elem_of_cons; intros [?|?]; done).
        apply list_lookup_insert_ne. lia.
Qed.

Lemma _generate_walls_None self : _generate_walls None self = (Ok tt, self).
Proof. reflexivity. Qed.

Lemma _generate_walls_returns ws self :
  length (wall_grid self) = length (world self) →
  Forall (λ w, 0 ≤ w < world_size self) ws →
  _generate_walls (Some ws) self
  = (Ok tt, set_wall_indices (wall_indices self ++ ws)
              (set_wall_grid (mark (wall_grid self) ws) self)).
Proof.
  intros Hlen Hws. unfold _generate_walls.
  revert self Hlen Hws. induction ws as [|w ws IH]; intros self Hlen Hws.
  - cbn. unfold ret. rewrite app_nil_r. by destruct self.
  - apply Forall_cons in Hws as [Hw Hws]. cbn [for_].
    unfold bind at 1. unfold bind at 1. unfold gets at 1.
    rewrite !bool_decide_eq_false_2 by lia. cbn [orb].
    unfold bind at 1. unfold gets at 1. unfold bind at 1. unfold lift at 1.
    destruct (setitem_in_range (wall_grid self) w 1) as (k & Hk & ->).
    { unfold world_size in Hw. lia. }
    rewrite index_of_nonneg in Hk by (unfold world_size in Hw; lia).
    injection Hk as <-.
    rewrite !bind_modify. unfold modify.
    rewrite IH.
    + cbn. rewrite <- app_assoc. done.
    + cbn. by rewrite length_insert.
    + done.
Qed.

Lemma _generate_walls_Ok_inv ws self self' :
  _generate_walls (Some ws) self = (Ok tt, self') →
  Forall (λ w, 0 ≤ w < world_size self) ws.
Proof.
  unfold _generate_walls.
  revert self self'. induction ws as [|w ws IH]; intros self self' H;
    [constructor|].
  cbn [for_] in H. apply bind_Ok_inv in H as ([] & self1 & Hb & H).
  rewrite bind_gets in Hb.
  destruct (bool_decide (w < 0) || bool_decide (w > world_size self - 1)) eqn:Hw;
    [discriminate|].
  apply orb_false_iff in Hw as [H1 H2]. apply bool_decide_eq_false in H1, H2.
  rewrite bind_gets, bind_lift in Hb.
  destruct (setitem (wall_grid self) w 1) as [g'|]; [|discriminate].
  rewrite !bind_modify in Hb. injection Hb as <-.
  constructor; [lia|]. exact (IH _ _ H).
Qed.

End Loops.
Section MatrixLoops.

Lemma reward_matrix_add_run v x self :
  reward_matrix_add v x self
  = match index_of (length (reward_matrix self)) x with
    | Some k =>
        (Ok tt, set_reward_matrix (alter (λ old, int64 (old + v)) k (reward_matrix self)) self)
    | None => (Raise IndexError, self)
    end.
Proof.
  unfold reward_matrix_add, bind, gets, lift, modify, getitem, setitem.
  destruct (index_of (length (reward_matrix self)) x) as [k|] eqn:Hk; [|done].
  apply index_of_Some in Hk as [Hlt _].
  destruct (lookup_lt_is_Some_2 _ _ Hlt) as [old Hold]. rewrite Hold.
  do 2 f_equal.
  apply list_eq. intros i. destruct (decide (i = k)) as [->|Hne].
  - rewrite list_lookup_insert_eq, list_lookup_alter_eq by done. by rewrite Hold.
  - by rewrite list_lookup_insert_ne, list_lookup_alter_ne.
Qed.

Lemma reward_matrix_set_run v x self :
  reward_matrix_set v x self
  = match index_of (length (reward_matrix self)) x with
    | Some k =>
        (Ok tt, set_reward_matrix (alter (λ _, v) k (reward_matrix self)) self)
    | None => (Raise IndexError, self)
    end.
Proof.
  unfold reward_matrix_set, bind, gets, lift, modify, setitem.
  destruct (index_of (length (reward_matrix self)) x) as [k|] eqn:Hk; [|done].
  apply index_of_Some in Hk as [Hlt _].
  destruct (lookup_lt_is_Some_2 _ _ Hlt) as [old Hold].
  do 2 f_equal.
  apply list_eq. intros i. destruct (decide (i = k)) as [->|Hne].
  - rewrite list_lookup_insert_eq, list_lookup_alter_eq by done. by rewrite Hold.
  - by rewrite list_lookup_insert_ne, list_lookup_alter_ne.
Qed.

Context (body : Z → M unit) (f : Z → Z).
Hypothesis body_run : ∀ x self,
  body x self
  = match index_of (length (reward_matrix self)) x with
    | Some k => (Ok tt, set_reward_matrix (alter f k (reward_matrix self)) self)
    | None => (Raise IndexError, self)
    end.

Lemma for_matrix_Ok_inv xs self self' :
  for_ xs body self = (Ok tt, self') →
  Forall (λ x, - Z.of_nat (length (reward_matrix self)) ≤ x
               < Z.of_nat (length (reward_matrix self))) xs.
Proof.
  revert self. induction xs as [|x xs IH]; intros self H; [constructor|].
  cbn [for_] in H. apply bind_Ok_inv in H as ([] & self1 & Hb & H).
  rewrite body_run in Hb.
  destruct (index_of (length (reward_matrix self)) x) as [k|] eqn:Hk; [|discriminate].
  injection Hb as <-. apply index_of_Some in Hk as [_ Hx].
  constructor; [done|].
  apply IH in H. cbn in H. by rewrite length_alter in H.
Qed.

Lemma for_matrix_returns xs self :
  Forall (λ x, - Z.of_nat (length (reward_matrix self)) ≤ x
               < Z.of_nat (length (reward_matrix self))) xs →
  ∃ m, for_ xs body self = (Ok tt, set_reward_matrix m self) ∧
       length m = length (reward_matrix self).
Proof.
  revert self. induction xs as [|x xs IH]; intros self H.
  - exists (reward_matrix self). split; [by destruct self|done].
  - apply Forall_cons in H as [Hx H]. cbn [for_].
    destruct (index_of_is_Some _ _ Hx) as (k & Hk & _).
    pose proof (body_run x self) as Hb. rewrite Hk in Hb.
    rewrite (bind_Ok _ _ _ _ _ Hb).
    destruct (IH (set_reward_matrix (alter f k (reward_matrix self)) self))
      as (m & -> & Hlen).
    { cbn. by rewrite length_alter. }
    exists m. split; [done|]. cbn in Hlen. by rewrite length_alter in Hlen.
Qed.

End MatrixLoops.

Section Check.

Lemma dup_check (l : list Z) :
  bool_decide (length l ≠ length (set l)) = false ↔ NoDup l.
Proof.
  rewrite bool_decide_eq_false, <- set_length_NoDup.
  split.
  - intros H. destruct (decide (length (set l) = length l)) as [|Hne]; [done|].
    exfalso. apply H. intros Heq. by apply Hne.
  - intros H Hne. by apply Hne.
Qed.

Lemma inter_check (l k : list Z) :
  bool_decide (0 < length (inter (set l) (set k)))%nat = false ↔
  Forall (λ x, x ∉ k) l.
Proof.
  rewrite bool_decide_eq_false, inter_nonempty, Forall_forall. split.
  - intros H x Hl Hk. apply H. eauto.
  - intros H (x & Hl & Hk). by apply (H x).
Qed.

Lemma fruit_check (l : list Z) :
  bool_decide (length (set l) ≠ length l) && bool_decide (0 < length l)%nat = false
  ↔ NoDup l.
Proof.
  rewrite <- set_length_NoDup. split.
  - intros H. apply andb_false_iff in H as [H|H].
    + apply bool_decide_eq_false in H.
      destruct (decide (length (set l) = length l)); done.
    + apply bool_decide_eq_false in H. destruct l; [done|cbn in H; lia].
  - intros H. apply andb_false_iff. left. apply bool_decide_eq_false_2.
    intros Hne. by apply Hne.
Qed.

Lemma _check_specific_collisions_run self :
  _check_specific_collisions self
  = (if bool_decide (collision_free self) then Ok tt else Raise ValueError, self).
Proof.
  unfold _check_specific_collisions. rewrite bind_gets. unfold id.
  unfold collision_free, current_fruit.
  repeat match goal with
  | |- context [bool_decide (length ?l ≠ length (set ?l))] =>
      let H := fresh "H" in
      destruct (bool_decide (length l ≠ length (set l))) eqn:H;
      [ rewrite bool_decide_eq_false_2;
        [done| rewrite <- (dup_check l), H; intros ?; destruct_and!; done]
      | apply dup_check in H ]
  | |- context [bool_decide (0 < length (inter (set ?l) (set ?k)))%nat] =>
      let H := fresh "H" in
      destruct (bool_decide (0 < length (inter (set l) (set k)))%nat) eqn:H;
      [ rewrite bool_decide_eq_false_2;
        [done| rewrite <- (inter_check l k), H; intros ?; destruct_and!; done]
      | apply inter_check in H ]
  end.
  cbn zeta.
  match goal with
  | |- context [bool_decide (length (set ?l) ≠ length ?l) && _] =>
      destruct (bool_decide (length (set l) ≠ length l)
                && bool_decide (0 < length l)%nat) eqn:Hf;
      [ rewrite bool_decide_eq_false_2;
        [done| rewrite <- (fruit_check l), Hf; intros ?; destruct_and!; done]
      | apply fruit_check in Hf ]
  end.
  match goal with
  | |- context [bool_decide (0 < length (inter (set ?l) (set ?k)))%nat] =>
      destruct (bool_decide (0 < length (inter (set l) (set k)))%nat) eqn:Hw;
      [ rewrite bool_decide_eq_false_2;
        [done| rewrite <- (inter_check l k), Hw; intros ?; destruct_and!; done]
      | apply inter_check in Hw ]
  end.
  unfold ret. rewrite bool_decide_eq_true_2; [done|]. by repeat split.
Qed.

End Check.
Section GenerateRewardMatrix.

Local Abbreviation valid self :=
  (λ x : Z, - Z.of_nat (length (reward_matrix self)) ≤ x
            < Z.of_nat (length (reward_matrix self))).

Lemma for_add_Ok_inv v xs self self' :
  for_ xs (reward_matrix_add v) self = (Ok tt, self') →
  Forall (valid self) xs ∧ matrix_only self self'.
Proof.
  intros H. split.
  - eapply for_matrix_Ok_inv; [apply reward_matrix_add_run|exact H].
  - pose proof (within_for matrix_only xs (reward_matrix_add v)
                  (reward_matrix_add_within v) self) as Hw.
    by rewrite H in Hw.
Qed.

Lemma for_set_Ok_inv v xs self self' :
  for_ xs (reward_matrix_set v) self = (Ok tt, self') →
  Forall (valid self) xs ∧ matrix_only self self'.
Proof.
  intros H. split.
  - eapply for_matrix_Ok_inv; [apply reward_matrix_set_run|exact H].
  - pose proof (within_for matrix_only xs (reward_matrix_set v)
                  (reward_matrix_set_within v) self) as Hw.
    by rewrite H in Hw.
Qed.

Lemma _generate_reward_matrix_Ok_inv self self' :
  _generate_reward_matrix self = (Ok tt, self') →
  Forall (valid self) (current_fruit self ++ terminal_states self) ∧
  matrix_only self self'.
Proof.
  intros H. split.
  2:{ pose proof (_generate_reward_matrix_within self) as Hw. by rewrite H in Hw. }
  revert H. unfold _generate_reward_matrix. rewrite !bind_gets. intros H.
  apply bind_Ok_inv in H as ([] & s1 & H1 & H). rewrite bind_gets in H.
  apply for_add_Ok_inv in H1 as (V1 & m1 & -> & L1).
  apply bind_Ok_inv in H as ([] & s2 & H2 & H). rewrite bind_gets in H.
  apply for_add_Ok_inv in H2 as (V2 & m2 & -> & L2).
  apply bind_Ok_inv in H as ([] & s3 & H3 & H). rewrite bind_gets in H.
  apply for_add_Ok_inv in H3 as (V3 & m3 & -> & L3).
  apply bind_Ok_inv in H as ([] & s4 & H4 & H). rewrite bind_gets in H.
  apply for_set_Ok_inv in H4 as (V4 & m4 & -> & L4).
  apply for_set_Ok_inv in H as (V5 & _).
  cbn in *. unfold current_fruit, terminal_states. rewrite !Forall_app.
  repeat split;
    [ exact V1
    | eapply Forall_impl; [exact V2|cbn; intros; lia]
    | eapply Forall_impl; [exact V3|cbn; intros; lia]
    | eapply Forall_impl; [exact V5|cbn; intros; lia]
    | eapply Forall_impl; [exact V4|cbn; intros; lia] ].
Qed.

Lemma _generate_reward_matrix_returns self :
  Forall (valid self) (current_fruit self ++ terminal_states self) →
  ∃ m, _generate_reward_matrix self = (Ok tt, set_reward_matrix m self) ∧
       length m = length (reward_matrix self).
Proof.
  unfold current_fruit, terminal_states. rewrite !Forall_app.
  intros [(Va & Vl & Vm) (Vls & Vgs)].
  unfold _generate_reward_matrix. rewrite !bind_gets.
  destruct (for_matrix_returns _ _ (reward_matrix_add_run (APPLE_REWARD (rewards self))) (current_apples self) self Va)
    as (m1 & H1 & L1).
  rewrite (bind_Ok _ _ _ _ _ H1), bind_gets. cbn [current_lemons set_reward_matrix].
  destruct (for_matrix_returns _ _ (reward_matrix_add_run (LEMON_REWARD (rewards self))) (current_lemons self)
              (set_reward_matrix m1 self)) as (m2 & H2 & L2).
  { cbn. by rewrite L1. }
  rewrite (bind_Ok _ _ _ _ _ H2), bind_gets. cbn [current_melons set_reward_matrix].
  destruct (for_matrix_returns _ _ (reward_matrix_add_run (MELON_REWARD (rewards self))) (current_melons self)
              (set_reward_matrix m2 (set_reward_matrix m1 self))) as (m3 & H3 & L3).
  { cbn in *. by rewrite L2, L1. }
  rewrite (bind_Ok _ _ _ _ _ H3), bind_gets. cbn [goal_states set_reward_matrix].
  destruct (for_matrix_returns _ _ (reward_matrix_set_run (TERMINAL_GOAL_REWARD (rewards self))) (goal_states self)
              (set_reward_matrix m3 (set_reward_matrix m2 (set_reward_matrix m1 self))))
    as (m4 & H4 & L4).
  { cbn in *. by rewrite L3, L2, L1. }
  rewrite (bind_Ok _ _ _ _ _ H4), bind_gets. cbn [lava_states set_reward_matrix].
  destruct (for_matrix_returns _ _ (reward_matrix_set_run (LAVA_REWARD (rewards self))) (lava_states self)
              (set_reward_matrix m4 (set_reward_matrix m3
                 (set_reward_matrix m2 (set_reward_matrix m1 self)))))
    as (m5 & H5 & L5).
  { cbn in *. by rewrite L4, L3, L2, L1. }
  exists m5. split; [by rewrite H5|]. cbn in *. congruence.
Qed.

End GenerateRewardMatrix.
(** * The layout loader *)

Section Positions.

Lemma positions_app c l1 l2 i :
  positions c (l1 ++ l2) i
  = positions c l1 i ++ positions c l2 (i + Z.of_nat (length l1)).
Proof.
  revert i. induction l1 as [|d l1 IH]; intros i; cbn [positions app length].
  - by rewrite Z.add_0_r.
  - rewrite IH, <- app_assoc. do 3 f_equal. lia.
Qed.

(** Row-major numbering: id [i + j] holds [c] exactly when the [j]-th
    cell read is [c]. *)
Lemma elem_of_positions c cs i x :
  x ∈ positions c cs i ↔ ∃ j : nat, cs !! j = Some c ∧ x = i + Z.of_nat j.
Proof.
  revert i. induction cs as [|d cs IH]; intros i; cbn [positions].
  - rewrite elem_of_nil. split; [done|]. by intros (j & ? & _).
  - rewrite elem_of_app, IH. split.
    + intros [Hx|(j & Hj & ->)].
      * destruct (Ascii.eqb d c) eqn:E; [|by apply elem_of_nil in Hx].
        apply Ascii.eqb_eq in E as ->. apply list_elem_of_singleton in Hx as ->.
        exists 0%nat. split; [done|lia].
      * exists (S j). split; [done|lia].
    + intros ([|j] & Hj & ->).
      * left. injection Hj as ->. rewrite Ascii.eqb_refl.
        apply list_elem_of_singleton. lia.
      * right. exists j. split; [done|lia].
Qed.

Lemma positions_bound c cs i x :
  x ∈ positions c cs i → i ≤ x < i + Z.of_nat (length cs).
Proof.
  intros (j & Hj & ->)%elem_of_positions. apply lookup_lt_Some in Hj. lia.
Qed.

Lemma positions_nil_iff c cs i : positions c cs i = [] ↔ c ∉ cs.
Proof.
  split.
  - intros H (j & Hj)%list_elem_of_lookup_1.
    assert (Hx : i + Z.of_nat j ∈ positions c cs i)
      by (apply elem_of_positions; eauto).
    rewrite H in Hx. by apply elem_of_nil in Hx.
  - intros H. destruct (positions c cs i) as [|x l] eqn:E; [done|]. exfalso.
    assert (Hx : x ∈ positions c cs i) by (rewrite E; apply elem_of_cons; auto).
    apply elem_of_positions in Hx as (j & Hj & _).
    apply H. by eapply list_elem_of_lookup_2.
Qed.

Lemma place_app l1 l2 i self :
  place (l1 ++ l2) i self = place l2 (i + Z.of_nat (length l1)) (place l1 i self).
Proof.
  unfold place. cbn. rewrite !positions_app, !app_assoc. done.
Qed.

Lemma place_nil i self : place [] i self = self.
Proof. unfold place. cbn. rewrite !app_nil_r. by destruct self. Qed.

Lemma string_length_list (s : string) :
  length (String.list_ascii_of_string s) = String.length s.
Proof. induction s as [|c s IH]; cbn; [done|]. by rewrite IH. Qed.

End Positions.

Section Scan.

Lemma place_char_run char i ws self :
  place_char char i ws self
  = if legal char then (Ok (ws ++ positions "#" [char] i), place [char] i self)
    else (Raise ValueError, self).
Proof.
  unfold place_char, legal.
  repeat match goal with
  | |- context [Ascii.eqb char ?c] =>
      let E := fresh "E" in
      destruct (Ascii.eqb char c) eqn:E;
      [ apply Ascii.eqb_eq in E; subst char;
        rewrite bool_decide_eq_true_2 by (repeat constructor);
        unfold place; cbn; unfold bind, modify, ret; cbn;
        rewrite ?app_nil_r; by destruct self
      | apply Ascii.eqb_neq in E ]
  end.
  rewrite bool_decide_eq_false_2; [done|].
  rewrite !elem_of_cons, elem_of_nil. intuition congruence.
Qed.

Lemma scan_line_returns line i ws self :
  forallb legal line = true →
  scan_line line i ws self
  = (Ok (i + Z.of_nat (length line), ws ++ positions "#" line i), place line i self).
Proof.
  revert i ws self. induction line as [|char line IH]; intros i ws self Hl.
  - cbn. unfold ret. by rewrite Z.add_0_r, app_nil_r, place_nil.
  - cbn [forallb] in Hl. apply andb_true_iff in Hl as [Hc Hl].
    cbn [scan_line]. unfold bind. rewrite place_char_run, Hc.
    rewrite (IH _ _ _ Hl).
    change (char :: line) with ([char] ++ line).
    rewrite place_app, positions_app, app_assoc. cbn [length].
    do 3 f_equal. rewrite length_app. cbn. lia.
Qed.

Lemma scan_line_raises line i ws self :
  forallb legal line = false →
  ∃ self', scan_line line i ws self = (Raise ValueError, self').
Proof.
  revert i ws self. induction line as [|char line IH]; intros i ws self Hl;
    [done|].
  cbn [forallb] in Hl. cbn [scan_line]. unfold bind. rewrite place_char_run.
  destruct (legal char); [|eauto]. cbn in Hl. apply (IH _ _ _ Hl).
Qed.

Lemma cells_cons line lines :
  cells (line :: lines) = String.list_ascii_of_string line ++ cells lines.
Proof. reflexivity. Qed.

Lemma well_formed_rows_cons width line lines :
  well_formed_rows width (line :: lines)
  = bool_decide (String.length line = width)
    && forallb legal (String.list_ascii_of_string line)
    && well_formed_rows width lines.
Proof.
  unfold well_formed_rows. rewrite cells_cons, forallb_app. cbn [forallb].
  destruct (bool_decide _), (forallb legal (String.list_ascii_of_string line)),
    (forallb _ lines); done.
Qed.

Lemma scan_lines_returns lines width i ws self :
  well_formed_rows width lines = true →
  scan_lines lines width i ws self
  = (Ok (i + Z.of_nat (length (cells lines)), ws ++ positions "#" (cells lines) i),
     place (cells lines) i self).
Proof.
  revert i ws self. induction lines as [|line lines IH]; intros i ws self Hw.
  - cbn. unfold ret. by rewrite Z.add_0_r, app_nil_r, place_nil.
  - rewrite well_formed_rows_cons in Hw.
    apply andb_true_iff in Hw as [Hw Hr]. apply andb_true_iff in Hw as [Hlen Hl].
    apply bool_decide_eq_true in Hlen.
    cbn [scan_lines]. rewrite bool_decide_eq_false_2 by (intros H; by apply H).
    unfold bind. rewrite (scan_line_returns _ _ _ _ Hl). cbn [fst snd].
    rewrite (IH _ _ _ Hr), cells_cons.
    rewrite place_app, positions_app, app_assoc, length_app.
    do 3 f_equal. lia.
Qed.

Lemma scan_lines_raises lines width i ws self :
  well_formed_rows width lines = false →
  ∃ self', scan_lines lines width i ws self = (Raise ValueError, self').
Proof.
  revert i ws self. induction lines as [|line lines IH]; intros i ws self Hw;
    [done|].
  rewrite well_formed_rows_cons in Hw. cbn [scan_lines].
  destruct (decide (String.length line = width)) as [Hlen|Hlen].
  2:{ rewrite bool_decide_eq_true_2 by done. unfold raise. eauto. }
  rewrite bool_decide_eq_false_2 by (intros H; by apply H).
  rewrite bool_decide_eq_true_2 in Hw by done.
  cbn [andb] in Hw. unfold bind.
  destruct (forallb legal (String.list_ascii_of_string line)) eqn:Hl.
  - rewrite (scan_line_returns _ _ _ _ Hl). cbn [fst snd]. apply (IH _ _ _ Hw).
  - destruct (scan_line_raises _ i ws self Hl) as [self' ->]. eauto.
Qed.

Lemma cells_length width lines :
  forallb (λ line, bool_decide (String.length line = width)) lines = true →
  length (cells lines) = (length lines * width)%nat.
Proof.
  induction lines as [|line lines IH]; [done|]. cbn [forallb].
  intros [Hlen Hr]%andb_true_iff. apply bool_decide_eq_true in Hlen.
  rewrite cells_cons, length_app, string_length_list, (IH Hr). cbn. lia.
Qed.

End Scan.
Section ResetReturns.

(** On a well-formed registry [reset] returns. *)
Lemma _reset_returns self pick :
  initial_states self ≠ [] →
  Forall (λ x, - Z.of_nat (length (reward_matrix self)) ≤ x
               < Z.of_nat (length (reward_matrix self)))
    (fruit self ++ terminal_states self) →
  ∃ s m,
    s ∈ initial_states self ∧ length m = length (reward_matrix self) ∧
    _reset pick self
    = (Ok s,
       set_reward_matrix m
         (set_current_melons (melons self)
            (set_current_apples (apples self)
               (set_current_lemons (lemons self)
                  (set_last_n_states []
                     (set_previous_state s
                        (set_current_state s
                           (set_initial_state s (set_done false self))))))))).
Proof.
  intros Hs Hv. destruct (choice_nonempty pick _ Hs) as [s Hc].
  exists s. unfold _reset.
  rewrite bind_modify, bind_gets, bind_lift. cbn [initial_states set_done].
  rewrite Hc. rewrite !bind_modify.
  match goal with
  | |- context [bind _generate_reward_matrix _ ?e] => set (self1 := e)
  end.
  destruct (_generate_reward_matrix_returns self1) as (m & Hm & Hlen).
  { exact Hv. }
  exists m. split; [by eapply choice_elem|]. split; [exact Hlen|].
  by rewrite (bind_Ok _ _ _ _ _ Hm).
Qed.

End ResetReturns.
(** Projections of updated objects. *)
Ltac env_simpl :=
  cbn [x_max y_max world initial_states initial_state previous_state
       current_state goal_states lava_states lemons apples melons current_lemons
       current_apples current_melons wall_indices wall_grid reward_matrix
       last_n_states done rewards set_x_max set_y_max set_world
       set_initial_states set_initial_state set_previous_state set_current_state
       set_goal_states set_lava_states set_lemons set_apples set_melons
       set_current_lemons set_current_apples set_current_melons set_wall_indices
       set_wall_grid set_reward_matrix set_last_n_states set_done] in *.

Section Loader.

(** The registry emptied by the first lines of the loader. *)
Local Abbreviation cleared self :=
  (set_melons [] (set_apples [] (set_lemons [] (set_initial_states []
     (set_lava_states [] (set_initial_states [] (set_goal_states [] self))))))).

Lemma loader_empty pick self :
  _create_custom_world_from_text [] pick self = (Raise IndexError, cleared self).
Proof. reflexivity. Qed.

Lemma loader_raises_rows first rest pick self :
  well_formed_rows (String.length first) (first :: rest) = false →
  ∃ self', _create_custom_world_from_text (first :: rest) pick self
           = (Raise ValueError, self').
Proof.
  intros Hw. unfold _create_custom_world_from_text. rewrite !bind_modify.
  match goal with
  | |- context [bind (scan_lines _ _ _ _) _ ?e] =>
      destruct (scan_lines_raises (first :: rest) (String.length first) 0 [] e Hw)
        as [self' Hs]
  end.
  rewrite (bind_Raise _ _ _ _ _ Hs). eauto.
Qed.

Lemma loader_raises_no_start first rest pick self :
  well_formed_rows (String.length first) (first :: rest) = true →
  "x"%char ∉ cells (first :: rest) →
  ∃ self', _create_custom_world_from_text (first :: rest) pick self
           = (Raise ValueError, self').
Proof.
  intros Hw Hx. unfold _create_custom_world_from_text. rewrite !bind_modify.
  rewrite (bind_Ok _ _ _ _ _ (scan_lines_returns _ _ 0 [] _ Hw)).
  rewrite bind_gets. case_bool_decide as Hlen; [unfold raise; eauto|].
  exfalso. apply Hlen. unfold place. env_simpl.
  by rewrite (proj2 (positions_nil_iff _ _ 0) Hx).
Qed.

Lemma loader_raises_no_goal first rest pick self :
  well_formed_rows (String.length first) (first :: rest) = true →
  "G"%char ∉ cells (first :: rest) →
  ∃ self', _create_custom_world_from_text (first :: rest) pick self
           = (Raise ValueError, self').
Proof.
  intros Hw Hg. unfold _create_custom_world_from_text. rewrite !bind_modify.
  rewrite (bind_Ok _ _ _ _ _ (scan_lines_returns _ _ 0 [] _ Hw)).
  rewrite bind_gets. case_bool_decide; [unfold raise; eauto|].
  rewrite bind_gets. case_bool_decide as Hlen; [unfold raise; eauto|].
  exfalso. apply Hlen. unfold place. env_simpl.
  by rewrite (proj2 (positions_nil_iff _ _ 0) Hg).
Qed.

Lemma loader_returns first rest pick self :
  well_formed_rows (String.length first) (first :: rest) = true →
  "x"%char ∈ cells (first :: rest) →
  "G"%char ∈ cells (first :: rest) →
  ∃ self', _create_custom_world_from_text (first :: rest) pick self = (Ok tt, self') ∧
           loaded (String.length first) (first :: rest) self' ∧
           rewards self' = rewards self.
Proof.
  intros Hw Hx Hg.
  assert (Hcells : length (cells (first :: rest))
                   = (length (first :: rest) * String.length first)%nat).
  { apply cells_length. unfold well_formed_rows in Hw.
    by apply andb_true_iff in Hw as [? _]. }
  assert (Hwidth : (0 < String.length first)%nat).
  { apply list_elem_of_lookup_1 in Hx as [j Hj]. apply lookup_lt_Some in Hj.
    destruct (String.length first); [|lia]. rewrite Hcells in Hj. lia. }
  assert (Hstarts : positions "x" (cells (first :: rest)) 0 ≠ [])
    by (intros H; by apply positions_nil_iff in H).
  assert (Hgoals : positions "G" (cells (first :: rest)) 0 ≠ [])
    by (intros H; by apply positions_nil_iff in H).
  unfold _create_custom_world_from_text. rewrite !bind_modify.
  rewrite (bind_Ok _ _ _ _ _ (scan_lines_returns _ _ 0 [] _ Hw)).
  set (cs := cells (first :: rest)) in *.
  rewrite bind_gets. unfold place at 1. env_simpl. cbn [app fst snd].
  rewrite bool_decide_eq_false_2 by (by destruct (positions "x" cs 0)).
  rewrite bind_gets. unfold place at 1. env_simpl. cbn [app fst snd].
  rewrite bool_decide_eq_false_2 by (by destruct (positions "G" cs 0)).
  rewrite !bind_modify.
  unfold bind at 1. rewrite _generate_world_run. env_simpl.
  rewrite bool_decide_eq_true_2 by (cbn [length]; lia).
  rewrite !bind_modify. env_simpl.
  set (w := fromiter_coords (Z.of_nat (String.length first))
              (Z.of_nat (length (first :: rest)))) in *.
  assert (Hsize : length w = length cs).
  { apply Nat2Z.inj. unfold w. rewrite fromiter_coords_length by lia.
    rewrite Hcells. lia. }
  assert (Hbound : ∀ c, Forall (λ x, 0 ≤ x < Z.of_nat (length w)) (positions c cs 0)).
  { intros c. apply Forall_forall. intros x Hin%positions_bound. lia. }
  match goal with
  | |- context [bind (_generate_walls (Some ?ws)) _ ?e] =>
      rewrite (bind_Ok _ _ _ _ _ (_generate_walls_returns ws e
                 ltac:(apply length_replicate) (Hbound _)))
  end.
  rewrite bind_modify. env_simpl. cbn [app].
  match goal with
  | |- context [bind (_reset pick) _ ?e] =>
      destruct (_reset_returns e pick) as (s & m & Hs & Hlen & Hr)
  end.
  { unfold place. by env_simpl. }
  { unfold fruit, terminal_states, place. env_simpl. cbn [app].
    rewrite length_replicate. rewrite !Forall_app.
    repeat split; (eapply Forall_impl; [apply Hbound|]; cbn; intros; lia). }
  assert (Hs' : s ∈ positions "x" cs 0) by exact Hs. clear Hs.
  rewrite (bind_Ok _ _ _ _ _ Hr). unfold ret.
  eexists. split; [reflexivity|].
  unfold place in *. env_simpl. cbn [app] in *. rewrite length_replicate in Hlen.
  split; [|done].
  constructor; env_simpl; try done.
Qed.


End Loader.
Section LoaderInversion.

Lemma loader_Ok_inv lines pick self self' :
  _create_custom_world_from_text lines pick self = (Ok tt, self') →
  ∃ first rest,
    lines = first :: rest ∧
    well_formed_rows (String.length first) lines = true ∧
    "x"%char ∈ cells lines ∧ "G"%char ∈ cells lines ∧
    loaded (String.length first) lines self' ∧
    rewards self' = rewards self.
Proof.
  intros H. destruct lines as [|first rest]; [by rewrite loader_empty in H|].
  exists first, rest. split; [done|].
  destruct (well_formed_rows (String.length first) (first :: rest)) eqn:Hw.
  2:{ destruct (loader_raises_rows _ _ pick self Hw) as [? Hr]. congruence. }
  destruct (decide ("x"%char ∈ cells (first :: rest))) as [Hx|Hx].
  2:{ destruct (loader_raises_no_start _ _ pick self Hw Hx) as [? Hr]. congruence. }
  destruct (decide ("G"%char ∈ cells (first :: rest))) as [Hg|Hg].
  2:{ destruct (loader_raises_no_goal _ _ pick self Hw Hg) as [? Hr]. congruence. }
  destruct (loader_returns _ _ pick self Hw Hx Hg) as (self'' & Hr & Hl & Hc).
  rewrite Hr in H. injection H as <-. done.
Qed.

Lemma mark_zeros_lookup n ws (i : Z) :
  0 ≤ i < Z.of_nat n → Forall (λ w, 0 ≤ w) ws →
  mark (replicate n 0) ws !! Z.to_nat i
  = Some (if bool_decide (i ∈ ws) then 1 else 0).
Proof.
  intros Hi Hws. rewrite mark_lookup by (rewrite ?length_replicate; done).
  case_bool_decide; [done|]. apply lookup_replicate_2. lia.
Qed.

Lemma loaded_placed width lines self :
  loaded width lines self → initial_states self ≠ [] → placed self.
Proof.
  intros Ld Hs.
  assert (Hcs : Z.of_nat (length (cells lines)) = size self).
  { unfold size. rewrite (ld_cells _ _ _ Ld), (ld_x _ _ _ Ld), (ld_y _ _ _ Ld). lia. }
  assert (Hb : ∀ c, Forall (λ x, 0 ≤ x < size self) (positions c (cells lines) 0)).
  { intros c. apply Forall_forall. intros x Hin%positions_bound. lia. }
  assert (Hx : 0 < x_max self ∧ 0 < y_max self).
  { rewrite (ld_starts _ _ _ Ld) in Hs.
    destruct (positions "x" (cells lines) 0) as [|x l] eqn:E; [done|].
    pose proof (Hb "x"%char) as Hf. rewrite E in Hf.
    apply Forall_cons in Hf as [Hf _]. unfold size in Hf.
    rewrite (ld_x _ _ _ Ld), (ld_y _ _ _ Ld) in *. nia. }
  assert (Hlen : Z.of_nat (length (world self)) = size self).
  { rewrite (ld_world _ _ _ Ld). apply fromiter_coords_length; lia. }
  constructor; try apply Hx; try apply Ld; try done.
  - rewrite (ld_walls _ _ _ Ld). apply Hb.
  - rewrite <- Hlen. f_equal. apply Ld.
  - unfold fruit, terminal_states.
    rewrite (ld_goal _ _ _ Ld), (ld_lava _ _ _ Ld), (ld_lemons _ _ _ Ld),
      (ld_apples _ _ _ Ld), (ld_melons _ _ _ Ld).
    rewrite !Forall_app.
    repeat split; (eapply Forall_impl; [apply Hb|]; cbn; intros; lia).
Qed.

(** The registry a text world leaves has no collisions at all. *)
Lemma placed_layout_ok self :
  placed self → NoDup (fruit self) → layout_ok self.
Proof.
  intros P Hnd.
  assert (Hlen : Z.of_nat (length (world self)) = size self).
  { rewrite (pl_world _ P).
    apply fromiter_coords_length; [pose proof (pl_x _ P)|pose proof (pl_y _ P)]; lia. }
  constructor; try apply P; try done.
  - rewrite (pl_wall_grid _ P), mark_length, length_replicate. done.
  - intros i Hi. rewrite (pl_wall_grid _ P). apply mark_zeros_lookup; [lia|].
    eapply Forall_impl; [exact (pl_walls _ P)|]. cbn. intros; lia.
  - apply Forall_forall. apply P.
  - intros t Ht. pose proof (pl_valid _ P) as Hv.
    rewrite Forall_app in Hv. destruct Hv as [_ Hv].
    by apply (proj1 (Forall_forall _ _) Hv).
  - intros f Hf. pose proof (pl_valid _ P) as Hv.
    rewrite Forall_app in Hv. destruct Hv as [Hv _].
    by apply (proj1 (Forall_forall _ _) Hv).
Qed.

Lemma placed_episode_ok self : placed self → episode_ok self.
Proof.
  intros P. constructor.
  - by rewrite (pl_current_lemons _ P).
  - by rewrite (pl_current_apples _ P).
  - by rewrite (pl_current_melons _ P).
  - by rewrite (pl_done _ P).
Qed.

Lemma placed_checked self :
  placed self → collision_free self → layout_ok self ∧ episode_ok self.
Proof.
  intros P C. split; [|by apply placed_episode_ok].
  apply placed_layout_ok; [done|].
  destruct C as (_ & _ & _ & _ & _ & _ & _ & _ & _ & _ & Hnd & _).
  unfold current_fruit in Hnd. unfold fruit.
  by rewrite <- (pl_current_apples _ P), <- (pl_current_lemons _ P),
    <- (pl_current_melons _ P).
Qed.

End LoaderInversion.
Section InitFields.

Lemma _generate_walls_Ok walls self self' :
  length (wall_grid self) = length (world self) →
  _generate_walls walls self = (Ok tt, self') →
  Forall (λ w, 0 ≤ w < world_size self) (default [] walls) ∧
  self' = set_wall_indices (wall_indices self ++ default [] walls)
            (set_wall_grid (mark (wall_grid self) (default [] walls)) self).
Proof.
  intros Hlen H. destruct walls as [ws|]; cbn [default].
  - pose proof (_generate_walls_Ok_inv _ _ _ H) as Hr. split; [exact Hr|].
    rewrite (_generate_walls_returns _ _ Hlen Hr) in H. by injection H as <-.
  - rewrite _generate_walls_None in H. injection H as <-.
    split; [constructor|]. cbn. rewrite app_nil_r. by destruct self.
Qed.

Lemma init_fields_Ok_inv cfg p pick self :
  init_fields p pick (blank cfg) = (Ok tt, self) →
  assigned p self ∧ rewards self = cfg.
Proof.
  intros H. unfold init_fields in H.
  rewrite !bind_modify in H.
  unfold bind at 1 in H. rewrite _generate_world_run in H. env_simpl.
  destruct (bool_decide (0 < (grid_shape p).2 ∧ 0 < (grid_shape p).1)) eqn:Hpos;
    [|discriminate].
  apply bool_decide_eq_true in Hpos.
  rewrite !bind_modify, bind_gets, bind_lift in H. env_simpl.
  destruct (choice pick _) as [s|] eqn:Hs; [|discriminate].
  apply choice_elem in Hs.
  rewrite !bind_modify, bind_gets, !bind_modify, bind_gets in H.
  unfold world_size in H. env_simpl.
  set (w := fromiter_coords (grid_shape p).1 (grid_shape p).2) in *.
  assert (Hsize : Z.of_nat (length w) = (grid_shape p).1 * (grid_shape p).2)
    by (apply fromiter_coords_length; lia).
  apply bind_Ok_inv in H as ([] & s1 & Hl & H).
  rewrite lava_check_run in Hl.
  destruct (bool_decide (Forall _ _)) eqn:Hlava in Hl; [|discriminate].
  apply bool_decide_eq_true in Hlava. injection Hl as <-.
  rewrite !bind_modify in H. env_simpl.
  apply bind_Ok_inv in H as ([] & s2 & Hw & H).
  apply _generate_walls_Ok in Hw as [Hwalls ->]; [|apply length_replicate].
  assert (Hwalls' : Forall (λ x, 0 ≤ x < Z.of_nat (length w)) (default [] (p_walls p)))
    by exact Hwalls.
  clear Hwalls.
  rewrite bind_modify in H. env_simpl.
  apply bind_Ok_inv in H as ([] & s3 & Hg & H).
  apply _generate_reward_matrix_Ok_inv in Hg as (Hvalid & m3 & -> & L3).
  rewrite bind_gets in H.
  apply bind_Ok_inv in H as ([] & s4 & Hgs & H).
  apply for_set_Ok_inv in Hgs as (_ & m4 & -> & L4).
  rewrite bind_gets in H.
  apply bind_Ok_inv in H as ([] & s5 & Hls & H).
  apply for_set_Ok_inv in Hls as (_ & m5 & -> & L5).
  rewrite bind_modify in H. unfold modify in H. injection H as <-.
  unfold fruit, current_fruit, terminal_states, size in *.
  env_simpl. rewrite length_replicate in *.
  assert (Hm : Z.of_nat (length m5) = (grid_shape p).1 * (grid_shape p).2)
    by (rewrite L5, L4, L3; exact Hsize).
  clear L3 L4 L5.
  split; [|reflexivity].
  constructor; env_simpl; unfold size; env_simpl;
    try reflexivity; try assumption.
  - by rewrite Hsize.
  - by rewrite <- Hsize.
  - constructor; unfold fruit, terminal_states, size; env_simpl;
      try reflexivity; try assumption; try lia.
    + by rewrite <- Hsize.
    + rewrite <- Hsize. exact Hvalid.
    + intros Heq. rewrite Heq in Hs. by apply elem_of_nil in Hs.
Qed.

End InitFields.
Section Init.

Lemma loader_placed lines pick self self' :
  _create_custom_world_from_text lines pick self = (Ok tt, self') →
  placed self' ∧ rewards self' = rewards self ∧
  ∃ first, head lines = Some first ∧ loaded (String.length first) lines self'.
Proof.
  intros H.
  apply loader_Ok_inv in H as (first & rest & -> & Hw & Hx & Hg & Ld & Hc).
  split; [|split; [done|by exists first]].
  eapply loaded_placed; [exact Ld|].
  rewrite (ld_starts _ _ _ Ld). intros Hn. by apply positions_nil_iff in Hn.
Qed.

(** What a successful construction guarantees. *)
Lemma init_Ok_inv cfg p picks self :
  __init__ cfg p picks = Ok self →
  (∃ self1, init_fields p (picks 0%nat) (blank cfg) = (Ok tt, self1) ∧
            assigned p self1 ∧
            (custom_world_fp p = None → random_maze p = None → self = self1)) ∧
  placed self ∧ collision_free self ∧ rewards self = cfg ∧
  (∀ lines, random_maze p = Some lines →
     ∃ first, head lines = Some first ∧ loaded (String.length first) lines self) ∧
  (∀ lines, random_maze p = None → custom_world_fp p = Some lines →
     ∃ first, head lines = Some first ∧ loaded (String.length first) lines self).
Proof.
  unfold __init__. destruct (init_body p picks (blank cfg)) as [[[]|e] self0] eqn:H;
    [|discriminate].
  intros [= ->]. unfold init_body in H.
  apply bind_Ok_inv in H as ([] & self1 & H1 & H).
  apply init_fields_Ok_inv in H1 as H1'. destruct H1' as [A1 R1].
  apply bind_Ok_inv in H as ([] & self2 & H2 & H).
  apply bind_Ok_inv in H as ([] & self3 & H3 & H).
  rewrite _check_specific_collisions_run in H.
  destruct (bool_decide (collision_free self3)) eqn:Hc; [|discriminate].
  apply bool_decide_eq_true in Hc. injection H as ->.
  assert (P2 : placed self2 ∧ rewards self2 = cfg ∧
               (custom_world_fp p = None → self2 = self1) ∧
               (∀ lines, custom_world_fp p = Some lines →
                  ∃ first, head lines = Some first ∧
                           loaded (String.length first) lines self2)).
  { destruct (custom_world_fp p) as [lines|].
    - apply loader_placed in H2 as (P & R & L).
      split; [done|]. split; [congruence|]. split; [done|].
      by intros ? [= <-].
    - injection H2 as <-. split; [apply A1|]. by repeat split. }
  destruct P2 as (P2 & R2 & E2 & L2).
  destruct (random_maze p) as [lines|].
  - apply loader_placed in H3 as (P & R & L).
    split; [exists self1; split; [done|split; [done|intros _ [=]]]|].
    split; [done|]. split; [done|]. split; [congruence|].
    split; [by intros ? [= <-]|done].
  - injection H3 as <-.
    split; [exists self1; split; [done|split; [done|by intros ?%E2 _]]|].
    split; [done|]. split; [done|]. split; [done|].
    split; [done|]. intros lines _. apply L2.
Qed.

(** Every reachable environment is well formed. *)
Theorem reachable_ok self : reachable self → layout_ok self ∧ episode_ok self.
Proof.
  induction 1 as [cfg p picks self H|c self _ [L E]].
  - apply init_Ok_inv in H as (_ & P & C & _). by apply placed_checked.
  - by apply exec_preserves.
Qed.

End Init.
(** * The claims *)

Section Reachability.

Lemma reachable_after calls self : reachable self → reachable (after calls self).
Proof.
  revert self. induction calls as [|c calls IH]; intros self H; [done|].
  cbn. apply IH. by constructor.
Qed.

Lemma reachable_constructed cfg p picks :
  is_ok (__init__ cfg p picks) = true →
  reachable (constructed (__init__ cfg p picks)).
Proof.
  destruct (__init__ cfg p picks) as [self|e] eqn:H; [|discriminate].
  intros _. by econstructor.
Qed.

Lemma reachable_world_2x2 : reachable (constructed world_2x2).
Proof. apply reachable_constructed. vm_compute. reflexivity. Qed.

Lemma matrix_range self :
  layout_ok self → ∀ x, - size self ≤ x < size self →
  - Z.of_nat (length (reward_matrix self)) ≤ x
  < Z.of_nat (length (reward_matrix self)).
Proof. intros L x Hx. by rewrite (lo_matrix _ L). Qed.

End Reachability.

(** C1. From a cell of the grid that is not a wall, every one of the four
    directions makes [look_step_ahead] return, and the state it returns
    is again a cell of the grid that is not a wall; this holds for both
    values of [care_about_terminal]. *)
Theorem C1_look_step_ahead_stays_on_grid self s a care :
  reachable self →
  0 ≤ s < size self → s ∉ wall_indices self → a ∈ [UP; RIGHT; DOWN; LEFT] →
  ∃ next_state reward d self',
    look_step_ahead s a care self = (Ok (next_state, reward, d), self') ∧
    0 ≤ next_state < size self ∧
    (next_state ∉ wall_indices self) ∧
    _is_wall next_state self = (Ok false, self).
Proof.
  intros [L E]%reachable_ok Hs Hw Ha.
  assert (Ha' : 0 ≤ a < 4).
  { unfold UP, RIGHT, DOWN, LEFT in Ha.
    rewrite !elem_of_cons, elem_of_nil in Ha. lia. }
  assert (Hfin : ∀ ns, 0 ≤ ns < size self → ns ∉ wall_indices self →
    ∀ run, run = (reward <- reward_function ns true ;;
                  d <- is_terminal ns ;; ret (ns, reward, d)) self →
    ∃ next_state reward d self',
      run = (Ok (next_state, reward, d), self') ∧
      0 ≤ next_state < size self ∧ (next_state ∉ wall_indices self) ∧
      _is_wall next_state self = (Ok false, self)).
  { intros ns Hns Hnw run ->.
    destruct (settle_returns self ns E) as (r & self' & -> & _).
    { apply matrix_range; [done|lia]. }
    exists ns, r, (bool_decide (ns ∈ terminal_states self)), self'.
    repeat split; try done; try lia.
    rewrite (_is_wall_run _ _ L Hns). by rewrite bool_decide_eq_false_2. }
  destruct (decide (care = true ∧ s ∈ terminal_states self)) as [[-> Ht]|Hn].
  - apply (Hfin s Hs Hw). by apply look_step_ahead_terminal.
  - apply (Hfin (blocked self s (neighbour self a s))).
    + apply blocked_range; [done|]. apply neighbour_range; [apply L|done].
    + by apply blocked_not_wall.
    + apply look_step_ahead_move; try done.
      destruct care; [right|by left]. intros Ht. by apply Hn.
Qed.

Lemma C1_witness :
  ∃ next_state reward d self',
    look_step_ahead 1 DOWN true (constructed world_2x2)
    = (Ok (next_state, reward, d), self') ∧
    0 ≤ next_state < size (constructed world_2x2) ∧
    (next_state ∉ wall_indices (constructed world_2x2)) ∧
    _is_wall next_state (constructed world_2x2) = (Ok false, constructed world_2x2).
Proof.
  apply (C1_look_step_ahead_stays_on_grid (constructed world_2x2) 1 DOWN true).
  - apply reachable_world_2x2.
  - vm_compute. split; [discriminate|reflexivity].
  - vm_compute. apply not_elem_of_nil.
  - vm_compute. repeat constructor.
Defined.

(** C2. Terminal states are absorbing: on a goal or lava state
    [look_step_ahead] with [care_about_terminal] true returns that same
    state with [done] true, whatever the action. *)
Theorem C2_terminal_states_absorbing self s a :
  reachable self →
  s ∈ goal_states self ∨ s ∈ lava_states self →
  ∃ reward self', look_step_ahead s a true self = (Ok (s, reward, true), self').
Proof.
  intros [L E]%reachable_ok Hs.
  assert (Ht : s ∈ terminal_states self).
  { unfold terminal_states. rewrite elem_of_app. tauto. }
  rewrite (look_step_ahead_terminal _ _ _ Ht).
  destruct (settle_returns self s E) as (r & self' & -> & _).
  { apply matrix_range; [done|]. by apply (lo_terminal _ L). }
  exists r, self'. by rewrite bool_decide_eq_true_2.
Qed.

Lemma C2_witness :
  ∃ reward self',
    look_step_ahead 3 RIGHT true (constructed world_2x2) = (Ok (3, reward, true), self').
Proof.
  apply (C2_terminal_states_absorbing (constructed world_2x2) 3 RIGHT).
  - apply reachable_world_2x2.
  - left. vm_compute. repeat constructor.
Defined.
(** C10. With [care_about_terminal] false there is no terminal
    short-circuit: from every cell of the grid, terminal or not, each of
    the four directions goes to the neighbour given by the boundary rule
    unless it is a wall; the reward is read with collection on the
    resulting state (a fruit there leaves the working fruit lists and its
    entry becomes the step cost; otherwise nothing changes); and [done]
    tells whether the resulting state is a goal or lava state. *)
Theorem C10_no_terminal_short_circuit self s a :
  reachable self → 0 ≤ s < size self → a ∈ [0; 1; 2; 3] →
  ∃ reward self',
    let next_state := blocked self s (neighbour self a s) in
    look_step_ahead s a false self
    = (Ok (next_state, reward, bool_decide (next_state ∈ terminal_states self)), self') ∧
    reward_function next_state true self = (Ok reward, self') ∧
    getitem (reward_matrix self) next_state = Ok reward ∧
    (next_state ∉ current_fruit self → self' = self) ∧
    (next_state ∈ current_fruit self →
       (next_state ∉ current_fruit self') ∧
       getitem (reward_matrix self') next_state = Ok (MOVEMENT_REWARD (rewards self))).
Proof.
  intros [L E]%reachable_ok Hs Ha.
  assert (Ha' : 0 ≤ a < 4) by (rewrite !elem_of_cons, elem_of_nil in Ha; lia).
  set (ns := blocked self s (neighbour self a s)).
  assert (Hns : 0 ≤ ns < size self).
  { apply blocked_range; [done|]. apply neighbour_range; [apply L|done]. }
  assert (Hr : - Z.of_nat (length (reward_matrix self)) ≤ ns
               < Z.of_nat (length (reward_matrix self)))
    by (apply matrix_range; [done|lia]).
  destruct (reward_function_returns self ns E Hr)
    as (r & self' & Hrun & Hget & _ & Hno & Hgone & Hcost).
  exists r, self'. cbn zeta. fold ns.
  split; [|split; [done|split; [done|split; [done|]]]].
  - rewrite (look_step_ahead_move _ _ _ _ L Hs Ha') by (by left). fold ns.
    destruct (settle_returns self ns E Hr) as (r' & self'' & -> & Hrun').
    rewrite Hrun in Hrun'. by injection Hrun' as <- <-.
  - intros Hin. split; [|by apply Hcost].
    apply Hgone. by apply current_fruit_NoDup.
Qed.

(** In this mode the agent walks out of a goal state: [UP] from the goal
    of the 2x2 world leads to cell 1. *)
Lemma C10_witness :
  ∃ reward self',
    let next_state := blocked (constructed world_2x2) 3
                        (neighbour (constructed world_2x2) 0 3) in
    look_step_ahead 3 0 false (constructed world_2x2)
    = (Ok (next_state, reward,
           bool_decide (next_state ∈ terminal_states (constructed world_2x2))), self') ∧
    reward_function next_state true (constructed world_2x2) = (Ok reward, self') ∧
    getitem (reward_matrix (constructed world_2x2)) next_state = Ok reward ∧
    (next_state ∉ current_fruit (constructed world_2x2) → self' = constructed world_2x2) ∧
    (next_state ∈ current_fruit (constructed world_2x2) →
       (next_state ∉ current_fruit self') ∧
       getitem (reward_matrix self') next_state
       = Ok (MOVEMENT_REWARD (rewards (constructed world_2x2)))).
Proof.
  apply (C10_no_terminal_short_circuit (constructed world_2x2) 3 0).
  - apply reachable_world_2x2.
  - vm_compute. split; [discriminate|reflexivity].
  - repeat constructor.
Defined.

Example look_step_ahead_leaves_goal :
  3 ∈ goal_states (constructed world_2x2) ∧
  (look_step_ahead 3 UP false (constructed world_2x2)).1 = Ok (1, -1, false) ∧
  (look_step_ahead 3 UP true (constructed world_2x2)).1 = Ok (3, 10, true).
Proof. split; [vm_compute; repeat constructor|]. split; vm_compute; reflexivity. Qed.
(** C7, as stated, fails: the closures are selected by indexing a Python
    list, so [-3] is [RIGHT], and on a terminal state the action is not
    looked at. *)
Lemma C7_counterexample :
  (-3 ∉ [0; 1; 2; 3]) ∧
  (look_step_ahead 0 (-3) true (constructed world_2x2)).1 = Ok (1, -1, false) ∧
  (_step (-3) (constructed world_2x2)).1 = Ok (1, -1, false) ∧
  (7 ∉ [0; 1; 2; 3]) ∧
  (look_step_ahead 3 7 true (constructed world_2x2)).1 = Ok (3, 10, true).
Proof.
  split; [by rewrite !elem_of_cons, elem_of_nil; lia|].
  split; [vm_compute; reflexivity|]. split; [vm_compute; reflexivity|].
  split; [by rewrite !elem_of_cons, elem_of_nil; lia|].
  vm_compute; reflexivity.
Qed.

Section Actions.

(** [step] looks at its action only through the look-ahead. *)
Lemma _step_congr self a a' :
  look_step_ahead (current_state self) a true
    (set_previous_state (current_state self) self)
  = look_step_ahead (current_state self) a' true
      (set_previous_state (current_state self) self) →
  _step a self = _step a' self.
Proof.
  intros H. unfold _step.
  unfold bind at 1. unfold modify at 1. unfold bind at 1. unfold gets at 1.
  cbn [current_state set_previous_state].
  symmetry.
  unfold bind at 1. unfold modify at 1. unfold bind at 1. unfold gets at 1.
  cbn [current_state set_previous_state].
  unfold bind at 1. symmetry. unfold bind at 1.
  by rewrite H.
Qed.

(** The negative indices [-4 .. -1] select the four closures again. *)
Lemma look_step_ahead_negative self s a care :
  layout_ok self → 0 ≤ s < size self → -4 ≤ a < 0 →
  look_step_ahead s a care self = look_step_ahead s (a + 4) care self.
Proof.
  intros L Hs Ha.
  destruct (decide (care = true ∧ s ∈ terminal_states self)) as [[-> Ht]|Hn].
  - by rewrite !(look_step_ahead_terminal _ _ _ Ht).
  - assert (Hc : care = false ∨ s ∉ terminal_states self).
    { destruct care; [right|by left]. intros Ht. by apply Hn. }
    rewrite (look_step_ahead_move_negative _ _ _ _ L Hs Ha Hc).
    by rewrite (look_step_ahead_move _ _ (a + 4) _ L Hs) by (done || lia).
Qed.

(** On a terminal state the look-ahead returns without looking at the
    action. *)
Lemma look_step_ahead_ignores_action self s :
  layout_ok self → episode_ok self → s ∈ terminal_states self →
  ∃ reward self',
    ∀ a, look_step_ahead s a true self = (Ok (s, reward, true), self').
Proof.
  intros L E Ht.
  destruct (settle_returns self s E) as (r & self' & Hrun & _).
  { apply matrix_range; [done|]. by apply (lo_terminal _ L). }
  exists r, self'. intros a.
  rewrite (look_step_ahead_terminal _ _ _ Ht), Hrun.
  by rewrite bool_decide_eq_true_2.
Qed.

Lemma _step_ignores_action self :
  layout_ok self → episode_ok self →
  current_state self ∈ terminal_states self →
  ∃ reward self',
    ∀ a, _step a self = (Ok (current_state self, reward, true), self').
Proof.
  intros L E Ht.
  set (self0 := set_previous_state (current_state self) self).
  assert (L0 : layout_ok self0) by (destruct L; by constructor).
  assert (E0 : episode_ok self0) by (destruct E; by constructor).
  destruct (look_step_ahead_ignores_action self0 (current_state self) L0 E0 Ht)
    as (r & self1 & Hrun).
  assert (Hworld : world self1 = world self).
  { pose proof (reward_function_collects self0 (current_state self) true E0) as Hc.
    destruct (look_step_ahead_cases self0 (current_state self) 0 true E0)
      as [[e He]|(ns & r' & self1' & Hl & Hr & _)].
    - rewrite (Hrun 0) in He. discriminate.
    - rewrite (Hrun 0) in Hl. injection Hl as Hns Hr' _ Hs. subst ns r' self1'.
      rewrite Hr in Hc. cbn [snd] in Hc.
      by destruct Hc as (cl & ca & cm & m & -> & _). }
  destruct (getitem_in_range (world self1) (current_state self)) as [c Hc].
  { rewrite Hworld, (world_length _ L). by apply (lo_terminal _ L). }
  eexists r, _. intros a.
  exact (_step_returns self a _ _ _ _ c (Hrun a) Hc).
Qed.

End Actions.

(** C7, amended. An action below [-4] or above [3] makes
    [look_step_ahead] raise [IndexError] with the object untouched, unless
    [care_about_terminal] is true and the state is terminal; and it makes
    [step] raise [IndexError], after [previous_state] has been set, unless
    the current state is terminal.  The actions [-4 .. -1] are accepted:
    on every reachable environment they do, from a cell of the grid, what
    [UP], [RIGHT], [DOWN] and [LEFT] do, in [look_step_ahead] and in
    [step].  And on a terminal state the action is not looked at:
    [look_step_ahead] with [care_about_terminal] true, and [step] on a
    terminal current state, return the same result and leave the same
    object for every action, without an error. *)
Theorem C7_action_out_of_range self s a care :
  (¬ (-4 ≤ a < 4) →
   (care = false ∨ s ∉ terminal_states self →
    look_step_ahead s a care self = (Raise IndexError, self)) ∧
   (current_state self ∉ terminal_states self →
    _step a self = (Raise IndexError, set_previous_state (current_state self) self))) ∧
  (reachable self →
   (-4 ≤ a < 0 → 0 ≤ s < size self →
    look_step_ahead s a care self = look_step_ahead s (a + 4) care self) ∧
   (-4 ≤ a < 0 → 0 ≤ current_state self < size self →
    _step a self = _step (a + 4) self) ∧
   (s ∈ terminal_states self →
    ∃ reward self',
      ∀ a', look_step_ahead s a' true self = (Ok (s, reward, true), self')) ∧
   (current_state self ∈ terminal_states self →
    ∃ reward self',
      ∀ a', _step a' self = (Ok (current_state self, reward, true), self'))).
Proof.
  split.
  - intros Ha. split.
    + intros Hc. by apply look_step_ahead_bad_action.
    + intros Hc. apply _step_raises. apply look_step_ahead_bad_action; [done|].
      right. exact Hc.
  - intros [L E]%reachable_ok. split; [|split; [|split]].
    + intros Ha Hs. by apply look_step_ahead_negative.
    + intros Ha Hs. apply _step_congr. apply look_step_ahead_negative; [|done|done].
      destruct L; by constructor.
    + intros Ht. by apply look_step_ahead_ignores_action.
    + intros Ht. by apply _step_ignores_action.
Qed.

Lemma C7_witness :
  (look_step_ahead 0 4 true (constructed world_2x2)
   = (Raise IndexError, constructed world_2x2) ∧
   _step 4 (constructed world_2x2)
   = (Raise IndexError,
      set_previous_state (current_state (constructed world_2x2))
        (constructed world_2x2))) ∧
  (look_step_ahead 0 (-3) true (constructed world_2x2)
   = look_step_ahead 0 (-3 + 4) true (constructed world_2x2) ∧
   _step (-3) (constructed world_2x2) = _step (-3 + 4) (constructed world_2x2)) ∧
  (∃ reward self',
     ∀ a', look_step_ahead 3 a' true (constructed world_2x2)
           = (Ok (3, reward, true), self')) ∧
  (∃ reward self',
     ∀ a', _step a' terminated_2x2
           = (Ok (current_state terminated_2x2, reward, true), self')).
Proof.
  assert (R : reachable (constructed world_2x2)) by apply reachable_world_2x2.
  assert (R' : reachable terminated_2x2)
    by apply reachable_after, reachable_world_2x2.
  split; [|split; [|split]].
  - destruct (C7_action_out_of_range (constructed world_2x2) 0 4 true) as [H _].
    destruct H as [H1 H2]; [lia|]. split.
    + apply H1. right. vm_compute. intros Hin.
      repeat (apply elem_of_cons in Hin as [Hin|Hin]; [discriminate|]).
      by apply elem_of_nil in Hin.
    + apply H2. vm_compute. intros Hin.
      repeat (apply elem_of_cons in Hin as [Hin|Hin]; [discriminate|]).
      by apply elem_of_nil in Hin.
  - destruct (C7_action_out_of_range (constructed world_2x2) 0 (-3) true) as [_ H].
    destruct (H R) as (H1 & H2 & _). split.
    + apply H1; [lia|]. vm_compute. split; [discriminate|reflexivity].
    + apply H2; [lia|]. vm_compute. split; [discriminate|reflexivity].
  - destruct (C7_action_out_of_range (constructed world_2x2) 3 0 true) as [_ H].
    destruct (H R) as (_ & _ & H3 & _). apply H3.
    vm_compute. repeat constructor.
  - destruct (C7_action_out_of_range terminated_2x2 0 0 true) as [_ H].
    destruct (H R') as (_ & _ & _ & H4). apply H4.
    vm_compute. repeat constructor.
Defined.

(** The 2x2 world after [step(RIGHT)] and [step(DOWN)]: the goal is
    reached and [done] is true. *)
Lemma C8_counterexample :
  done terminated_2x2 = true ∧
  previous_state terminated_2x2 = 1 ∧
  previous_state (exec (Step UP) terminated_2x2)
  = 3 ∧
  last_n_states terminated_2x2
  = [(1, 0); (1, 1)] ∧
  last_n_states (exec (Step UP) terminated_2x2)
  = [(1, 0); (1, 1); (1, 1)].
Proof. repeat split; vm_compute; reflexivity. Qed.

(** C8, amended. [step] on a terminated episode is not an error, for any
    action: it returns the current state, the reward stored for it and
    [done] true, and leaves [current_state], [done], the reward matrix
    and the working fruit lists as they are; but [previous_state] becomes
    the current state and the current coordinates are appended to the
    bounded history. *)
Theorem C8_step_after_termination self a :
  reachable self → done self = true →
  ∃ reward c self',
    _step a self = (Ok (current_state self, reward, true), self') ∧
    getitem (reward_matrix self) (current_state self) = Ok reward ∧
    getitem (world self) (current_state self) = Ok c ∧
    current_state self' = current_state self ∧
    done self' = true ∧
    reward_matrix self' = reward_matrix self ∧
    current_lemons self' = current_lemons self ∧
    current_apples self' = current_apples self ∧
    current_melons self' = current_melons self ∧
    previous_state self' = current_state self ∧
    last_n_states self' = record_visit c (last_n_states self).
Proof.
  intros [L E]%reachable_ok Hd.
  destruct (ep_done _ E Hd) as [Ht Hf].
  set (cs := current_state self) in *.
  assert (Hrange : - size self ≤ cs < size self) by (by apply (lo_terminal _ L)).
  destruct (getitem_in_range (reward_matrix self) cs) as [r Hr].
  { by apply matrix_range. }
  destruct (getitem_in_range (world self) cs) as [c Hc].
  { by rewrite (world_length _ L). }
  set (self0 := set_previous_state cs self).
  assert (Hlook : look_step_ahead cs a true self0 = (Ok (cs, r, true), self0)).
  { rewrite (look_step_ahead_terminal self0 cs a Ht).
    assert (Hrf : reward_function cs true self0 = (Ok r, self0))
      by (by apply reward_function_no_fruit).
    rewrite (bind_Ok _ _ _ _ _ Hrf). unfold bind. rewrite is_terminal_run.
    unfold ret. by rewrite bool_decide_eq_true_2. }
  exists r, c. eexists. split; [exact (_step_returns self a _ _ _ _ c Hlook Hc)|].
  by repeat split.
Qed.

Lemma C8_witness :
  ∃ reward c self',
    _step LEFT terminated_2x2
    = (Ok (current_state terminated_2x2,
           reward, true), self') ∧
    getitem (reward_matrix terminated_2x2)
      (current_state terminated_2x2)
    = Ok reward ∧
    getitem (world terminated_2x2)
      (current_state terminated_2x2)
    = Ok c ∧
    current_state self'
    = current_state terminated_2x2 ∧
    done self' = true ∧
    reward_matrix self'
    = reward_matrix terminated_2x2 ∧
    current_lemons self'
    = current_lemons terminated_2x2 ∧
    current_apples self'
    = current_apples terminated_2x2 ∧
    current_melons self'
    = current_melons terminated_2x2 ∧
    previous_state self'
    = current_state terminated_2x2 ∧
    last_n_states self'
    = record_visit c
        (last_n_states terminated_2x2).
Proof.
  apply (C8_step_after_termination terminated_2x2 LEFT).
  - apply reachable_after, reachable_world_2x2.
  - vm_compute. reflexivity.
Defined.
(** C5, as stated, fails for goals and hazards: no check compares the
    goal states with the lava states. *)
Lemma C5_counterexample :
  is_ok (__init__ sample_rewards goal_on_lava_params first_pick) = true ∧
  goal_states (constructed (__init__ sample_rewards goal_on_lava_params first_pick))
  = [3] ∧
  lava_states (constructed (__init__ sample_rewards goal_on_lava_params first_pick))
  = [3].
Proof. repeat split; vm_compute; reflexivity. Qed.

(** C5, amended. A constructed environment has no wall id among its
    start states, goal states, lava states or fruit; and when no text
    world replaces the arguments, construction raises as soon as a wall
    id supplied is also supplied as a start, goal, lava or fruit id.
    Goal and lava states are not compared with each other. *)
Theorem C5_wall_collisions cfg p picks :
  (∀ self, __init__ cfg p picks = Ok self →
     ∀ x, x ∈ wall_indices self →
       (x ∉ initial_states self) ∧ (x ∉ goal_states self) ∧
       (x ∉ lava_states self) ∧ (x ∉ fruit self)) ∧
  (custom_world_fp p = None → random_maze p = None →
   ∀ x, x ∈ supplied_walls p →
     x ∈ supplied_starts p ++ supplied_goals p ++ supplied_lava p ++ supplied_fruit p →
     ∃ e, __init__ cfg p picks = Raise e).
Proof.
  assert (Hfree : ∀ self, __init__ cfg p picks = Ok self →
     ∀ x, x ∈ wall_indices self →
       (x ∉ initial_states self) ∧ (x ∉ goal_states self) ∧
       (x ∉ lava_states self) ∧ (x ∉ fruit self)).
  { intros self H x Hx.
    apply init_Ok_inv in H as (_ & P & C & _).
    destruct C as (_ & _ & _ & _ & _ & _ & _ & Cs & Cg & Cl & _ & Cf).
    rewrite Forall_forall in Cs, Cg, Cl, Cf.
    assert (Hfruit : current_fruit self = fruit self).
    { unfold current_fruit, fruit.
      by rewrite (pl_current_apples _ P), (pl_current_lemons _ P),
        (pl_current_melons _ P). }
    rewrite Hfruit in Cf.
    repeat split; intros Hin; [by apply (Cs x)|by apply (Cg x)|by apply (Cl x)
                              |by apply (Cf x)]. }
  split; [exact Hfree|].
  intros Hc Hm x Hw Hin.
  destruct (__init__ cfg p picks) as [self|e] eqn:H; [exfalso|by exists e].
  pose proof (Hfree self eq_refl) as Hdis.
  apply init_Ok_inv in H as ((self1 & _ & A & Heq) & _).
  rewrite <- (Heq Hc Hm) in A. clear Heq.
  assert (Hgoal : goal_states self = supplied_goals p).
  { rewrite (as_goal _ _ A). unfold supplied_goals, size.
    by rewrite (as_x _ _ A), (as_y _ _ A). }
  destruct (Hdis x) as (Hs & Hg & Hl & Hf).
  { by rewrite (as_walls _ _ A). }
  rewrite !elem_of_app in Hin. destruct Hin as [Hin|[Hin|[Hin|Hin]]].
  - apply Hs. by rewrite (as_starts _ _ A).
  - apply Hg. by rewrite Hgoal.
  - apply Hl. by rewrite (as_lava _ _ A).
  - apply Hf. unfold fruit.
    by rewrite (as_apples _ _ A), (as_lemons _ _ A), (as_melons _ _ A).
Qed.

(** A wall id equal to a goal id raises. *)
Lemma C5_witness :
  ∃ e, __init__ sample_rewards wall_on_goal_params first_pick = Raise e.
Proof.
  apply (proj2 (C5_wall_collisions sample_rewards wall_on_goal_params first_pick)
           eq_refl eq_refl 3).
  - vm_compute. repeat constructor.
  - vm_compute. repeat constructor.
Defined.

(** C6. The constructor compares the lava states and the walls with the
    grid, and its handler for the goal states speaks of grid bounds, but
    two cases slip through.  The start states are never compared with
    the grid: [GridUniverseEnv(grid_shape=(2, 2), initial_state=100)]
    constructs with the agent on state 100, and the first [step] raises
    [IndexError].  Goal and fruit ids are only bounded by the indexing of
    the reward matrix, which takes negative ids from the end:
    [goal_states=[-1]] constructs, cell 3 pays the goal reward, but no
    state the agent can reach is terminal, so the episode never ends;
    [apples=[-3]] constructs, cell 1 carries the bonus, and since state
    1 is not in the working list the bonus is never collected: every
    visit pays it again. *)
Theorem C6_unchecked_ids :
  (is_ok (__init__ sample_rewards far_start_params first_pick) = true ∧
   size (constructed (__init__ sample_rewards far_start_params first_pick)) = 4 ∧
   initial_states (constructed (__init__ sample_rewards far_start_params first_pick))
   = [100] ∧
   current_state (constructed (__init__ sample_rewards far_start_params first_pick))
   = 100 ∧
   (_step RIGHT (constructed (__init__ sample_rewards far_start_params first_pick))).1
   = Raise IndexError) ∧
  (is_ok (__init__ sample_rewards negative_goal_params first_pick) = true ∧
   goal_states (constructed (__init__ sample_rewards negative_goal_params first_pick))
   = [-1] ∧
   reward_matrix (constructed (__init__ sample_rewards negative_goal_params first_pick))
   = [-1; -1; -1; 10] ∧
   (_step DOWN
      (after [Step RIGHT]
         (constructed (__init__ sample_rewards negative_goal_params first_pick)))).1
   = Ok (3, 10, false) ∧
   Forall (λ s, (is_terminal s
                   (constructed (__init__ sample_rewards negative_goal_params
                                   first_pick))).1 = Ok false) [0; 1; 2; 3]) ∧
  (is_ok (__init__ sample_rewards negative_apple_params first_pick) = true ∧
   apples (constructed (__init__ sample_rewards negative_apple_params first_pick))
   = [-3] ∧
   reward_matrix (constructed (__init__ sample_rewards negative_apple_params first_pick))
   = [-1; 4; -1; 10] ∧
   (_step RIGHT
      (constructed (__init__ sample_rewards negative_apple_params first_pick))).1
   = Ok (1, 4, false) ∧
   (_step RIGHT
      (after [Step RIGHT; Step LEFT]
         (constructed (__init__ sample_rewards negative_apple_params first_pick)))).1
   = Ok (1, 4, false)).
Proof.
  split; [|split].
  - repeat split; vm_compute; reflexivity.
  - split; [vm_compute; reflexivity|]. split; [vm_compute; reflexivity|].
    split; [vm_compute; reflexivity|]. split; [vm_compute; reflexivity|].
    repeat constructor; vm_compute; reflexivity.
  - repeat split; vm_compute; reflexivity.
Qed.

(** What the constructor does check: a lava or wall id outside
    [0, size), and a goal or fruit id that is at least [size] or below
    [-size], make construction raise. *)
Theorem C6_out_of_bounds_ids cfg p picks x :
  (x ∈ supplied_lava p ++ supplied_walls p ∧
   ¬ (0 ≤ x < (grid_shape p).1 * (grid_shape p).2)) ∨
  (x ∈ supplied_goals p ++ supplied_fruit p ∧
   ¬ (- ((grid_shape p).1 * (grid_shape p).2) ≤ x
      < (grid_shape p).1 * (grid_shape p).2)) →
  ∃ e, __init__ cfg p picks = Raise e.
Proof.
  intros Hx.
  destruct (__init__ cfg p picks) as [self|e] eqn:H; [exfalso|by exists e].
  apply init_Ok_inv in H as ((self1 & _ & A & _) & _).
  pose proof (as_placed _ _ A) as P.
  assert (Hsize : size self1 = (grid_shape p).1 * (grid_shape p).2).
  { unfold size. by rewrite (as_x _ _ A), (as_y _ _ A). }
  assert (Hgoal : goal_states self1 = supplied_goals p).
  { rewrite (as_goal _ _ A). unfold supplied_goals. by rewrite Hsize. }
  pose proof (as_lava_range _ _ A) as Hl.
  pose proof (pl_walls _ P) as Hw. pose proof (pl_valid _ P) as Hv.
  rewrite Forall_forall in Hl, Hw, Hv. rewrite Hsize in *.
  destruct Hx as [[Hin Hout]|[Hin Hout]]; apply Hout;
    rewrite elem_of_app in Hin; destruct Hin as [Hin|Hin].
  - apply Hl. by rewrite (as_lava _ _ A).
  - apply Hw. by rewrite (as_walls _ _ A).
  - apply Hv. unfold terminal_states. rewrite Hgoal, !elem_of_app. auto.
  - apply Hv. unfold fruit.
    rewrite (as_apples _ _ A), (as_lemons _ _ A), (as_melons _ _ A).
    apply elem_of_app. by left.
Qed.

Lemma C6_witness :
  ∃ e, __init__ sample_rewards far_lava_params first_pick = Raise e.
Proof.
  apply (C6_out_of_bounds_ids sample_rewards far_lava_params first_pick 4).
  left. split.
  - vm_compute. repeat constructor.
  - vm_compute. intros [_ H]. discriminate H.
Defined.
(** C3. [reset] runs [_generate_reward_matrix] on the matrix of the
    episode before, without filling it with the step cost first: the
    bonus of a fruit that was not collected is added a second time.
    After [GridUniverseEnv(grid_shape=(2, 2), apples=[1])] and [reset()]
    the entry of the apple is the step cost plus twice the bonus, while
    the matrix rebuilt from the registry has the bonus once.  The sums
    are those of the [int64] matrix: they are the exact sums whenever
    these fit, and the two entries differ unless the bonus is a multiple
    of [2^64], so for every bonus other than zero that the matrix can
    hold. *)
Theorem C3_reset_adds_bonus_again cfg :
  is_ok (__init__ cfg apple_params first_pick) = true ∧
  reward_matrix (apple_world cfg)
  = [MOVEMENT_REWARD cfg; int64 (MOVEMENT_REWARD cfg + APPLE_REWARD cfg);
     MOVEMENT_REWARD cfg; 10] ∧
  (_reset 0 (apple_world cfg)).1 = Ok 0 ∧
  current_apples (after [Reset 0] (apple_world cfg)) = [1] ∧
  reward_matrix (after [Reset 0] (apple_world cfg))
  = [MOVEMENT_REWARD cfg;
     int64 (int64 (MOVEMENT_REWARD cfg + APPLE_REWARD cfg) + APPLE_REWARD cfg);
     MOVEMENT_REWARD cfg; TERMINAL_GOAL_REWARD cfg] ∧
  reward_matrix (rebuild (after [Reset 0] (apple_world cfg))).2
  = [MOVEMENT_REWARD cfg; int64 (MOVEMENT_REWARD cfg + APPLE_REWARD cfg);
     MOVEMENT_REWARD cfg; TERMINAL_GOAL_REWARD cfg] ∧
  (int64 (int64 (MOVEMENT_REWARD cfg + APPLE_REWARD cfg) + APPLE_REWARD cfg)
   = int64 (MOVEMENT_REWARD cfg + APPLE_REWARD cfg)
   ↔ APPLE_REWARD cfg mod 2 ^ 64 = 0) ∧
  (- 2 ^ 63 ≤ MOVEMENT_REWARD cfg + APPLE_REWARD cfg < 2 ^ 63 →
   int64 (MOVEMENT_REWARD cfg + APPLE_REWARD cfg)
   = MOVEMENT_REWARD cfg + APPLE_REWARD cfg) ∧
  (- 2 ^ 63 ≤ MOVEMENT_REWARD cfg + APPLE_REWARD cfg + APPLE_REWARD cfg < 2 ^ 63 →
   int64 (int64 (MOVEMENT_REWARD cfg + APPLE_REWARD cfg) + APPLE_REWARD cfg)
   = MOVEMENT_REWARD cfg + APPLE_REWARD cfg + APPLE_REWARD cfg).
Proof.
  destruct cfg as [l a m lv g mv].
  cbn [MOVEMENT_REWARD APPLE_REWARD TERMINAL_GOAL_REWARD].
  do 6 (split; [lazy -[int64]; reflexivity|]).
  split; [|split].
  - rewrite int64_add_l, int64_eq_iff. by replace (mv + a + a - (mv + a)) with a by lia.
  - apply int64_id.
  - intros H. rewrite int64_add_l. by apply int64_id.
Qed.

(** C4. In an episode that starts with [reset()], the first step onto a
    fruit does not yield the step cost plus the bonus: the entry was
    raised a second time by [reset] (the defect of C3).  After
    [GridUniverseEnv(grid_shape=(2, 2), apples=[1])], [reset()] and
    [step(RIGHT)] the reward is the step cost plus twice the bonus; a
    later visit of the same cell yields the step cost.  Only before the
    first [reset] is the first visit worth the step cost plus the bonus.
    The sums are those of the [int64] matrix: the exact sums whenever
    these fit, and different from each other unless the bonus is a
    multiple of [2^64]. *)
Theorem C4_first_visit_after_reset cfg :
  (_step RIGHT (apple_world cfg)).1
  = Ok (1, int64 (MOVEMENT_REWARD cfg + APPLE_REWARD cfg), false) ∧
  (_step RIGHT (after [Reset 0] (apple_world cfg))).1
  = Ok (1, int64 (int64 (MOVEMENT_REWARD cfg + APPLE_REWARD cfg) + APPLE_REWARD cfg),
        false) ∧
  (_step LEFT (after [Reset 0; Step RIGHT] (apple_world cfg))).1
  = Ok (0, MOVEMENT_REWARD cfg, false) ∧
  (_step RIGHT (after [Reset 0; Step RIGHT; Step LEFT] (apple_world cfg))).1
  = Ok (1, MOVEMENT_REWARD cfg, false) ∧
  (int64 (int64 (MOVEMENT_REWARD cfg + APPLE_REWARD cfg) + APPLE_REWARD cfg)
   = int64 (MOVEMENT_REWARD cfg + APPLE_REWARD cfg)
   ↔ APPLE_REWARD cfg mod 2 ^ 64 = 0) ∧
  (- 2 ^ 63 ≤ MOVEMENT_REWARD cfg + APPLE_REWARD cfg < 2 ^ 63 →
   int64 (MOVEMENT_REWARD cfg + APPLE_REWARD cfg)
   = MOVEMENT_REWARD cfg + APPLE_REWARD cfg) ∧
  (- 2 ^ 63 ≤ MOVEMENT_REWARD cfg + APPLE_REWARD cfg + APPLE_REWARD cfg < 2 ^ 63 →
   int64 (int64 (MOVEMENT_REWARD cfg + APPLE_REWARD cfg) + APPLE_REWARD cfg)
   = MOVEMENT_REWARD cfg + APPLE_REWARD cfg + APPLE_REWARD cfg).
Proof.
  destruct cfg as [l a m lv g mv].
  cbn [MOVEMENT_REWARD APPLE_REWARD TERMINAL_GOAL_REWARD].
  do 4 (split; [lazy -[int64]; reflexivity|]).
  split; [|split].
  - rewrite int64_add_l, int64_eq_iff. by replace (mv + a + a - (mv + a)) with a by lia.
  - apply int64_id.
  - intros H. rewrite int64_add_l. by apply int64_id.
Qed.
Section Numbering.

Lemma forallb_elem {A} (f : A → bool) (l : list A) :
  forallb f l = true ↔ ∀ x, x ∈ l → f x = true.
Proof.
  induction l as [|a l IH]; cbn [forallb].
  - split; [intros _ x Hx; by apply elem_of_nil in Hx|done].
  - rewrite andb_true_iff, IH. split.
    + intros [Ha Hl] x [->|Hx]%elem_of_cons; auto.
    + intros H. split; [apply H; by left|]. intros x Hx. apply H. by right.
Qed.

Lemma well_formed_rows_true width lines :
  well_formed_rows width lines = true ↔
  (∀ line, line ∈ lines → String.length line = width) ∧
  (∀ c, c ∈ cells lines → legal c = true).
Proof.
  unfold well_formed_rows. rewrite andb_true_iff, !forallb_elem.
  split; intros [H1 H2]; (split; [|done]); intros line Hl.
  - eapply bool_decide_eq_true_1, H1, Hl.
  - apply bool_decide_eq_true_2, H1, Hl.
Qed.

(** The cell in column [c] of row [r] is read at position
    [r * width + c]. *)
Lemma cells_lookup width lines (r c : nat) line ch :
  (∀ l, l ∈ lines → String.length l = width) →
  lines !! r = Some line →
  String.list_ascii_of_string line !! c = Some ch →
  cells lines !! (r * width + c)%nat = Some ch.
Proof.
  revert r. induction lines as [|l lines IH]; intros r Hw Hr Hc; [done|].
  assert (Hl : length (String.list_ascii_of_string l) = width).
  { rewrite string_length_list. apply Hw. by left. }
  rewrite cells_cons. destruct r as [|r]; cbn in Hr.
  - injection Hr as ->. rewrite lookup_app_l; [done|].
    by apply lookup_lt_Some in Hc.
  - rewrite lookup_app_r by (rewrite Hl; lia).
    rewrite Hl. replace (S r * width + c - width)%nat with (r * width + c)%nat by lia.
    apply IH; [|done|done]. intros l' Hl'. apply Hw. by right.
Qed.

Lemma positions_cell c cs (j : nat) ch :
  cs !! j = Some ch → Z.of_nat j ∈ positions c cs 0 ↔ ch = c.
Proof.
  intros Hj. rewrite elem_of_positions. split.
  - intros (j' & Hj' & Heq). assert (j' = j) as -> by lia. congruence.
  - intros <-. exists j. split; [done|lia].
Qed.

End Numbering.

(** C9. A text world of equal-length rows of legal characters with a
    start and a goal loads: the grid has as many rows as the text and the
    width of its rows, and the cell in column [c] of row [r] gets the id
    [r * width + c] in the list of its character.  The rows ["xo"; "oG"]
    give a 2x2 world with start states [0] and goal states [3].  A row of
    another length than the first, a character outside the alphabet, a
    text without start and a text without goal each raise [ValueError]. *)
Theorem C9_layout_loader :
  (∀ pick self, ∃ self',
     _create_custom_world_from_text ["xo"; "oG"]%string pick self = (Ok tt, self') ∧
     x_max self' = 2 ∧ y_max self' = 2 ∧
     initial_states self' = [0] ∧ goal_states self' = [3]) ∧
  (∀ first rest pick self,
     (∀ line, line ∈ first :: rest → String.length line = String.length first) →
     (∀ ch, ch ∈ cells (first :: rest) → legal ch = true) →
     "x"%char ∈ cells (first :: rest) → "G"%char ∈ cells (first :: rest) →
     ∃ self',
       _create_custom_world_from_text (first :: rest) pick self = (Ok tt, self') ∧
       y_max self' = Z.of_nat (length (first :: rest)) ∧
       x_max self' = Z.of_nat (String.length first) ∧
       ∀ (r c : nat) line ch,
         (first :: rest) !! r = Some line →
         String.list_ascii_of_string line !! c = Some ch →
         (Z.of_nat (r * String.length first + c) ∈ initial_states self' ↔ ch = "x"%char) ∧
         (Z.of_nat (r * String.length first + c) ∈ goal_states self' ↔ ch = "G"%char) ∧
         (Z.of_nat (r * String.length first + c) ∈ lava_states self' ↔ ch = "L"%char) ∧
         (Z.of_nat (r * String.length first + c) ∈ wall_indices self' ↔ ch = "#"%char) ∧
         (Z.of_nat (r * String.length first + c) ∈ lemons self' ↔ ch = "l"%char) ∧
         (Z.of_nat (r * String.length first + c) ∈ apples self' ↔ ch = "a"%char) ∧
         (Z.of_nat (r * String.length first + c) ∈ melons self' ↔ ch = "m"%char)) ∧
  (∀ first rest pick self,
     (∃ line, line ∈ first :: rest ∧ String.length line ≠ String.length first) ∨
     (∃ ch, ch ∈ cells (first :: rest) ∧ legal ch = false) ∨
     "x"%char ∉ cells (first :: rest) ∨ "G"%char ∉ cells (first :: rest) →
     ∃ self',
       _create_custom_world_from_text (first :: rest) pick self
       = (Raise ValueError, self')).
Proof.
  split; [|split].
  - intros pick self.
    destruct (loader_returns "xo" ["oG"%string] pick self) as (self' & H & Ld & _).
    + reflexivity.
    + vm_compute. repeat constructor.
    + vm_compute. repeat constructor.
    + exists self'. split; [exact H|].
      rewrite (ld_x _ _ _ Ld), (ld_y _ _ _ Ld), (ld_starts _ _ _ Ld), (ld_goal _ _ _ Ld).
      repeat split; reflexivity.
  - intros first rest pick self Hlen Hlegal Hx Hg.
    destruct (loader_returns first rest pick self) as (self' & H & Ld & _);
      [by apply well_formed_rows_true|done|done|].
    exists self'. split; [exact H|]. split; [apply Ld|]. split; [apply Ld|].
    intros r c line ch Hr Hc.
    pose proof (cells_lookup _ _ r c line ch Hlen Hr Hc) as Hcell.
    rewrite (ld_starts _ _ _ Ld), (ld_goal _ _ _ Ld), (ld_lava _ _ _ Ld),
      (ld_walls _ _ _ Ld), (ld_lemons _ _ _ Ld), (ld_apples _ _ _ Ld),
      (ld_melons _ _ _ Ld).
    repeat split; try (by apply (positions_cell _ _ _ _ Hcell));
      by apply (positions_cell _ _ _ _ Hcell).
  - intros first rest pick self Hbad.
    destruct (well_formed_rows (String.length first) (first :: rest)) eqn:Hw.
    + apply well_formed_rows_true in Hw as Hw'. destruct Hw' as [Hlen Hlegal].
      destruct Hbad as [(line & Hin & Hne)|[(ch & Hin & Hill)|[Hx|Hg]]].
      * by apply Hlen in Hin.
      * apply Hlegal in Hin. congruence.
      * by apply loader_raises_no_start.
      * by apply loader_raises_no_goal.
    + by apply loader_raises_rows.
Qed.
Lemma C9_witness :
  (∃ self',
     _create_custom_world_from_text ["xo#"; "oLG"; "lam"]%string 0
       (constructed world_2x2) = (Ok tt, self') ∧
     y_max self' = Z.of_nat (length ["xo#"; "oLG"; "lam"]%string) ∧
     x_max self' = Z.of_nat (String.length "xo#") ∧
     ∀ (r c : nat) line ch,
       ["xo#"; "oLG"; "lam"]%string !! r = Some line →
       String.list_ascii_of_string line !! c = Some ch →
       (Z.of_nat (r * String.length "xo#" + c) ∈ initial_states self' ↔ ch = "x"%char) ∧
       (Z.of_nat (r * String.length "xo#" + c) ∈ goal_states self' ↔ ch = "G"%char) ∧
       (Z.of_nat (r * String.length "xo#" + c) ∈ lava_states self' ↔ ch = "L"%char) ∧
       (Z.of_nat (r * String.length "xo#" + c) ∈ wall_indices self' ↔ ch = "#"%char) ∧
       (Z.of_nat (r * String.length "xo#" + c) ∈ lemons self' ↔ ch = "l"%char) ∧
       (Z.of_nat (r * String.length "xo#" + c) ∈ apples self' ↔ ch = "a"%char) ∧
       (Z.of_nat (r * String.length "xo#" + c) ∈ melons self' ↔ ch = "m"%char)) ∧
  (∃ self',
     _create_custom_world_from_text ["xo"; "oGo"]%string 0 (constructed world_2x2)
     = (Raise ValueError, self')).
Proof.
  destruct C9_layout_loader as (_ & Hload & Hraise). split.
  - apply (Hload "xo#"%string ["oLG"; "lam"]%string 0%nat (constructed world_2x2)).
    + intros line Hin. rewrite !elem_of_cons, elem_of_nil in Hin.
      destruct Hin as [->|[->|[->|[]]]]; reflexivity.
    + apply forallb_elem. vm_compute. reflexivity.
    + vm_compute. repeat constructor.
    + vm_compute. repeat constructor.
  - apply (Hraise "xo"%string ["oGo"%string] 0%nat (constructed world_2x2)).
    left. exists "oGo"%string. split; [repeat constructor|]. vm_compute. lia.
Defined.

(** Through the constructor: the rows [xo], [oG] replace the 4x4 grid of
    the arguments by a 2x2 world. *)
Example custom_world_2x2 :
  x_max (constructed (__init__ sample_rewards text_params first_pick)) = 2 ∧
  y_max (constructed (__init__ sample_rewards text_params first_pick)) = 2 ∧
  initial_states (constructed (__init__ sample_rewards text_params first_pick)) = [0] ∧
  goal_states (constructed (__init__ sample_rewards text_params first_pick)) = [3] ∧
  is_ok (__init__ sample_rewards text_params first_pick) = true.
Proof. repeat split; vm_compute; reflexivity. Qed.

(** * Further properties of the environment *)

(** X1. The world layout: for positive dimensions [_generate_world] returns
    one coordinate pair per state id, [size] of them; state id [s] has
    column [s mod x_max] and row [s / x_max], and the cell in column [x]
    of row [y] is state id [y * x_max + x]. *)
Theorem X1_generate_world_row_major self :
  0 < x_max self → 0 < y_max self →
  ∃ w,
    _generate_world self = (Ok w, self) ∧
    Z.of_nat (length w) = size self ∧
    (∀ s, 0 ≤ s < size self → getitem w s = Ok (s mod x_max self, s / x_max self)) ∧
    (∀ x y, 0 ≤ x < x_max self → 0 ≤ y < y_max self →
       getitem w (y * x_max self + x) = Ok (x, y)).
Proof.
  intros Hx Hy. exists (fromiter_coords (x_max self) (y_max self)).
  rewrite _generate_world_run, bool_decide_eq_true_2 by done.
  split; [done|]. split; [apply fromiter_coords_length; lia|].
  assert (Hlook : ∀ s, 0 ≤ s < size self →
    getitem (fromiter_coords (x_max self) (y_max self)) s
    = Ok (s mod x_max self, s / x_max self)).
  { intros s Hs. apply getitem_nonneg; [lia|]. by apply fromiter_coords_lookup. }
  split; [exact Hlook|].
  intros x y Hxr Hyr.
  assert (Hs : 0 ≤ y * x_max self + x < size self).
  { unfold size. split; [nia|].
    assert (x_max self * (y + 1) ≤ x_max self * y_max self)
      by (apply Z.mul_le_mono_nonneg_l; lia). lia. }
  rewrite (Hlook _ Hs). do 2 f_equal.
  - rewrite Z.add_comm, Z.mod_add by lia. apply Z.mod_small. lia.
  - rewrite Z.add_comm, Z.div_add by lia. rewrite Z.div_small by lia. lia.
Qed.

Lemma X1_generate_world_row_major_witness :
  ∃ w,
    _generate_world (constructed world_2x2) = (Ok w, constructed world_2x2) ∧
    Z.of_nat (length w) = size (constructed world_2x2) ∧
    (∀ s, 0 ≤ s < size (constructed world_2x2) →
       getitem w s = Ok (s mod x_max (constructed world_2x2),
                         s / x_max (constructed world_2x2))) ∧
    (∀ x y, 0 ≤ x < x_max (constructed world_2x2) →
       0 ≤ y < y_max (constructed world_2x2) →
       getitem w (y * x_max (constructed world_2x2) + x) = Ok (x, y)).
Proof.
  apply (X1_generate_world_row_major (constructed world_2x2)); vm_compute; reflexivity.
Defined.

(** X2. Boundary respect: from a cell of the top row [UP] leaves the state
    unchanged, and likewise [RIGHT] in the last column, [DOWN] in the
    bottom row and [LEFT] in the first column. *)
Theorem X2_boundary_respect self s a care col row :
  reachable self → 0 ≤ s < size self →
  getitem (world self) s = Ok (col, row) →
  (a = UP ∧ row = 0) ∨ (a = RIGHT ∧ col = x_max self - 1) ∨
  (a = DOWN ∧ row = y_max self - 1) ∨ (a = LEFT ∧ col = 0) →
  ∃ reward d self', look_step_ahead s a care self = (Ok (s, reward, d), self').
Proof.
  intros [L E]%reachable_ok Hs Hw Hedge.
  rewrite (world_getitem _ _ L Hs) in Hw. injection Hw as <- <-.
  assert (Hr : - Z.of_nat (length (reward_matrix self)) ≤ s
               < Z.of_nat (length (reward_matrix self)))
    by (apply matrix_range; [done|lia]).
  destruct (settle_returns self s E Hr) as (r & self' & Hrun & _).
  exists r, (bool_decide (s ∈ terminal_states self)), self'.
  destruct (decide (care = true ∧ s ∈ terminal_states self)) as [[-> Ht]|Hn].
  - by rewrite (look_step_ahead_terminal _ _ _ Ht).
  - assert (Ha : 0 ≤ a < 4) by (unfold UP, RIGHT, DOWN, LEFT in *; lia).
    rewrite (look_step_ahead_move _ _ _ _ L Hs Ha).
    2:{ destruct care; [right|by left]. intros Ht. by apply Hn. }
    assert (Hstay : neighbour self a s = s).
    { unfold neighbour, UP, RIGHT, DOWN, LEFT in *.
      repeat case_bool_decide; try done; lia. }
    rewrite Hstay. unfold blocked.
    destruct (bool_decide (s ∈ wall_indices self)); exact Hrun.
Qed.

Lemma X2_boundary_respect_witness :
  ∃ reward d self',
    look_step_ahead 1 RIGHT true (constructed world_2x2) = (Ok (1, reward, d), self').
Proof.
  apply (X2_boundary_respect (constructed world_2x2) 1 RIGHT true 1 0).
  - apply reachable_world_2x2.
  - vm_compute. split; [discriminate|reflexivity].
  - vm_compute. reflexivity.
  - right. left. split; vm_compute; reflexivity.
Defined.

(** X3. One step is one cell: from a cell of the grid that is not terminal (or
    with [care_about_terminal] false), a direction either leaves the
    state as it is or leads to the cell whose coordinates are those of
    the state plus the unit step of that direction. *)
Theorem X3_moves_to_adjacent_cell self s a care col row :
  reachable self → 0 ≤ s < size self → a ∈ [UP; RIGHT; DOWN; LEFT] →
  care = false ∨ s ∉ terminal_states self →
  getitem (world self) s = Ok (col, row) →
  ∃ next_state reward d self',
    look_step_ahead s a care self = (Ok (next_state, reward, d), self') ∧
    (next_state = s ∨
     getitem (world self) next_state
     = Ok (col + (direction a).1, row + (direction a).2)).
Proof.
  intros R Hs Ha Hc Hw. pose proof R as [L E]%reachable_ok.
  assert (Ha' : 0 ≤ a < 4).
  { unfold UP, RIGHT, DOWN, LEFT in Ha.
    rewrite !elem_of_cons, elem_of_nil in Ha. lia. }
  rewrite (world_getitem _ _ L Hs) in Hw. injection Hw as <- <-.
  pose proof (lo_x _ L) as Hx.
  set (ns := blocked self s (neighbour self a s)).
  assert (Hns : 0 ≤ ns < size self).
  { apply blocked_range; [done|]. by apply neighbour_range. }
  destruct (settle_returns self ns E) as (r & self' & Hrun & _).
  { apply matrix_range; [done|lia]. }
  exists ns, r, (bool_decide (ns ∈ terminal_states self)), self'.
  split; [by rewrite (look_step_ahead_move _ _ _ _ L Hs Ha' Hc)|].
  destruct (decide (ns = s)) as [|Hne]; [by left|right].
  rewrite (world_getitem _ _ L Hns). f_equal.
  assert (Hnb : ns = neighbour self a s).
  { unfold ns, blocked in *. by case_bool_decide. }
  rewrite Hnb in Hne |- *. clear Hnb Hns Hrun. clearbody ns.
  unfold neighbour, direction, UP, RIGHT, DOWN, LEFT in *.
  pose proof (Z.mod_pos_bound s (x_max self) Hx) as Hm.
  repeat case_bool_decide; try done; try lia; cbn [fst snd]; f_equal.
  - replace (s - x_max self) with (s + (-1) * x_max self) by lia.
    rewrite Z.mod_add by lia. lia.
  - replace (s - x_max self) with (s + (-1) * x_max self) by lia.
    rewrite Z.div_add by lia. lia.
  - symmetry. apply (Z.mod_unique_pos _ _ (s / x_max self)); [lia|].
    pose proof (Z.div_mod s (x_max self) ltac:(lia)). lia.
  - symmetry. apply (Z.div_unique_pos _ _ _ (s mod x_max self + 1)); [lia|].
    pose proof (Z.div_mod s (x_max self) ltac:(lia)). lia.
  - replace (s + x_max self) with (s + 1 * x_max self) by lia.
    rewrite Z.mod_add by lia. lia.
  - replace (s + x_max self) with (s + 1 * x_max self) by lia.
    rewrite Z.div_add by lia. lia.
  - symmetry. apply (Z.mod_unique_pos _ _ (s / x_max self)); [lia|].
    pose proof (Z.div_mod s (x_max self) ltac:(lia)). lia.
  - symmetry. apply (Z.div_unique_pos _ _ _ (s mod x_max self - 1)); [lia|].
    pose proof (Z.div_mod s (x_max self) ltac:(lia)). lia.
Qed.

Lemma X3_moves_to_adjacent_cell_witness :
  ∃ next_state reward d self',
    look_step_ahead 0 DOWN true (constructed world_2x2)
    = (Ok (next_state, reward, d), self') ∧
    (next_state = 0 ∨
     getitem (world (constructed world_2x2)) next_state
     = Ok (0 + (direction DOWN).1, 0 + (direction DOWN).2)).
Proof.
  apply (X3_moves_to_adjacent_cell (constructed world_2x2) 0 DOWN true 0 0).
  - apply reachable_world_2x2.
  - vm_compute. split; [discriminate|reflexivity].
  - vm_compute. repeat constructor.
  - right. vm_compute. intros H. inversion H as [|? ? ? H']. inversion H'.
  - vm_compute. reflexivity.
Defined.
Section CallFrames.

Lemma collects_same_layout self self' : collects self self' → same_layout self self'.
Proof. intros (cl & ca & cm & m & -> & _ & _ & _ & Hlen). by repeat split. Qed.

Lemma same_layout_refl self : same_layout self self.
Proof. by repeat split. Qed.

Lemma same_layout_trans self1 self2 self3 :
  same_layout self1 self2 → same_layout self2 self3 → same_layout self1 self3.
Proof.
  unfold same_layout. intros H1 H2. destruct_and!.
  repeat split; congruence.
Qed.

Lemma step_cases self a :
  episode_ok self →
  (∃ e, _step a self = (Raise e, set_previous_state (current_state self) self)) ∨
  (∃ ns r d self1,
      look_step_ahead (current_state self) a true
        (set_previous_state (current_state self) self) = (Ok (ns, r, d), self1) ∧
      collects (set_previous_state (current_state self) self) self1 ∧
      ((_step a self).2 = set_done d (set_current_state ns self1) ∨
       ∃ c, (_step a self).2
            = set_last_n_states (record_visit c (last_n_states self1))
                (set_done d (set_current_state ns self1)))).
Proof.
  intros E.
  set (self0 := set_previous_state (current_state self) self).
  assert (E0 : episode_ok self0) by (destruct E; by constructor).
  destruct (look_step_ahead_cases self0 (current_state self) a true E0)
    as [[e Hrun]|(ns & r & self1 & Hrun & Hr & Hns)].
  - left. exists e. by apply _step_raises.
  - right. exists ns, r, (bool_decide (ns ∈ terminal_states self0)), self1.
    split; [done|].
    pose proof (reward_function_collects self0 ns true E0) as Hc.
    rewrite Hr in Hc. split; [exact Hc|].
    destruct (getitem (world self1) ns) as [c|e] eqn:Hw.
    + right. exists c. by rewrite (_step_returns _ _ _ _ _ _ _ Hrun Hw).
    + left. unfold _step.
      unfold bind at 1. unfold modify at 1. unfold bind at 1. unfold gets at 1.
      cbn [current_state set_previous_state]. fold self0.
      rewrite (bind_Ok _ _ _ _ _ Hrun).
      unfold bind, modify, gets, lift. cbn. by rewrite Hw.
Qed.

Lemma exec_same_layout c self :
  episode_ok self → same_layout self (exec c self).
Proof.
  intros E. destruct c as [a|pick|s a care|ns c]; unfold exec.
  - destruct (step_cases self a E)
      as [[e ->]|(ns & r & d & self1 & _ & Hc & [->|[c ->]])].
    + by repeat split.
    + apply collects_same_layout in Hc.
      eapply same_layout_trans; [|eapply same_layout_trans; [exact Hc|]];
        by repeat split.
    + apply collects_same_layout in Hc.
      eapply same_layout_trans; [|eapply same_layout_trans; [exact Hc|]];
        by repeat split.
  - destruct (_reset_cases self pick) as [->|(s & m & _ & Hlen & ->)];
      by repeat split.
  - destruct (look_step_ahead_cases self s a care E)
      as [[e ->]|(ns & r & self1 & -> & Hr & _)]; [apply same_layout_refl|].
    pose proof (reward_function_collects self ns true E) as Hc.
    rewrite Hr in Hc. by apply collects_same_layout.
  - apply collects_same_layout. by apply reward_function_collects.
Qed.

End CallFrames.

(** X4. The layout and the entity registry are fixed by construction: no
    sequence of [step], [reset], [look_step_ahead] and [reward_function]
    calls, returning or raising, changes the grid dimensions, the world,
    the walls, the goal, lava and start states, the fruit templates or
    the size of the reward matrix. *)
Theorem X4_calls_keep_layout self calls :
  reachable self → same_layout self (after calls self).
Proof.
  revert self. induction calls as [|c calls IH]; intros self R.
  - apply same_layout_refl.
  - cbn. eapply same_layout_trans.
    + apply exec_same_layout. by apply reachable_ok.
    + apply IH. by constructor.
Qed.

Lemma X4_calls_keep_layout_witness :
  same_layout (constructed world_2x2)
    (after [Step RIGHT; LookStepAhead 1 DOWN false; Reset 0; Step 9]
       (constructed world_2x2)).
Proof. apply X4_calls_keep_layout. apply reachable_world_2x2. Defined.

(** X5. A look-ahead is hypothetical but for the fruit: whether it returns
    or raises, [look_step_ahead] leaves every attribute as it is except
    the working fruit lists, which can only lose elements, and the
    entries of the reward matrix. *)
Theorem X5_look_step_ahead_frame self s a care :
  reachable self → collects self (exec (LookStepAhead s a care) self).
Proof.
  intros [L E]%reachable_ok. unfold exec.
  destruct (look_step_ahead_cases self s a care E)
    as [[e ->]|(ns & r & self1 & -> & Hr & _)]; [apply collects_refl|].
  pose proof (reward_function_collects self ns true E) as Hc.
  by rewrite Hr in Hc.
Qed.

Lemma X5_look_step_ahead_frame_witness :
  collects (constructed world_2x2) (exec (LookStepAhead 0 RIGHT true) (constructed world_2x2)).
Proof. apply X5_look_step_ahead_frame. apply reachable_world_2x2. Defined.

(** X6. [reset] always returns on a reachable environment: it draws one of
    the start states, makes it the current, previous and initial state,
    clears [done] and the history, and puts every fruit of the templates
    back into the working lists; the layout is untouched. *)
Theorem X6_reset_returns self pick :
  reachable self →
  ∃ s self',
    _reset pick self = (Ok s, self') ∧
    s ∈ initial_states self ∧
    current_state self' = s ∧ previous_state self' = s ∧ initial_state self' = s ∧
    done self' = false ∧ last_n_states self' = [] ∧
    current_lemons self' = lemons self ∧
    current_apples self' = apples self ∧
    current_melons self' = melons self ∧
    same_layout self self'.
Proof.
  intros [L E]%reachable_ok.
  destruct (_reset_returns self pick) as (s & m & Hs & Hlen & ->).
  - apply L.
  - apply Forall_forall. intros x Hx. apply matrix_range; [done|].
    apply elem_of_app in Hx as [Hx|Hx]; [by apply (lo_fruit _ L)|by apply (lo_terminal _ L)].
  - exists s. eexists. split; [reflexivity|]. by repeat split.
Qed.

Lemma X6_reset_returns_witness :
  ∃ s self',
    _reset 7 terminated_2x2 = (Ok s, self') ∧
    s ∈ initial_states terminated_2x2 ∧
    current_state self' = s ∧ previous_state self' = s ∧ initial_state self' = s ∧
    done self' = false ∧ last_n_states self' = [] ∧
    current_lemons self' = lemons terminated_2x2 ∧
    current_apples self' = apples terminated_2x2 ∧
    current_melons self' = melons terminated_2x2 ∧
    same_layout terminated_2x2 self'.
Proof.
  apply (X6_reset_returns terminated_2x2 7).
  apply reachable_after, reachable_world_2x2.
Defined.

(** X7. [done] is only ever true on a terminal state: in every reachable
    environment with [done] set, the current state is a goal or a lava
    state. *)
Theorem X7_done_means_terminal self :
  reachable self → done self = true →
  current_state self ∈ goal_states self ∨ current_state self ∈ lava_states self.
Proof.
  intros [L E]%reachable_ok Hd.
  destruct (ep_done _ E Hd) as [Ht _].
  unfold terminal_states in Ht. rewrite elem_of_app in Ht. tauto.
Qed.

Lemma X7_done_means_terminal_witness :
  current_state terminated_2x2 ∈ goal_states terminated_2x2 ∨
  current_state terminated_2x2 ∈ lava_states terminated_2x2.
Proof.
  apply (X7_done_means_terminal terminated_2x2).
  - apply reachable_after, reachable_world_2x2.
  - vm_compute. reflexivity.
Defined.

(** X8. Collecting only removes: in every reachable environment each working
    fruit list is a sublist of its template, and no state id occurs twice
    among the working fruit. *)
Theorem X8_working_fruit_within_templates self :
  reachable self →
  current_apples self `sublist_of` apples self ∧
  current_lemons self `sublist_of` lemons self ∧
  current_melons self `sublist_of` melons self ∧
  NoDup (current_apples self ++ current_lemons self ++ current_melons self).
Proof.
  intros [L E]%reachable_ok.
  split; [apply E|]. split; [apply E|]. split; [apply E|].
  by apply current_fruit_NoDup.
Qed.

Lemma X8_working_fruit_within_templates_witness :
  current_apples (after [Step RIGHT] (apple_world sample_rewards))
    `sublist_of` apples (after [Step RIGHT] (apple_world sample_rewards)) ∧
  current_lemons (after [Step RIGHT] (apple_world sample_rewards))
    `sublist_of` lemons (after [Step RIGHT] (apple_world sample_rewards)) ∧
  current_melons (after [Step RIGHT] (apple_world sample_rewards))
    `sublist_of` melons (after [Step RIGHT] (apple_world sample_rewards)) ∧
  NoDup (current_apples (after [Step RIGHT] (apple_world sample_rewards)) ++
         current_lemons (after [Step RIGHT] (apple_world sample_rewards)) ++
         current_melons (after [Step RIGHT] (apple_world sample_rewards))).
Proof.
  apply X8_working_fruit_within_templates.
  apply reachable_after. apply reachable_constructed. vm_compute. reflexivity.
Defined.
Section Started.

Lemma init_fields_started cfg p pick self :
  init_fields p pick (blank cfg) = (Ok tt, self) → started self.
Proof.
  intros H. unfold init_fields in H.
  rewrite !bind_modify in H.
  unfold bind at 1 in H. rewrite _generate_world_run in H. env_simpl.
  destruct (bool_decide (0 < (grid_shape p).2 ∧ 0 < (grid_shape p).1));
    [|discriminate].
  rewrite !bind_modify, bind_gets, bind_lift in H. env_simpl.
  destruct (choice pick _) as [s|] eqn:Hs; [|discriminate].
  apply choice_elem in Hs.
  rewrite !bind_modify, bind_gets, !bind_modify, bind_gets in H.
  unfold world_size in H. env_simpl.
  apply bind_Ok_inv in H as ([] & s1 & Hl & H).
  rewrite lava_check_run in Hl.
  destruct (bool_decide (Forall _ _)) in Hl; [|discriminate].
  injection Hl as <-.
  rewrite !bind_modify in H. env_simpl.
  apply bind_Ok_inv in H as ([] & s2 & Hw & H).
  apply _generate_walls_Ok in Hw as [_ ->]; [|apply length_replicate].
  rewrite bind_modify in H. env_simpl.
  apply bind_Ok_inv in H as ([] & s3 & Hg & H).
  apply _generate_reward_matrix_Ok_inv in Hg as (_ & m3 & -> & _).
  rewrite bind_gets in H.
  apply bind_Ok_inv in H as ([] & s4 & Hgs & H).
  apply for_set_Ok_inv in Hgs as (_ & m4 & -> & _).
  rewrite bind_gets in H.
  apply bind_Ok_inv in H as ([] & s5 & Hls & H).
  apply for_set_Ok_inv in Hls as (_ & m5 & -> & _).
  rewrite bind_modify in H. unfold modify in H. injection H as <-.
  constructor; env_simpl; try reflexivity. exact Hs.
Qed.

Lemma loaded_started width lines self : loaded width lines self → started self.
Proof. intros Ld. constructor; apply Ld. Qed.

Lemma init_Ok_started cfg p picks self :
  __init__ cfg p picks = Ok self → started self.
Proof.
  intros H.
  pose proof (init_Ok_inv _ _ _ _ H) as ((self1 & H1 & _ & Heq) & _ & _ & _ & Hm & Hc).
  destruct (random_maze p) as [lines|] eqn:Em.
  - destruct (Hm lines eq_refl) as (first & _ & Ld). by eapply loaded_started.
  - destruct (custom_world_fp p) as [lines|] eqn:Ec.
    + destruct (Hc lines eq_refl eq_refl) as (first & _ & Ld).
      by eapply loaded_started.
    + rewrite (Heq eq_refl eq_refl). by eapply init_fields_started.
Qed.

End Started.
Section Standing.

Lemma registry_ok_same_layout self self' :
  same_layout self self' → registry_ok self → registry_ok self'.
Proof.
  unfold same_layout, registry_ok, fruit. intros H R. destruct_and!.
  repeat match goal with H : _ self' = _ self |- _ => rewrite H; clear H end.
  by repeat split.
Qed.

Lemma init_registry_ok cfg p picks self :
  __init__ cfg p picks = Ok self → registry_ok self.
Proof.
  intros H.
  pose proof (init_Ok_inv _ _ _ _ H) as (_ & P & C & _).
  unfold collision_free, current_fruit in C. unfold registry_ok, fruit.
  rewrite (pl_current_lemons _ P), (pl_current_apples _ P),
    (pl_current_melons _ P) in C.
  destruct_and!. by repeat split.
Qed.

Lemma reachable_registry_ok self : reachable self → registry_ok self.
Proof.
  induction 1 as [cfg p picks self H|c self R IH].
  - by eapply init_registry_ok.
  - eapply registry_ok_same_layout; [|exact IH].
    apply exec_same_layout. by apply reachable_ok.
Qed.

(** The state a look-ahead settles on is the given one, or a cell the
    wall grid does not mark. *)
Lemma look_step_ahead_next self s a care ns r d self' :
  layout_ok self →
  look_step_ahead s a care self = (Ok (ns, r, d), self') →
  ns = s ∨ ns ∉ wall_indices self.
Proof.
  intros L H.
  assert (Hwalk : ∀ c self1,
    (f <- lift (getitem action_state_to_next_state a) ;;
     next_state <- f s ;;
     w <- _is_wall next_state ;;
     ret (if negb w then next_state else s)) self = (Ok c, self1) →
    c = s ∨ c ∉ wall_indices self).
  { intros c self1 Hw.
    apply bind_Ok_inv in Hw as (f & s1 & Hf & Hw).
    unfold lift in Hf. injection Hf as Hf <-.
    apply bind_Ok_inv in Hw as (n & s2 & Hn & Hw).
    apply getitem_elem in Hf.
    pose proof (closures_read_only f s self Hf) as Hro.
    rewrite Hn in Hro. cbn in Hro. subst s2.
    apply bind_Ok_inv in Hw as (w & s3 & Hiw & Hw).
    unfold ret in Hw. injection Hw as <- <-.
    destruct w; cbn; [by left|]. right. intros Hin.
    pose proof (lo_walls _ L _ Hin) as Hr.
    rewrite (_is_wall_run _ _ L Hr) in Hiw.
    rewrite bool_decide_eq_true_2 in Hiw by done. discriminate. }
  unfold look_step_ahead in H.
  apply bind_Ok_inv in H as (c & s1 & Hc & H).
  assert (Hns : c = ns).
  { apply bind_Ok_inv in H as (r' & s2 & _ & H).
    apply bind_Ok_inv in H as (d' & s3 & _ & H).
    unfold ret in H. by injection H as -> _ _ _. }
  subst c. destruct care; [|by eapply Hwalk].
  apply bind_Ok_inv in Hc as (t & s2 & Ht & Hc).
  rewrite is_terminal_run in Ht. injection Ht as <- <-.
  case_bool_decide.
  - unfold ret in Hc. injection Hc as -> _. by left.
  - by eapply Hwalk.
Qed.

Lemma standing_init cfg p picks self :
  __init__ cfg p picks = Ok self →
  initial_state self ∈ initial_states self ∧
  (current_state self ∉ wall_indices self) ∧
  (previous_state self ∉ wall_indices self).
Proof.
  intros H. pose proof (init_Ok_started _ _ _ _ H) as St.
  pose proof (init_registry_ok _ _ _ _ H) as (_ & _ & _ & _ & _ & Hw & _).
  rewrite (st_current _ St), (st_previous _ St).
  pose proof (st_start _ St) as Hs.
  rewrite Forall_forall in Hw. auto.
Qed.

Lemma standing_exec c self :
  layout_ok self → episode_ok self → registry_ok self →
  initial_state self ∈ initial_states self ∧
  (current_state self ∉ wall_indices self) ∧
  (previous_state self ∉ wall_indices self) →
  initial_state (exec c self) ∈ initial_states (exec c self) ∧
  (current_state (exec c self) ∉ wall_indices (exec c self)) ∧
  (previous_state (exec c self) ∉ wall_indices (exec c self)).
Proof.
  intros L E (_ & _ & _ & _ & _ & Hw & _) (Hi & Hc & Hp).
  rewrite Forall_forall in Hw.
  destruct c as [a|pick|s a care|ns c]; unfold exec.
  - set (self0 := set_previous_state (current_state self) self).
    assert (L0 : layout_ok self0) by (destruct L; by constructor).
    destruct (step_cases self a E)
      as [[e ->]|(ns & r & d & self1 & Hrun & Hcol & Hfin)].
    + by cbn.
    + fold self0 in Hrun, Hcol.
      destruct (look_step_ahead_next _ _ _ _ _ _ _ _ L0 Hrun) as [->|Hns];
        destruct Hcol as (cl & ca & cm & m & -> & _);
        destruct Hfin as [->|[c ->]]; by cbn.
  - destruct (_reset_cases self pick) as [->|(s & m & Hs & _ & ->)]; cbn; auto.
  - destruct (look_step_ahead_cases self s a care E)
      as [[e ->]|(ns & r & self1 & -> & Hr & _)]; [done|].
    pose proof (reward_function_collects self ns true E) as Hcol.
    rewrite Hr in Hcol. cbn [snd] in Hcol |- *.
    by destruct Hcol as (cl & ca & cm & m & -> & _).
  - pose proof (reward_function_collects self ns c E) as Hcol.
    destruct Hcol as (cl & ca & cm & m & Heq & _). by rewrite Heq.
Qed.

Lemma reachable_standing self :
  reachable self →
  initial_state self ∈ initial_states self ∧
  (current_state self ∉ wall_indices self) ∧
  (previous_state self ∉ wall_indices self).
Proof.
  induction 1 as [cfg p picks self H|c self R IH].
  - by eapply standing_init.
  - destruct (reachable_ok _ R) as [L E].
    apply standing_exec; auto. by apply reachable_registry_ok.
Qed.

End Standing.
Section StepEffect.

Lemma record_visit_length c h :
  (length h ≤ num_previous_states_to_store)%nat →
  (length (record_visit c h) ≤ num_previous_states_to_store)%nat.
Proof.
  intros H. unfold record_visit. case_bool_decide as Hc.
  - destruct h as [|y h]; cbn in H |- *; [lia|].
    rewrite length_app. cbn. lia.
  - rewrite length_app in Hc |- *. cbn in Hc |- *. lia.
Qed.

Lemma record_visit_elem x c h : x ∈ record_visit c h → x = c ∨ x ∈ h.
Proof.
  unfold record_visit. intros H.
  assert (Hin : x ∈ h ++ [c]).
  { case_bool_decide; [|done].
    destruct h; cbn in H |- *; [by apply elem_of_nil in H|].
    by apply elem_of_cons; right. }
  apply elem_of_app in Hin as [?|Hin]; [by right|left].
  by apply list_elem_of_singleton in Hin.
Qed.

Lemma record_visit_last c h : last (record_visit c h) = Some c.
Proof.
  unfold record_visit. case_bool_decide as Hc; [|apply last_snoc].
  destruct h as [|y h]; cbn in Hc |- *.
  - unfold num_previous_states_to_store in Hc. lia.
  - apply last_snoc.
Qed.

(** One [step]: it raises from the look-ahead with only
    [previous_state] set, or returns what the look-ahead returns and
    records the cell it lands on. *)
Lemma step_effect self a :
  layout_ok self → episode_ok self →
  (∃ e, _step a self = (Raise e, set_previous_state (current_state self) self)) ∨
  (∃ ns r self1 c,
      look_step_ahead (current_state self) a true
        (set_previous_state (current_state self) self)
      = (Ok (ns, r, bool_decide (ns ∈ terminal_states self)), self1) ∧
      collects (set_previous_state (current_state self) self) self1 ∧
      reward_function ns true (set_previous_state (current_state self) self)
      = (Ok r, self1) ∧
      getitem (reward_matrix self) ns = Ok r ∧
      getitem (world self) ns = Ok c ∧
      _step a self
      = (Ok (ns, r, bool_decide (ns ∈ terminal_states self)),
         set_last_n_states (record_visit c (last_n_states self))
           (set_done (bool_decide (ns ∈ terminal_states self))
              (set_current_state ns self1)))).
Proof.
  intros L E.
  set (self0 := set_previous_state (current_state self) self).
  assert (E0 : episode_ok self0) by (destruct E; by constructor).
  destruct (look_step_ahead_cases self0 (current_state self) a true E0)
    as [[e Hrun]|(ns & r & self1 & Hrun & Hr & Hns)].
  - left. exists e. by apply _step_raises.
  - right.
    pose proof (reward_function_collects self0 ns true E0) as Hc.
    rewrite Hr in Hc. cbn [snd] in Hc.
    assert (Hns' : - Z.of_nat (length (world self)) ≤ ns
                   < Z.of_nat (length (world self))).
    { rewrite (world_length _ L), <- (lo_matrix _ L). exact Hns. }
    destruct (getitem_in_range _ _ Hns') as [c Hw].
    destruct (reward_function_returns self0 ns E0 Hns)
      as (r' & self1' & Hr' & Hget & _).
    rewrite Hr in Hr'. injection Hr' as <- <-.
    exists ns, r, self1, c. split; [exact Hrun|]. split; [exact Hc|].
    split; [exact Hr|]. split; [exact Hget|]. split; [exact Hw|].
    assert (Hw1 : getitem (world self1) ns = Ok c).
    { destruct Hc as (cl & ca & cm & m & -> & _). exact Hw. }
    rewrite (_step_returns _ _ _ _ _ _ _ Hrun Hw1).
    destruct Hc as (cl & ca & cm & m & -> & _). reflexivity.
Qed.

(** A look-ahead from a cell of the grid settles on a cell of the grid. *)
Lemma look_step_ahead_on_grid self s a care ns r d self' :
  layout_ok self → 0 ≤ s < size self →
  look_step_ahead s a care self = (Ok (ns, r, d), self') →
  0 ≤ ns < size self.
Proof.
  intros L Hs H.
  assert (Hsettle : ∀ c,
    (reward <- reward_function c true ;;
     d <- is_terminal c ;; ret (c, reward, d)) self = (Ok (ns, r, d), self') →
    c = ns).
  { intros c Hc.
    apply bind_Ok_inv in Hc as (r' & s2 & _ & Hc).
    apply bind_Ok_inv in Hc as (d' & s3 & _ & Hc).
    unfold ret in Hc. by injection Hc as -> _ _ _. }
  destruct (decide (care = true ∧ s ∈ terminal_states self)) as [[-> Ht]|Hn].
  - rewrite (look_step_ahead_terminal _ _ _ Ht) in H.
    by rewrite <- (Hsettle _ H).
  - assert (Hcare : care = false ∨ s ∉ terminal_states self).
    { destruct care; [right|by left]. intros Ht. by apply Hn. }
    destruct (decide (0 ≤ a < 4)) as [Ha|Ha].
    + rewrite (look_step_ahead_move _ _ _ _ L Hs Ha Hcare) in H.
      rewrite <- (Hsettle _ H).
      apply blocked_range; [done|]. apply neighbour_range; [apply L|done].
    + destruct (decide (-4 ≤ a < 0)) as [Ha'|Ha'].
      * rewrite (look_step_ahead_move_negative _ _ _ _ L Hs Ha' Hcare) in H.
        rewrite <- (Hsettle _ H).
        apply blocked_range; [done|]. apply neighbour_range; [apply L|done].
      * rewrite (look_step_ahead_bad_action _ _ _ _) in H; [discriminate| |done].
        lia.
Qed.

End StepEffect.
Section Episode.

Lemma history_exec c self :
  layout_ok self → episode_ok self → history_ok self → history_ok (exec c self).
Proof.
  intros L E (Hlen & Hin & Hlast).
  destruct c as [a|pick|s a care|ns c]; unfold exec.
  - destruct (step_effect self a L E)
      as [[e ->]|(ns & r & self1 & c & _ & Hcol & _ & _ & Hw & ->)].
    + by repeat split.
    + destruct Hcol as (cl & ca & cm & m & -> & _).
      cbn [snd]. unfold history_ok. env_simpl.
      unfold with_collection. env_simpl.
      split; [by apply record_visit_length|]. split.
      * intros x [->|Hx]%record_visit_elem; [by eapply getitem_elem|auto].
      * intros x Hx. rewrite record_visit_last in Hx. by injection Hx as <-.
  - destruct (_reset_cases self pick) as [->|(s & m & _ & _ & ->)].
    + by repeat split.
    + unfold history_ok. env_simpl. split; [cbn; lia|].
      split; [by intros x Hx%elem_of_nil|done].
  - destruct (look_step_ahead_cases self s a care E)
      as [[e ->]|(ns & r & self1 & -> & Hr & _)]; [by repeat split|].
    pose proof (reward_function_collects self ns true E) as Hcol.
    rewrite Hr in Hcol. cbn [snd] in Hcol |- *.
    destruct Hcol as (cl & ca & cm & m & -> & _). by repeat split.
  - pose proof (reward_function_collects self ns c E) as Hcol.
    destruct Hcol as (cl & ca & cm & m & Heq & _). rewrite Heq.
    by repeat split.
Qed.

Lemma reachable_history self : reachable self → history_ok self.
Proof.
  induction 1 as [cfg p picks self H|c self R IH].
  - pose proof (init_Ok_started _ _ _ _ H) as St.
    unfold history_ok. rewrite (st_history _ St).
    split; [cbn; lia|]. split; [by intros x Hx%elem_of_nil|done].
  - destruct (reachable_ok _ R) as [L E]. by apply history_exec.
Qed.

Lemma same_layout_size self self' : same_layout self self' → size self' = size self.
Proof. intros (Hx & Hy & _). unfold size. by rewrite Hx, Hy. Qed.

Lemma grid_exec c self :
  layout_ok self → episode_ok self → starts_on_grid self →
  0 ≤ current_state self < size self ∧ 0 ≤ previous_state self < size self →
  0 ≤ current_state (exec c self) < size self ∧
  0 ≤ previous_state (exec c self) < size self.
Proof.
  intros L E Hs [Hc Hp].
  destruct c as [a|pick|s a care|ns c]; unfold exec.
  - set (self0 := set_previous_state (current_state self) self).
    assert (L0 : layout_ok self0) by (destruct L; by constructor).
    destruct (step_effect self a L E)
      as [[e ->]|(ns & r & self1 & c & Hrun & Hcol & _ & _ & _ & ->)].
    + by cbn.
    + fold self0 in Hrun, Hcol.
      pose proof (look_step_ahead_on_grid _ _ _ _ _ _ _ _ L0 Hc Hrun) as Hns.
      destruct Hcol as (cl & ca & cm & m & -> & _). by cbn.
  - unfold starts_on_grid in Hs. rewrite Forall_forall in Hs.
    destruct (_reset_cases self pick) as [->|(s & m & Hin & _ & ->)]; cbn; auto.
  - destruct (look_step_ahead_cases self s a care E)
      as [[e ->]|(ns & r & self1 & -> & Hr & _)]; [done|].
    pose proof (reward_function_collects self ns true E) as Hcol.
    rewrite Hr in Hcol. cbn [snd] in Hcol |- *.
    by destruct Hcol as (cl & ca & cm & m & -> & _).
  - pose proof (reward_function_collects self ns c E) as Hcol.
    destruct Hcol as (cl & ca & cm & m & Heq & _). by rewrite Heq.
Qed.

Lemma reachable_on_grid self :
  reachable self → starts_on_grid self →
  0 ≤ current_state self < size self ∧ 0 ≤ previous_state self < size self.
Proof.
  induction 1 as [cfg p picks self H|c self R IH]; intros Hs.
  - pose proof (init_Ok_started _ _ _ _ H) as St.
    rewrite (st_current _ St), (st_previous _ St).
    unfold starts_on_grid in Hs. rewrite Forall_forall in Hs.
    split; apply Hs, (st_start _ St).
  - destruct (reachable_ok _ R) as [L E].
    pose proof (exec_same_layout c self E) as Hsame.
    pose proof (same_layout_size _ _ Hsame) as Hsize.
    assert (Hs' : starts_on_grid self).
    { unfold starts_on_grid in *. rewrite Hsize in Hs.
      destruct Hsame as (_ & _ & _ & _ & _ & _ & _ & _ & _ & _ & Hi & _).
      by rewrite Hi in Hs. }
    rewrite Hsize. apply grid_exec; auto.
Qed.

End Episode.

(** X9. The constructor's collision check holds for good: in every reachable
    environment no state id occurs twice among the walls, the start
    states, the goal states or the lava states, no fruit occurs twice
    among all the fruit, and no start, goal, lava or fruit state is a
    wall. *)
Theorem X9_registry_stays_collision_free self :
  reachable self → registry_ok self.
Proof. apply reachable_registry_ok. Qed.

Lemma X9_registry_stays_collision_free_witness :
  registry_ok (after [Step RIGHT; Reset 3] (apple_world sample_rewards)).
Proof.
  apply X9_registry_stays_collision_free.
  apply reachable_after. apply reachable_constructed. vm_compute. reflexivity.
Defined.

(** X10. The agent is never on a wall: in every reachable environment the
    episode's start state is one of the start states, and neither the
    current nor the previous state is a wall id. *)
Theorem X10_never_on_a_wall self :
  reachable self →
  initial_state self ∈ initial_states self ∧
  (current_state self ∉ wall_indices self) ∧
  (previous_state self ∉ wall_indices self).
Proof. apply reachable_standing. Qed.

Lemma X10_never_on_a_wall_witness :
  initial_state terminated_2x2 ∈ initial_states terminated_2x2 ∧
  (current_state terminated_2x2 ∉ wall_indices terminated_2x2) ∧
  (previous_state terminated_2x2 ∉ wall_indices terminated_2x2).
Proof.
  apply X10_never_on_a_wall. apply reachable_after, reachable_world_2x2.
Defined.

(** X11. The visit history is a bounded window: in every reachable
    environment it holds at most [num_previous_states_to_store]
    coordinates, each a cell of the world, and when it is not empty its
    newest entry is the coordinate pair of the current state. *)
Theorem X11_history_bounded self :
  reachable self → history_ok self.
Proof. apply reachable_history. Qed.

Lemma X11_history_bounded_witness : history_ok terminated_2x2.
Proof.
  apply X11_history_bounded. apply reachable_after, reachable_world_2x2.
Defined.

(** X12. Start states are not checked against the grid, but when they all lie
    on it the agent stays on it: the current and the previous state of
    every environment reached from there are in [0, size). *)
Theorem X12_agent_stays_on_grid self :
  reachable self → starts_on_grid self →
  0 ≤ current_state self < size self ∧ 0 ≤ previous_state self < size self.
Proof. apply reachable_on_grid. Qed.

Lemma X12_agent_stays_on_grid_witness :
  0 ≤ current_state terminated_2x2 < size terminated_2x2 ∧
  0 ≤ previous_state terminated_2x2 < size terminated_2x2.
Proof.
  apply X12_agent_stays_on_grid.
  - apply reachable_after, reachable_world_2x2.
  - unfold starts_on_grid. apply (bool_decide_unpack _). vm_compute. exact I.
Defined.
Section StepClosedForm.

Lemma mod_4_nonneg a : 0 ≤ a < 4 → a mod 4 = a.
Proof. intros H. by apply Z.mod_small. Qed.

Lemma mod_4_neg a : -4 ≤ a < 0 → a mod 4 = a + 4.
Proof.
  intros H. symmetry. apply (Z.mod_unique_pos a 4 (-1) (a + 4)); lia.
Qed.

(** The look-ahead [step] makes, in closed form. *)
Lemma look_step_ahead_destination self a :
  layout_ok self → episode_ok self →
  0 ≤ current_state self < size self → -4 ≤ a < 4 →
  0 ≤ destination self a < size self ∧
  ∃ r self1,
    look_step_ahead (current_state self) a true
      (set_previous_state (current_state self) self)
    = (Ok (destination self a, r,
           bool_decide (destination self a ∈ terminal_states self)), self1) ∧
    reward_function (destination self a) true
      (set_previous_state (current_state self) self) = (Ok r, self1).
Proof.
  intros L E Hc Ha.
  set (self0 := set_previous_state (current_state self) self).
  assert (L0 : layout_ok self0) by (destruct L; by constructor).
  assert (E0 : episode_ok self0) by (destruct E; by constructor).
  assert (Hd : 0 ≤ destination self a < size self).
  { unfold destination. case_bool_decide; [done|].
    apply blocked_range; [done|]. apply neighbour_range; [apply L|done]. }
  split; [exact Hd|].
  destruct (settle_returns self0 (destination self a) E0) as (r & self1 & Hrun & Hr).
  { apply (matrix_range self0 L0). change (size self0) with (size self). lia. }
  exists r, self1. split; [|exact Hr].
  change (terminal_states self0) with (terminal_states self) in Hrun.
  rewrite <- Hrun. clear Hrun Hr Hd. unfold destination.
  destruct (decide (current_state self ∈ terminal_states self)) as [Ht|Ht].
  - rewrite (bool_decide_eq_true_2 _ Ht). by apply look_step_ahead_terminal.
  - rewrite (bool_decide_eq_false_2 _ Ht).
    destruct (decide (0 ≤ a)) as [Hpos|Hneg].
    + rewrite mod_4_nonneg by lia.
      apply (look_step_ahead_move self0); [done|done|lia|by right].
    + rewrite mod_4_neg by lia.
      apply (look_step_ahead_move_negative self0); [done|done|lia|by right].
Qed.

End StepClosedForm.
(** X13. [step] in closed form. When the start states lie on the grid, [step]
    returns for every action in [-4, 4): the agent goes to
    [destination], a cell of the grid that is not a wall; the reward is
    the entry the reward matrix held there before the call; [done] tells
    whether the destination is terminal; [previous_state] is the old
    current state, and the destination's coordinates enter the bounded
    history. *)
Theorem X13_step_returns self a :
  reachable self → starts_on_grid self → -4 ≤ a < 4 →
  ∃ r self',
    _step a self
    = (Ok (destination self a, r,
           bool_decide (destination self a ∈ terminal_states self)), self') ∧
    getitem (reward_matrix self) (destination self a) = Ok r ∧
    0 ≤ destination self a < size self ∧
    (destination self a ∉ wall_indices self) ∧
    current_state self' = destination self a ∧
    previous_state self' = current_state self ∧
    done self' = bool_decide (destination self a ∈ terminal_states self) ∧
    last_n_states self'
    = record_visit
        (destination self a mod x_max self, destination self a / x_max self)
        (last_n_states self) ∧
    same_layout self self'.
Proof.
  intros R Hs Ha. destruct (reachable_ok _ R) as [L E].
  destruct (reachable_on_grid _ R Hs) as [Hc _].
  destruct (reachable_standing _ R) as (_ & Hw & _).
  destruct (look_step_ahead_destination self a L E Hc Ha)
    as (Hd & r & self1 & Hrun & Hr).
  set (d := destination self a) in *.
  set (self0 := set_previous_state (current_state self) self) in *.
  assert (E0 : episode_ok self0) by (destruct E; by constructor).
  assert (Hnw : d ∉ wall_indices self).
  { unfold d, destination.
    destruct (bool_decide (current_state self ∈ terminal_states self));
      [exact Hw|by apply blocked_not_wall]. }
  pose proof (world_getitem self d L Hd) as Hcell.
  pose proof (reward_function_collects self0 d true E0) as Hcol.
  rewrite Hr in Hcol. cbn [snd] in Hcol.
  assert (Hget : getitem (reward_matrix self) d = Ok r).
  { destruct (reward_function_returns self0 d E0) as (r' & self1' & Hr' & Hg & _).
    - apply (matrix_range self L). lia.
    - rewrite Hr in Hr'. by injection Hr' as <- <-. }
  assert (Hcell1 : getitem (world self1) d = Ok (d mod x_max self, d / x_max self)).
  { destruct Hcol as (cl & ca & cm & m & -> & _). exact Hcell. }
  exists r. eexists. split; [exact (_step_returns self a _ _ _ _ _ Hrun Hcell1)|].
  destruct Hcol as (cl & ca & cm & m & -> & _ & _ & _ & Hlen).
  repeat split; try done; lia.
Qed.

Lemma X13_step_returns_witness :
  ∃ r self',
    _step (-3) (constructed world_2x2)
    = (Ok (destination (constructed world_2x2) (-3), r,
           bool_decide (destination (constructed world_2x2) (-3)
                        ∈ terminal_states (constructed world_2x2))), self') ∧
    getitem (reward_matrix (constructed world_2x2))
      (destination (constructed world_2x2) (-3)) = Ok r ∧
    0 ≤ destination (constructed world_2x2) (-3) < size (constructed world_2x2) ∧
    (destination (constructed world_2x2) (-3) ∉ wall_indices (constructed world_2x2)) ∧
    current_state self' = destination (constructed world_2x2) (-3) ∧
    previous_state self' = current_state (constructed world_2x2) ∧
    done self' = bool_decide (destination (constructed world_2x2) (-3)
                              ∈ terminal_states (constructed world_2x2)) ∧
    last_n_states self'
    = record_visit
        (destination (constructed world_2x2) (-3) mod x_max (constructed world_2x2),
         destination (constructed world_2x2) (-3) / x_max (constructed world_2x2))
        (last_n_states (constructed world_2x2)) ∧
    same_layout (constructed world_2x2) self'.
Proof.
  apply (X13_step_returns (constructed world_2x2) (-3)).
  - apply reachable_world_2x2.
  - unfold starts_on_grid. apply (bool_decide_unpack _). vm_compute. exact I.
  - lia.
Defined.
Section StepCost.

Lemma remove_keeps x l r y : remove x l = Ok r → y ≠ x → y ∈ l → y ∈ r.
Proof.
  revert r. induction l as [|z l IH]; intros r H Hy Hin; [discriminate|].
  cbn in H. case_bool_decide as Hz.
  - injection H as <-. apply elem_of_cons in Hin as [->|Hin]; [congruence|done].
  - destruct (remove x l) as [r'|e] eqn:Hr; [|discriminate].
    injection H as <-. apply elem_of_cons in Hin as [->|Hin].
    + by left.
    + right. by apply IH.
Qed.

Lemma getitem_insert_at {A} (m : list A) ns k v :
  index_of (length m) ns = Some k → getitem (<[k:=v]> m) ns = Ok v.
Proof.
  intros Hk. unfold getitem. rewrite length_insert, Hk.
  apply index_of_Some in Hk as [Hlt _].
  by rewrite list_lookup_insert_eq.
Qed.

Lemma getitem_insert_same {A} (m : list A) f k v :
  getitem m f = Ok v → getitem (<[k:=v]> m) f = Ok v.
Proof.
  unfold getitem. rewrite length_insert.
  destruct (index_of (length m) f) as [j|] eqn:Hj; [|done].
  destruct (m !! j) as [w|] eqn:Hw; [|done]. intros [= ->].
  destruct (decide (k = j)) as [->|Hne].
  - apply lookup_lt_Some in Hw as Hlt. by rewrite list_lookup_insert_eq.
  - by rewrite list_lookup_insert_ne, Hw.
Qed.

Lemma reward_function_keeps self ns r self' :
  episode_ok self →
  reward_function ns true self = (Ok r, self') →
  ∀ y, y ≠ ns → y ∈ current_fruit self → y ∈ current_fruit self'.
Proof.
  intros E H y Hy Hin.
  destruct (decide (ns ∈ current_fruit self)) as [Hf|Hf].
  2:{ destruct (getitem (reward_matrix self) ns) as [r'|e] eqn:Hr.
      - rewrite (reward_function_no_fruit _ _ _ Hr Hf) in H. by injection H as _ <-.
      - rewrite reward_function_out_of_range in H; [discriminate|].
        intros Hrange. apply getitem_in_range in Hrange as [v Hv]. congruence. }
  unfold reward_function, bind, gets, lift, ret in H.
  destruct (getitem (reward_matrix self) ns) as [r'|e] eqn:Hr; [|discriminate].
  destruct (setitem_in_range (reward_matrix self) ns
              (MOVEMENT_REWARD (rewards self)) (getitem_Ok_range _ _ _ Hr))
    as (k & Hk & Hset).
  unfold current_fruit in *. rewrite !elem_of_app in Hin.
  destruct (contains ns (current_lemons self)) eqn:Cl.
  { apply contains_true in Cl. cbn in H.
    destruct (index_elem ns (lemons self)) as [i Hi].
    { eapply elem_of_sublist; [exact Cl|apply (ep_lemons _ E)]. }
    rewrite Hi in H.
    destruct (remove ns (current_lemons self)) as [cl|e] eqn:Hrm; [|discriminate].
    cbn in H. unfold reward_matrix_set, bind, gets, lift, modify in H. cbn in H.
    rewrite Hset in H. injection H as _ <-. cbn. rewrite !elem_of_app.
    destruct Hin as [?|[?|?]]; eauto using remove_keeps. }
  destruct (contains ns (current_apples self)) eqn:Ca.
  { apply contains_true in Ca. cbn in H.
    destruct (index_elem ns (apples self)) as [i Hi].
    { eapply elem_of_sublist; [exact Ca|apply (ep_apples _ E)]. }
    rewrite Hi in H.
    destruct (remove ns (current_apples self)) as [ca|e] eqn:Hrm; [|discriminate].
    cbn in H. unfold reward_matrix_set, bind, gets, lift, modify in H. cbn in H.
    rewrite Hset in H. injection H as _ <-. cbn. rewrite !elem_of_app.
    destruct Hin as [?|[?|?]]; eauto using remove_keeps. }
  destruct (contains ns (current_melons self)) eqn:Cm.
  { apply contains_true in Cm. cbn in H.
    destruct (index_elem ns (melons self)) as [i Hi].
    { eapply elem_of_sublist; [exact Cm|apply (ep_melons _ E)]. }
    rewrite Hi in H.
    destruct (remove ns (current_melons self)) as [cm|e] eqn:Hrm; [|discriminate].
    cbn in H. unfold reward_matrix_set, bind, gets, lift, modify in H. cbn in H.
    rewrite Hset in H. injection H as _ <-. cbn. rewrite !elem_of_app.
    destruct Hin as [?|[?|?]]; eauto using remove_keeps. }
  apply contains_false in Cl, Ca, Cm. rewrite !elem_of_app in Hf. tauto.
Qed.

Lemma step_cost_same self self' :
  apples self' = apples self → lemons self' = lemons self →
  melons self' = melons self → current_apples self' = current_apples self →
  current_lemons self' = current_lemons self →
  current_melons self' = current_melons self →
  reward_matrix self' = reward_matrix self → rewards self' = rewards self →
  collected_at_step_cost self → collected_at_step_cost self'.
Proof.
  unfold collected_at_step_cost, fruit, current_fruit.
  by intros -> -> -> -> -> -> -> ->.
Qed.

Lemma step_cost_reward_function self ns :
  episode_ok self →
  collected_at_step_cost self →
  collected_at_step_cost (reward_function ns true self).2.
Proof.
  intros E M.
  destruct (decide (- Z.of_nat (length (reward_matrix self)) ≤ ns
                    < Z.of_nat (length (reward_matrix self)))) as [Hin|Hout].
  2:{ by rewrite (reward_function_out_of_range _ _ Hout). }
  destruct (reward_function_returns self ns E Hin)
    as (r & self' & Hrun & Hr & _ & Hid & _).
  destruct (decide (ns ∈ current_fruit self)) as [Hf|Hf].
  2:{ rewrite Hrun. cbn [snd]. by rewrite (Hid Hf). }
  pose proof (reward_function_keeps _ _ _ _ E Hrun) as Hkeep.
  destruct (reward_function_fruit self ns r E Hr Hf)
    as (cl & ca & cm & k & Hrun' & Hk & _).
  rewrite Hrun in Hrun' |- *. injection Hrun' as ->. cbn [snd] in *.
  intros f Hfr Hnot.
  change (getitem (<[k:=MOVEMENT_REWARD (rewards self)]> (reward_matrix self)) f
          = Ok (MOVEMENT_REWARD (rewards self))).
  destruct (decide (f = ns)) as [->|Hne].
  - by apply getitem_insert_at.
  - apply getitem_insert_same. apply M; [exact Hfr|].
    intros Hcur. apply Hnot. by apply Hkeep.
Qed.

End StepCost.
Section StepCostInvariant.

Lemma step_cost_exec c self :
  layout_ok self → episode_ok self →
  collected_at_step_cost self → collected_at_step_cost (exec c self).
Proof.
  intros L E M.
  destruct c as [a|pick|s a care|ns c]; unfold exec.
  - set (self0 := set_previous_state (current_state self) self).
    assert (E0 : episode_ok self0) by (destruct E; by constructor).
    assert (M0 : collected_at_step_cost self0) by done.
    destruct (step_effect self a L E)
      as [[e ->]|(ns & r & self1 & c & _ & _ & Hr & _ & _ & ->)]; [done|].
    pose proof (step_cost_reward_function self0 ns E0 M0) as M1.
    fold self0 in Hr. rewrite Hr in M1. exact M1.
  - destruct (_reset_cases self pick) as [->|(s & m & _ & _ & ->)]; [done|].
    intros f Hf Hn. by destruct Hn.
  - destruct (look_step_ahead_cases self s a care E)
      as [[e ->]|(ns & r & self1 & -> & Hr & _)]; [done|].
    pose proof (step_cost_reward_function self ns E M) as M1.
    by rewrite Hr in M1.
  - destruct c; [by apply step_cost_reward_function|done].
Qed.

Lemma reachable_step_cost self : reachable self → collected_at_step_cost self.
Proof.
  induction 1 as [cfg p picks self H|c self R IH].
  - pose proof (init_Ok_inv _ _ _ _ H) as (_ & P & _).
    intros f Hf Hn. destruct Hn. unfold current_fruit.
    by rewrite (pl_current_lemons _ P), (pl_current_apples _ P),
      (pl_current_melons _ P).
  - destruct (reachable_ok _ R) as [L E]. by apply step_cost_exec.
Qed.

End StepCostInvariant.

(** X14. A collected fruit stays collected until the next reset: in every
    reachable environment, a fruit of the templates that has left the
    working lists has the step cost in the reward matrix, and a collecting
    reward read on its cell returns the step cost and changes nothing. *)
Theorem X14_collected_fruit_pays_step_cost self f :
  reachable self → f ∈ fruit self → f ∉ current_fruit self →
  getitem (reward_matrix self) f = Ok (MOVEMENT_REWARD (rewards self)) ∧
  reward_function f true self = (Ok (MOVEMENT_REWARD (rewards self)), self).
Proof.
  intros R Hf Hn. pose proof (reachable_step_cost self R f Hf Hn) as Hr.
  split; [exact Hr|]. by apply reward_function_no_fruit.
Qed.

Lemma X14_collected_fruit_pays_step_cost_witness :
  getitem (reward_matrix (after [Step RIGHT] (apple_world sample_rewards))) 1
  = Ok (MOVEMENT_REWARD (rewards (after [Step RIGHT] (apple_world sample_rewards)))) ∧
  reward_function 1 true (after [Step RIGHT] (apple_world sample_rewards))
  = (Ok (MOVEMENT_REWARD (rewards (after [Step RIGHT] (apple_world sample_rewards)))),
     after [Step RIGHT] (apple_world sample_rewards)).
Proof.
  apply (X14_collected_fruit_pays_step_cost
           (after [Step RIGHT] (apple_world sample_rewards)) 1).
  - apply reachable_after. apply reachable_constructed. vm_compute. reflexivity.
  - apply (bool_decide_unpack _). vm_compute. exact I.
  - apply (bool_decide_unpack _). vm_compute. exact I.
Defined.
Section Pointwise.

Lemma hits_nil n k : hits n [] k = 0%nat.
Proof. reflexivity. Qed.

Lemma hits_cons n x xs k :
  hits n (x :: xs) k
  = ((if decide (index_of n x = Some k) then 1 else 0) + hits n xs k)%nat.
Proof. unfold hits. rewrite filter_cons. by case_decide. Qed.

Lemma hits_app n xs ys k : hits n (xs ++ ys) k = (hits n xs k + hits n ys k)%nat.
Proof. unfold hits. by rewrite filter_app, length_app. Qed.

Lemma iter_set c v old :
  Nat.iter c (λ _ : Z, v) old = if bool_decide (0 < c)%nat then v else old.
Proof.
  destruct c; [done|]. rewrite Nat.iter_succ. by rewrite bool_decide_eq_true_2 by lia.
Qed.

Context (body : Z → M unit) (f : Z → Z).
Hypothesis body_run : ∀ x self,
  body x self
  = match index_of (length (reward_matrix self)) x with
    | Some k => (Ok tt, set_reward_matrix (alter f k (reward_matrix self)) self)
    | None => (Raise IndexError, self)
    end.

(** A loop over the matrix, cell by cell: [f] is applied to a cell once
    for every id of the list that denotes it. *)
Lemma for_matrix_pointwise xs self :
  Forall (λ x, - Z.of_nat (length (reward_matrix self)) ≤ x
               < Z.of_nat (length (reward_matrix self))) xs →
  ∃ m, for_ xs body self = (Ok tt, set_reward_matrix m self) ∧
       length m = length (reward_matrix self) ∧
       ∀ k old, reward_matrix self !! k = Some old →
         m !! k = Some (Nat.iter (hits (length (reward_matrix self)) xs k) f old).
Proof.
  revert self. induction xs as [|x xs IH]; intros self H.
  - exists (reward_matrix self). split; [by destruct self|]. split; [done|].
    intros k old Hk. by rewrite hits_nil.
  - apply Forall_cons in H as [Hx H]. cbn [for_].
    destruct (index_of_is_Some _ _ Hx) as (j & Hj & _).
    pose proof (body_run x self) as Hb. rewrite Hj in Hb.
    rewrite (bind_Ok _ _ _ _ _ Hb).
    destruct (IH (set_reward_matrix (alter f j (reward_matrix self)) self))
      as (m & -> & Hlen & Hpt).
    { cbn. by rewrite length_alter. }
    cbn [reward_matrix set_reward_matrix] in Hlen, Hpt.
    rewrite length_alter in Hlen, Hpt.
    exists m. split; [done|]. split; [done|].
    intros k old Hk. rewrite hits_cons.
    destruct (decide (j = k)) as [->|Hne].
    + rewrite decide_True by done. cbn [Nat.add].
      rewrite Nat.iter_succ_r. apply Hpt.
      by rewrite list_lookup_alter_eq, Hk.
    + rewrite decide_False by congruence. cbn [Nat.add].
      apply Hpt. by rewrite list_lookup_alter_ne.
Qed.

End Pointwise.
Section GeneratePointwise.

Local Abbreviation valid self :=
  (λ x : Z, - Z.of_nat (length (reward_matrix self)) ≤ x
            < Z.of_nat (length (reward_matrix self))).

Lemma for_add_pointwise v xs self :
  Forall (valid self) xs →
  ∃ m, for_ xs (reward_matrix_add v) self = (Ok tt, set_reward_matrix m self) ∧
       length m = length (reward_matrix self) ∧
       ∀ k old, reward_matrix self !! k = Some old →
         m !! k = Some (added v (hits (length (reward_matrix self)) xs k) old).
Proof.
  intros H.
  destruct (for_matrix_pointwise _ _ (reward_matrix_add_run v) xs self H)
    as (m & Hrun & Hlen & Hpt).
  exists m. split; [done|]. split; [done|].
  intros k old Hk. by rewrite (Hpt k old Hk).
Qed.

Lemma for_set_pointwise v xs self :
  Forall (valid self) xs →
  ∃ m, for_ xs (reward_matrix_set v) self = (Ok tt, set_reward_matrix m self) ∧
       length m = length (reward_matrix self) ∧
       ∀ k old, reward_matrix self !! k = Some old →
         m !! k = Some (if bool_decide
                             (0 < hits (length (reward_matrix self)) xs k)%nat
                        then v else old).
Proof.
  intros H.
  destruct (for_matrix_pointwise _ _ (reward_matrix_set_run v) xs self H)
    as (m & Hrun & Hlen & Hpt).
  exists m. split; [done|]. split; [done|].
  intros k old Hk. by rewrite (Hpt k old Hk), iter_set.
Qed.

Lemma _generate_reward_matrix_pointwise self :
  Forall (valid self) (current_fruit self ++ terminal_states self) →
  ∃ m, _generate_reward_matrix self = (Ok tt, set_reward_matrix m self) ∧
       length m = length (reward_matrix self) ∧
       ∀ k old, reward_matrix self !! k = Some old →
         m !! k = Some (generated (rewards self) (length (reward_matrix self))
                          (current_apples self) (current_lemons self)
                          (current_melons self) (goal_states self)
                          (lava_states self) k old).
Proof.
  unfold current_fruit, terminal_states. rewrite !Forall_app.
  intros [(Va & Vl & Vm) (Vls & Vgs)].
  unfold _generate_reward_matrix. rewrite !bind_gets.
  destruct (for_add_pointwise (APPLE_REWARD (rewards self)) (current_apples self)
              self Va) as (m1 & H1 & L1 & P1).
  rewrite (bind_Ok _ _ _ _ _ H1), bind_gets. cbn [current_lemons set_reward_matrix].
  destruct (for_add_pointwise (LEMON_REWARD (rewards self)) (current_lemons self)
              (set_reward_matrix m1 self)) as (m2 & H2 & L2 & P2).
  { cbn. by rewrite L1. }
  rewrite (bind_Ok _ _ _ _ _ H2), bind_gets. cbn [current_melons set_reward_matrix].
  destruct (for_add_pointwise (MELON_REWARD (rewards self)) (current_melons self)
              (set_reward_matrix m2 (set_reward_matrix m1 self)))
    as (m3 & H3 & L3 & P3).
  { cbn in *. by rewrite L2, L1. }
  rewrite (bind_Ok _ _ _ _ _ H3), bind_gets. cbn [goal_states set_reward_matrix].
  destruct (for_set_pointwise (TERMINAL_GOAL_REWARD (rewards self)) (goal_states self)
              (set_reward_matrix m3 (set_reward_matrix m2 (set_reward_matrix m1 self))))
    as (m4 & H4 & L4 & P4).
  { cbn in *. by rewrite L3, L2, L1. }
  rewrite (bind_Ok _ _ _ _ _ H4), bind_gets. cbn [lava_states set_reward_matrix].
  destruct (for_set_pointwise (LAVA_REWARD (rewards self)) (lava_states self)
              (set_reward_matrix m4 (set_reward_matrix m3
                 (set_reward_matrix m2 (set_reward_matrix m1 self)))))
    as (m5 & H5 & L5 & P5).
  { cbn in *. by rewrite L4, L3, L2, L1. }
  cbn [reward_matrix set_reward_matrix] in *.
  exists m5. split; [by rewrite H5|]. split; [congruence|].
  intros k old Hk. unfold generated.
  rewrite L4, L3, L2, L1 in P5. rewrite L3, L2, L1 in P4.
  rewrite L2, L1 in P3. rewrite L1 in P2.
  apply P5, P4, P3, P2, P1, Hk.
Qed.

Lemma _reset_pointwise self pick :
  initial_states self ≠ [] →
  Forall (valid self) (fruit self ++ terminal_states self) →
  ∃ s m,
    s ∈ initial_states self ∧ length m = length (reward_matrix self) ∧
    (∀ k old, reward_matrix self !! k = Some old →
       m !! k = Some (generated (rewards self) (length (reward_matrix self))
                        (apples self) (lemons self) (melons self)
                        (goal_states self) (lava_states self) k old)) ∧
    _reset pick self
    = (Ok s,
       set_reward_matrix m
         (set_current_melons (melons self)
            (set_current_apples (apples self)
               (set_current_lemons (lemons self)
                  (set_last_n_states []
                     (set_previous_state s
                        (set_current_state s
                           (set_initial_state s (set_done false self))))))))).
Proof.
  intros Hs Hv. destruct (choice_nonempty pick _ Hs) as [s Hc].
  exists s. unfold _reset.
  rewrite bind_modify, bind_gets, bind_lift. cbn [initial_states set_done].
  rewrite Hc. rewrite !bind_modify.
  match goal with
  | |- context [bind _generate_reward_matrix _ ?e] => set (self1 := e)
  end.
  destruct (_generate_reward_matrix_pointwise self1) as (m & Hm & Hlen & Hpt).
  { exact Hv. }
  exists m. split; [by eapply choice_elem|]. split; [exact Hlen|].
  split; [exact Hpt|]. by rewrite (bind_Ok _ _ _ _ _ Hm).
Qed.

End GeneratePointwise.
Section TextRewards.

Lemma hits_positions n c cs (i k : nat) :
  (i + length cs ≤ n)%nat →
  hits n (positions c cs (Z.of_nat i)) k
  = if bool_decide (i ≤ k ∧ cs !! (k - i)%nat = Some c)%nat then 1%nat else 0%nat.
Proof.
  revert i. induction cs as [|d cs IH]; intros i Hn.
  - cbn [positions]. rewrite hits_nil. rewrite bool_decide_eq_false_2; [done|].
    by intros [_ ?].
  - cbn [positions]. rewrite hits_app.
    replace (Z.of_nat i + 1) with (Z.of_nat (S i)) by lia.
    rewrite IH by (cbn [length] in Hn; lia).
    assert (Hi : index_of n (Z.of_nat i) = Some i).
    { rewrite index_of_nonneg by (cbn [length] in Hn; lia). by rewrite Nat2Z.id. }
    destruct (decide (i = k)) as [->|Hne].
    + replace (k - k)%nat with 0%nat by lia. cbn [lookup list_lookup].
      rewrite (bool_decide_eq_false_2 (S k ≤ k ∧ _)%nat) by lia.
      destruct (Ascii.eqb_spec d c) as [->|Hdc].
      * rewrite hits_cons, hits_nil, Hi, decide_True by done.
        by rewrite bool_decide_eq_true_2.
      * rewrite hits_nil. rewrite bool_decide_eq_false_2; [done|].
        intros [_ [= ?]]. done.
    + assert (Hz : hits n (if Ascii.eqb d c then [Z.of_nat i] else []) k = 0%nat).
      { destruct (Ascii.eqb d c); [|done].
        rewrite hits_cons, hits_nil, Hi, decide_False; [done|congruence]. }
      rewrite Hz. cbn [Nat.add].
      destruct (decide (i ≤ k)%nat) as [Hle|Hgt].
      * replace (k - i)%nat with (S (k - S i)) by lia. cbn [lookup list_lookup].
        assert (Hiff : (S i ≤ k ∧ cs !! (k - S i)%nat = Some c)%nat
                       ↔ (i ≤ k ∧ cs !! (k - S i)%nat = Some c)%nat)
          by (split; intros [? ?]; (split; [lia|done])).
        by rewrite (bool_decide_ext _ _ Hiff).
      * rewrite !bool_decide_eq_false_2; [done|lia|lia].
Qed.

Lemma hits_cell c cs k ch :
  cs !! k = Some ch →
  hits (length cs) (positions c cs 0) k = if Ascii.eqb ch c then 1%nat else 0%nat.
Proof.
  intros Hk. change 0 with (Z.of_nat 0).
  rewrite (hits_positions (length cs) c cs 0 k) by lia.
  rewrite Nat.sub_0_r, Hk. destruct (Ascii.eqb_spec ch c) as [->|Hne].
  - rewrite bool_decide_eq_true_2; [done|]. split; [lia|done].
  - rewrite bool_decide_eq_false_2; [done|]. intros [_ [= ?]]. done.
Qed.

(** What [_generate_reward_matrix] makes of a matrix of step costs when
    the registry was read from text. *)
Lemma generated_cell cfg cs k ch :
  cs !! k = Some ch →
  generated cfg (length cs) (positions "a" cs 0) (positions "l" cs 0)
    (positions "m" cs 0) (positions "G" cs 0) (positions "L" cs 0) k
    (MOVEMENT_REWARD cfg)
  = cell_reward cfg ch.
Proof.
  intros Hk. unfold generated, cell_reward. rewrite !(hits_cell _ _ _ _ Hk).
  destruct (Ascii.eqb_spec ch "L") as [->|HL]; [done|].
  rewrite (bool_decide_eq_false_2 (0 < 0)%nat) by lia.
  destruct (Ascii.eqb_spec ch "G") as [->|HG]; [done|].
  rewrite (bool_decide_eq_false_2 (0 < 0)%nat) by lia.
  destruct (Ascii.eqb_spec ch "a") as [->|Ha]; [reflexivity|].
  destruct (Ascii.eqb_spec ch "l") as [->|Hl]; [reflexivity|].
  destruct (Ascii.eqb_spec ch "m") as [->|Hm]; [reflexivity|].
  reflexivity.
Qed.

End TextRewards.
Section LoaderMatrix.

Lemma loader_returns_matrix first rest pick self :
  well_formed_rows (String.length first) (first :: rest) = true →
  "x"%char ∈ cells (first :: rest) →
  "G"%char ∈ cells (first :: rest) →
  ∃ self', _create_custom_world_from_text (first :: rest) pick self = (Ok tt, self') ∧
           ∀ k ch, cells (first :: rest) !! k = Some ch →
             reward_matrix self' !! k = Some (cell_reward (rewards self) ch).
Proof.
  intros Hw Hx Hg.
  assert (Hcells : length (cells (first :: rest))
                   = (length (first :: rest) * String.length first)%nat).
  { apply cells_length. unfold well_formed_rows in Hw.
    by apply andb_true_iff in Hw as [? _]. }
  assert (Hwidth : (0 < String.length first)%nat).
  { apply list_elem_of_lookup_1 in Hx as [j Hj]. apply lookup_lt_Some in Hj.
    destruct (String.length first); [|lia]. rewrite Hcells in Hj. lia. }
  assert (Hstarts : positions "x" (cells (first :: rest)) 0 ≠ [])
    by (intros H; by apply positions_nil_iff in H).
  assert (Hgoals : positions "G" (cells (first :: rest)) 0 ≠ [])
    by (intros H; by apply positions_nil_iff in H).
  unfold _create_custom_world_from_text. rewrite !bind_modify.
  rewrite (bind_Ok _ _ _ _ _ (scan_lines_returns _ _ 0 [] _ Hw)).
  set (cs := cells (first :: rest)) in *.
  rewrite bind_gets. unfold place at 1. env_simpl. cbn [app fst snd].
  rewrite bool_decide_eq_false_2 by (by destruct (positions "x" cs 0)).
  rewrite bind_gets. unfold place at 1. env_simpl. cbn [app fst snd].
  rewrite bool_decide_eq_false_2 by (by destruct (positions "G" cs 0)).
  rewrite !bind_modify.
  unfold bind at 1. rewrite _generate_world_run. env_simpl.
  rewrite bool_decide_eq_true_2 by (cbn [length]; lia).
  rewrite !bind_modify. env_simpl.
  set (w := fromiter_coords (Z.of_nat (String.length first))
              (Z.of_nat (length (first :: rest)))) in *.
  assert (Hsize : length w = length cs).
  { apply Nat2Z.inj. unfold w. rewrite fromiter_coords_length by lia.
    rewrite Hcells. lia. }
  assert (Hbound : ∀ c, Forall (λ x, 0 ≤ x < Z.of_nat (length w)) (positions c cs 0)).
  { intros c. apply Forall_forall. intros x Hin%positions_bound. lia. }
  match goal with
  | |- context [bind (_generate_walls (Some ?ws)) _ ?e] =>
      rewrite (bind_Ok _ _ _ _ _ (_generate_walls_returns ws e
                 ltac:(apply length_replicate) (Hbound _)))
  end.
  rewrite bind_modify. env_simpl. cbn [app].
  match goal with
  | |- context [bind (_reset pick) _ ?e] =>
      destruct (_reset_pointwise e pick) as (s & m & _ & Hlen & Hpt & Hr)
  end.
  { unfold place. by env_simpl. }
  { unfold fruit, terminal_states, place. env_simpl. cbn [app].
    rewrite length_replicate. rewrite !Forall_app.
    repeat split; (eapply Forall_impl; [apply Hbound|]; cbn; intros; lia). }
  assert (Hpt' : ∀ k old,
    replicate (length w) (MOVEMENT_REWARD (rewards self)) !! k = Some old →
    m !! k = Some (generated (rewards self) (length cs)
                     (positions "a" cs 0) (positions "l" cs 0) (positions "m" cs 0)
                     (positions "G" cs 0) (positions "L" cs 0) k old)).
  { intros k old Hk. specialize (Hpt k old).
    unfold place in Hpt. env_simpl. cbn [app] in Hpt.
    rewrite length_replicate, Hsize in Hpt. rewrite Hsize in Hk. by apply Hpt. }
  clear Hpt Hlen.
  rewrite (bind_Ok _ _ _ _ _ Hr). unfold ret.
  eexists. split; [reflexivity|].
  intros k ch Hk. cbn [reward_matrix set_reward_matrix].
  rewrite <- (generated_cell _ _ _ _ Hk). apply Hpt'.
  apply lookup_replicate_2. rewrite Hsize. by apply lookup_lt_Some in Hk.
Qed.

Lemma loader_matrix lines pick self self' :
  _create_custom_world_from_text lines pick self = (Ok tt, self') →
  ∀ k ch, cells lines !! k = Some ch →
    reward_matrix self' !! k = Some (cell_reward (rewards self) ch).
Proof.
  intros H.
  pose proof (loader_Ok_inv _ _ _ _ H) as (first & rest & -> & Hw & Hx & Hg & _).
  destruct (loader_returns_matrix first rest pick self Hw Hx Hg) as (self'' & Hr & Hm).
  rewrite Hr in H. by injection H as <-.
Qed.

End LoaderMatrix.
Section ConstructorMatrix.

Lemma for_set_Ok_pointwise v xs self self' :
  for_ xs (reward_matrix_set v) self = (Ok tt, self') →
  ∃ m, self' = set_reward_matrix m self ∧
       length m = length (reward_matrix self) ∧
       ∀ k old, reward_matrix self !! k = Some old →
         m !! k = Some (if bool_decide
                             (0 < hits (length (reward_matrix self)) xs k)%nat
                        then v else old).
Proof.
  intros H. pose proof (for_set_Ok_inv _ _ _ _ H) as [Hv _].
  destruct (for_set_pointwise v xs self Hv) as (m & Hrun & Hlen & Hpt).
  rewrite Hrun in H. injection H as <-. eauto.
Qed.

Lemma _generate_reward_matrix_Ok_pointwise self self' :
  _generate_reward_matrix self = (Ok tt, self') →
  ∃ m, self' = set_reward_matrix m self ∧
       length m = length (reward_matrix self) ∧
       ∀ k old, reward_matrix self !! k = Some old →
         m !! k = Some (generated (rewards self) (length (reward_matrix self))
                          (current_apples self) (current_lemons self)
                          (current_melons self) (goal_states self)
                          (lava_states self) k old).
Proof.
  intros H. pose proof (_generate_reward_matrix_Ok_inv _ _ H) as [Hv _].
  destruct (_generate_reward_matrix_pointwise self Hv) as (m & Hrun & Hlen & Hpt).
  rewrite Hrun in H. injection H as <-. eauto.
Qed.

(** The two literal loops of [__init__] on top of the generated matrix. *)
Lemma generated_literals cfg n ca cl cm goals lava k old :
  (if bool_decide (0 < hits n lava k)%nat then -10
   else if bool_decide (0 < hits n goals k)%nat then 10
        else generated cfg n ca cl cm goals lava k old)
  = generated (constructor_rewards cfg) n ca cl cm goals lava k old.
Proof. unfold generated. by repeat case_bool_decide. Qed.

Lemma init_fields_matrix cfg p pick self :
  init_fields p pick (blank cfg) = (Ok tt, self) →
  ∀ k, (k < length (reward_matrix self))%nat →
    reward_matrix self !! k
    = Some (generated (constructor_rewards cfg) (length (reward_matrix self))
              (apples self) (lemons self) (melons self)
              (goal_states self) (lava_states self) k (MOVEMENT_REWARD cfg)).
Proof.
  intros H. unfold init_fields in H.
  rewrite !bind_modify in H.
  unfold bind at 1 in H. rewrite _generate_world_run in H. env_simpl.
  destruct (bool_decide (0 < (grid_shape p).2 ∧ 0 < (grid_shape p).1));
    [|discriminate].
  rewrite !bind_modify, bind_gets, bind_lift in H. env_simpl.
  destruct (choice pick _) as [s|] eqn:Hs; [|discriminate].
  rewrite !bind_modify, bind_gets, !bind_modify, bind_gets in H.
  unfold world_size in H. env_simpl.
  set (w := fromiter_coords (grid_shape p).1 (grid_shape p).2) in *.
  apply bind_Ok_inv in H as ([] & s1 & Hl & H).
  rewrite lava_check_run in Hl.
  destruct (bool_decide (Forall _ _)) in Hl; [|discriminate].
  injection Hl as <-.
  rewrite !bind_modify in H. env_simpl.
  apply bind_Ok_inv in H as ([] & s2 & Hw & H).
  apply _generate_walls_Ok in Hw as [_ ->]; [|apply length_replicate].
  rewrite bind_modify in H. env_simpl.
  apply bind_Ok_inv in H as ([] & s3 & Hg & H).
  apply _generate_reward_matrix_Ok_pointwise in Hg as (m3 & -> & L3 & P3).
  env_simpl.
  rewrite bind_gets in H.
  apply bind_Ok_inv in H as ([] & s4 & Hgs & H).
  apply for_set_Ok_pointwise in Hgs as (m4 & -> & L4 & P4).
  env_simpl.
  rewrite bind_gets in H.
  apply bind_Ok_inv in H as ([] & s5 & Hls & H).
  apply for_set_Ok_pointwise in Hls as (m5 & -> & L5 & P5).
  env_simpl.
  rewrite bind_modify in H. unfold modify in H. injection H as <-.
  env_simpl. rewrite length_replicate in L3, P3.
  rewrite L3 in L4, P4. rewrite L4 in L5, P5.
  intros k Hk. rewrite L5 in Hk |- *.
  assert (H0 : replicate (length w) (MOVEMENT_REWARD cfg) !! k
               = Some (MOVEMENT_REWARD cfg)) by (by apply lookup_replicate_2).
  rewrite (P5 _ _ (P4 _ _ (P3 _ _ H0))).
  by rewrite generated_literals.
Qed.

End ConstructorMatrix.
Section InitMatrix.

Lemma init_Ok_matrix cfg p picks self :
  __init__ cfg p picks = Ok self →
  match text_world p with
  | Some lines =>
      ∀ k ch, cells lines !! k = Some ch →
        reward_matrix self !! k = Some (cell_reward cfg ch)
  | None =>
      ∀ k, (k < length (reward_matrix self))%nat →
        reward_matrix self !! k
        = Some (generated (constructor_rewards cfg) (length (reward_matrix self))
                  (apples self) (lemons self) (melons self)
                  (goal_states self) (lava_states self) k (MOVEMENT_REWARD cfg))
  end.
Proof.
  unfold __init__. destruct (init_body p picks (blank cfg)) as [[[]|e] self0] eqn:H;
    [|discriminate].
  intros [= ->]. unfold init_body in H.
  apply bind_Ok_inv in H as ([] & self1 & H1 & H).
  pose proof (init_fields_Ok_inv _ _ _ _ H1) as [_ R1].
  pose proof (init_fields_matrix _ _ _ _ H1) as M1.
  apply bind_Ok_inv in H as ([] & self2 & H2 & H).
  apply bind_Ok_inv in H as ([] & self3 & H3 & H).
  rewrite _check_specific_collisions_run in H.
  destruct (bool_decide (collision_free self3)); [|discriminate].
  injection H as ->.
  unfold text_world.
  destruct (random_maze p) as [maze|].
  - assert (R2 : rewards self2 = cfg).
    { destruct (custom_world_fp p) as [lines|].
      - apply loader_placed in H2 as (_ & R & _). congruence.
      - by injection H2 as <-. }
    rewrite <- R2. by eapply loader_matrix.
  - injection H3 as <-.
    destruct (custom_world_fp p) as [lines|].
    + rewrite <- R1. by eapply loader_matrix.
    + by injection H2 as <-.
Qed.

End InitMatrix.

(** X15. [reset] does not refill the reward matrix, it regenerates on top of
    it. On every reachable environment whose reward constants are
    [int64] values it returns, and cell by cell the new matrix holds the
    lava reward where a lava id denotes the cell, else the goal reward
    where a goal id does, else the entry the cell held before the call
    with the bonus of every fruit of the templates that denotes it added
    in [int64] arithmetic. *)
Theorem X15_reset_regenerates self pick :
  reachable self → int64_config (rewards self) →
  ∃ s self',
    _reset pick self = (Ok s, self') ∧
    length (reward_matrix self') = length (reward_matrix self) ∧
    ∀ k old, reward_matrix self !! k = Some old →
      reward_matrix self' !! k
      = Some (generated (rewards self) (length (reward_matrix self))
                (apples self) (lemons self) (melons self)
                (goal_states self) (lava_states self) k old).
Proof.
  intros [L E]%reachable_ok _.
  destruct (_reset_pointwise self pick) as (s & m & _ & Hlen & Hpt & ->).
  - apply L.
  - apply Forall_forall. intros x Hx. apply matrix_range; [done|].
    apply elem_of_app in Hx as [Hx|Hx]; [by apply (lo_fruit _ L)|by apply (lo_terminal _ L)].
  - exists s. eexists. split; [reflexivity|]. by split.
Qed.

Lemma X15_reset_regenerates_witness :
  ∃ s self',
    _reset 0 (apple_world sample_rewards) = (Ok s, self') ∧
    length (reward_matrix self') = length (reward_matrix (apple_world sample_rewards)) ∧
    ∀ k old, reward_matrix (apple_world sample_rewards) !! k = Some old →
      reward_matrix self' !! k
      = Some (generated (rewards (apple_world sample_rewards))
                (length (reward_matrix (apple_world sample_rewards)))
                (apples (apple_world sample_rewards))
                (lemons (apple_world sample_rewards))
                (melons (apple_world sample_rewards))
                (goal_states (apple_world sample_rewards))
                (lava_states (apple_world sample_rewards)) k old).
Proof.
  apply (X15_reset_regenerates (apple_world sample_rewards) 0).
  - apply reachable_constructed. vm_compute. reflexivity.
  - repeat constructor; vm_compute; congruence.
Defined.

(** X16. The reward matrix a construction from parameters leaves, for
    reward constants that are [int64] values: one entry per cell of the
    grid; a cell a lava id denotes holds the literal -10, else a cell a
    goal id denotes holds the literal 10, whatever the configured
    terminal rewards are; every other cell holds the step cost with the
    bonus of every fruit that denotes it added in [int64] arithmetic. *)
Theorem X16_constructor_reward_matrix cfg p picks self :
  __init__ cfg p picks = Ok self → text_world p = None → int64_config cfg →
  Z.of_nat (length (reward_matrix self)) = size self ∧
  ∀ k, (k < length (reward_matrix self))%nat →
    reward_matrix self !! k
    = Some (generated (constructor_rewards cfg) (length (reward_matrix self))
              (apples self) (lemons self) (melons self)
              (goal_states self) (lava_states self) k (MOVEMENT_REWARD cfg)).
Proof.
  intros H Ht _. pose proof (init_Ok_matrix _ _ _ _ H) as Hm. rewrite Ht in Hm.
  split; [|exact Hm].
  apply init_Ok_inv in H as (_ & P & _). apply (pl_matrix _ P).
Qed.

Lemma X16_constructor_reward_matrix_witness :
  Z.of_nat (length (reward_matrix (apple_world sample_rewards)))
  = size (apple_world sample_rewards) ∧
  ∀ k, (k < length (reward_matrix (apple_world sample_rewards)))%nat →
    reward_matrix (apple_world sample_rewards) !! k
    = Some (generated (constructor_rewards sample_rewards)
              (length (reward_matrix (apple_world sample_rewards)))
              (apples (apple_world sample_rewards))
              (lemons (apple_world sample_rewards))
              (melons (apple_world sample_rewards))
              (goal_states (apple_world sample_rewards))
              (lava_states (apple_world sample_rewards)) k
              (MOVEMENT_REWARD sample_rewards)).
Proof.
  apply (X16_constructor_reward_matrix sample_rewards apple_params first_pick).
  - vm_compute. reflexivity.
  - reflexivity.
  - repeat constructor; vm_compute; congruence.
Defined.

(** X17. The reward matrix of a world read from text, for reward constants
    that are [int64] values: a construction that ends with a text world
    (the maze, else the file) stores for every cell the reward of its
    character, with the configured terminal rewards: [L] the lava
    reward, [G] the goal reward, a fruit the [int64] sum of the step
    cost and its bonus, anything else the step cost. *)
Theorem X17_text_world_reward_matrix cfg p picks self lines :
  __init__ cfg p picks = Ok self → text_world p = Some lines → int64_config cfg →
  ∀ k ch, cells lines !! k = Some ch →
    reward_matrix self !! k = Some (cell_reward cfg ch).
Proof.
  intros H Ht _. pose proof (init_Ok_matrix _ _ _ _ H) as Hm. by rewrite Ht in Hm.
Qed.

Lemma X17_text_world_reward_matrix_witness :
  reward_matrix (constructed (__init__ sample_rewards text_params first_pick)) !! 3%nat
  = Some (cell_reward sample_rewards "G").
Proof.
  apply (X17_text_world_reward_matrix sample_rewards text_params first_pick _
           ["xo"; "oG"]%string).
  - vm_compute. reflexivity.
  - reflexivity.
  - repeat constructor; vm_compute; congruence.
  - reflexivity.
Defined.
Section TextRegistry.

Lemma positions_NoDup c cs i : NoDup (positions c cs i).
Proof.
  revert i. induction cs as [|d cs IH]; intros i; cbn [positions]; [constructor|].
  destruct (Ascii.eqb d c); cbn [app]; [|apply IH].
  constructor; [|apply IH]. intros Hin%positions_bound. lia.
Qed.

Lemma positions_disjoint c d cs i x :
  x ∈ positions c cs i → x ∈ positions d cs i → c = d.
Proof.
  intros (j & Hj & ->)%elem_of_positions (j' & Hj' & Heq)%elem_of_positions.
  assert (j' = j) as -> by lia. congruence.
Qed.

Lemma loaded_all_distinct width lines self :
  loaded width lines self →
  NoDup (wall_indices self ++ initial_states self ++ goal_states self
         ++ lava_states self ++ fruit self).
Proof.
  intros Ld. unfold fruit.
  rewrite (ld_walls _ _ _ Ld), (ld_starts _ _ _ Ld), (ld_goal _ _ _ Ld),
    (ld_lava _ _ _ Ld), (ld_apples _ _ _ Ld), (ld_lemons _ _ _ Ld),
    (ld_melons _ _ _ Ld).
  repeat (apply NoDup_app; split; [apply positions_NoDup|split;
    [intros x Hx; rewrite ?elem_of_app; intros Hin; destruct_or?;
     match goal with
     | H : x ∈ positions _ _ _ |- _ =>
         pose proof (positions_disjoint _ _ _ _ _ Hx H) as Heq; discriminate Heq
     end|]]).
  apply positions_NoDup.
Qed.

Lemma loaded_collision_free width lines self :
  loaded width lines self → collision_free self.
Proof.
  intros Ld. pose proof (loaded_all_distinct _ _ _ Ld) as Hnd.
  unfold collision_free, current_fruit.
  rewrite (ld_current_apples _ _ _ Ld), (ld_current_lemons _ _ _ Ld),
    (ld_current_melons _ _ _ Ld).
  unfold fruit in Hnd.
  apply NoDup_app in Hnd as (Hw & Dw & Hnd).
  apply NoDup_app in Hnd as (Hs & Ds & Hnd).
  apply NoDup_app in Hnd as (Hg & Dg & Hnd).
  apply NoDup_app in Hnd as (Hl & Dl & Hf).
  pose proof Hf as Hf'.
  apply NoDup_app in Hf' as (Ha & Da & Hlm).
  apply NoDup_app in Hlm as (Hle & Dle & Hm).
  repeat split; try done; apply Forall_forall; intros x Hx Hwall;
    apply (Dw x Hwall); rewrite !elem_of_app; auto.
  rewrite !elem_of_app in Hx. tauto.
Qed.

End TextRegistry.

(** X18. The collision check, read off: [_check_specific_collisions] leaves
    the object as it is, returns exactly when no id occurs twice in a
    working fruit list, among the walls, the start, the goal or the lava
    states or among all the working fruit, and no start, goal, lava or
    working-fruit id is a wall; otherwise it raises [ValueError]. *)
Theorem X18_check_specific_collisions_decides self :
  (_check_specific_collisions self).2 = self ∧
  ((_check_specific_collisions self).1 = Ok tt ↔ collision_free self) ∧
  ((_check_specific_collisions self).1 = Raise ValueError ↔ ¬ collision_free self).
Proof.
  rewrite _check_specific_collisions_run. cbn [fst snd].
  split; [done|]. case_bool_decide; split; split; try done; intros; exfalso; auto.
Qed.

(** X19. A world read from text has one entity per cell: when
    [_create_custom_world_from_text] returns, no state id occurs twice
    among the walls, the start, goal and lava states and the fruit taken
    together, so the collision check that follows accepts it. *)
Theorem X19_text_world_collision_free lines pick self self' :
  _create_custom_world_from_text lines pick self = (Ok tt, self') →
  NoDup (wall_indices self' ++ initial_states self' ++ goal_states self'
         ++ lava_states self' ++ fruit self') ∧
  _check_specific_collisions self' = (Ok tt, self').
Proof.
  intros H. apply loader_Ok_inv in H as (first & rest & -> & _ & _ & _ & Ld & _).
  split; [by eapply loaded_all_distinct|].
  rewrite _check_specific_collisions_run.
  rewrite bool_decide_eq_true_2; [done|]. by eapply loaded_collision_free.
Qed.

Lemma X19_text_world_collision_free_witness :
  NoDup (wall_indices loaded_2x2 ++ initial_states loaded_2x2 ++ goal_states loaded_2x2
         ++ lava_states loaded_2x2 ++ fruit loaded_2x2) ∧
  _check_specific_collisions loaded_2x2 = (Ok tt, loaded_2x2).
Proof.
  apply (X19_text_world_collision_free ["xo"; "oG"]%string 0 (blank sample_rewards)).
  vm_compute. reflexivity.
Defined.
Section Render.

Lemma paint_pointwise c xs a :
  Forall (λ x, - Z.of_nat (length a) ≤ x < Z.of_nat (length a)) xs →
  ∃ a', paint c xs a = Ok a' ∧ length a' = length a ∧
        ∀ k old, a !! k = Some old →
          a' !! k = Some (if bool_decide (0 < hits (length a) xs k)%nat
                          then c else old).
Proof.
  revert a. induction xs as [|x xs IH]; intros a H.
  - exists a. split; [done|]. split; [done|]. intros k old Hk. by rewrite hits_nil.
  - apply Forall_cons in H as [Hx H]. cbn [paint].
    destruct (setitem_in_range a x c Hx) as (j & Hj & ->).
    destruct (IH (<[j:=c]> a)) as (a' & -> & Hlen & Hpt).
    { by rewrite length_insert. }
    rewrite length_insert in Hlen, Hpt.
    exists a'. split; [done|]. split; [done|].
    intros k old Hk. rewrite hits_cons.
    destruct (decide (j = k)) as [->|Hne].
    + rewrite decide_True by done.
      rewrite (Hpt k c) by (apply list_lookup_insert_eq; by apply lookup_lt_Some in Hk).
      rewrite (bool_decide_eq_true_2 (0 < 1 + _)%nat) by lia.
      by case_bool_decide.
    + rewrite decide_False by congruence. cbn [Nat.add].
      apply Hpt. by rewrite list_lookup_insert_ne.
Qed.

Lemma setitem_paint c x (a : list ascii) : setitem a x c = paint c [x] a.
Proof. cbn. by destruct (setitem a x c). Qed.

(** [_render] on an environment whose ids all denote cells. *)
Lemma _render_run self :
  layout_ok self → episode_ok self →
  - size self ≤ current_state self < size self →
  _render self
  = (Ok (write_rows
           (chunks (shown self <$> seq 0 (Z.to_nat (size self)))
              (Z.to_nat (y_max self)) (Z.to_nat (x_max self)))), self).
Proof.
  intros L E Hc.
  pose proof (lo_x _ L) as Hx. pose proof (lo_y _ L) as Hy.
  assert (Hn : Z.to_nat (size self)
               = (Z.to_nat (x_max self) * Z.to_nat (y_max self))%nat).
  { unfold size. rewrite Z2Nat.inj_mul by lia. done. }
  assert (Hsz : Z.of_nat (Z.to_nat (size self)) = size self).
  { apply Z2Nat.id. unfold size. nia. }
  unfold _render. rewrite !bind_gets.
  rewrite !bool_decide_eq_false_2 by lia.
  rewrite bind_gets, <- Hn.
  set (n := Z.to_nat (size self)) in *.
  assert (Hr : ∀ xs, (∀ x, x ∈ xs → - size self ≤ x < size self) → ∀ a : list ascii,
    length a = n →
    Forall (λ x, - Z.of_nat (length a) ≤ x < Z.of_nat (length a)) xs).
  { intros xs Hxs a Ha. apply Forall_forall. intros x Hin. rewrite Ha, Hsz. auto. }
  assert (Hfruit : ∀ l, l `sublist_of` current_fruit self →
    ∀ x, x ∈ l → - size self ≤ x < size self).
  { intros l Hl x Hin. apply (lo_fruit _ L).
    assert (Hcf : x ∈ current_fruit self) by (by eapply elem_of_sublist).
    unfold current_fruit, fruit in *. rewrite !elem_of_app in Hcf |- *.
    destruct Hcf as [?|[?|?]];
      [left; eapply elem_of_sublist; [done|apply E]
      |right; left; eapply elem_of_sublist; [done|apply E]
      |right; right; eapply elem_of_sublist; [done|apply E]]. }
  rewrite setitem_paint.
  destruct (paint_pointwise "x" [current_state self] (replicate n "o"%char))
    as (a1 & -> & L1 & P1).
  { apply Hr; [|apply length_replicate].
    by intros x ->%list_elem_of_singleton. }
  rewrite length_replicate in L1, P1.
  rewrite bind_lift, bind_gets.
  destruct (paint_pointwise "G" (goal_states self) a1) as (a2 & -> & L2 & P2).
  { apply Hr; [|done]. intros x Hin. apply (lo_terminal _ L).
    unfold terminal_states. apply elem_of_app. by right. }
  rewrite L1 in L2, P2. rewrite bind_lift, bind_gets.
  destruct (paint_pointwise "L" (lava_states self) a2) as (a3 & -> & L3 & P3).
  { apply Hr; [|done]. intros x Hin. apply (lo_terminal _ L).
    unfold terminal_states. apply elem_of_app. by left. }
  rewrite L2 in L3, P3. rewrite bind_lift, bind_gets.
  destruct (paint_pointwise "#" (wall_indices self) a3) as (a4 & -> & L4 & P4).
  { apply Hr; [|done]. intros x Hin. pose proof (lo_walls _ L _ Hin). lia. }
  rewrite L3 in L4, P4. rewrite bind_lift, bind_gets.
  destruct (paint_pointwise "m" (current_melons self) a4) as (a5 & -> & L5 & P5).
  { apply Hr; [|done]. apply Hfruit. unfold current_fruit.
    apply sublist_inserts_l, sublist_inserts_l. done. }
  rewrite L4 in L5, P5. rewrite bind_lift, bind_gets.
  destruct (paint_pointwise "l" (current_lemons self) a5) as (a6 & -> & L6 & P6).
  { apply Hr; [|done]. apply Hfruit. unfold current_fruit.
    apply sublist_inserts_l, sublist_inserts_r. done. }
  rewrite L5 in L6, P6. rewrite bind_lift, bind_gets.
  destruct (paint_pointwise "a" (current_apples self) a6) as (a7 & -> & L7 & P7).
  { apply Hr; [|done]. apply Hfruit. unfold current_fruit.
    apply sublist_inserts_r. done. }
  rewrite L6 in L7, P7. rewrite bind_lift.
  assert (Ha7 : a7 = shown self <$> seq 0 n).
  { apply list_eq. intros k. rewrite list_lookup_fmap.
    destruct (decide (k < n)%nat) as [Hk|Hk].
    - rewrite lookup_seq_lt by done. cbn.
      assert (H0 : replicate n "o"%char !! k = Some "o"%char)
        by (by apply lookup_replicate_2).
      rewrite (P7 _ _ (P6 _ _ (P5 _ _ (P4 _ _ (P3 _ _ (P2 _ _ (P1 _ _ H0))))))).
      unfold shown. fold n. by repeat case_bool_decide.
    - rewrite lookup_seq_ge by lia. apply lookup_ge_None. lia. }
  unfold reshape. rewrite bool_decide_eq_true_2 by (rewrite L7, Hn; lia).
  unfold ret. by rewrite Ha7.
Qed.

End Render.
Section RenderText.

Lemma _render_off_grid self :
  layout_ok self →
  ¬ (- size self ≤ current_state self < size self) →
  _render self = (Raise IndexError, self).
Proof.
  intros L Hc.
  pose proof (lo_x _ L) as Hx. pose proof (lo_y _ L) as Hy.
  unfold _render. rewrite !bind_gets.
  rewrite !bool_decide_eq_false_2 by lia.
  rewrite bind_gets. unfold setitem.
  rewrite (proj2 (index_of_None _ _)); [done|].
  rewrite length_replicate, Nat2Z.inj_mul, !Z2Nat.id by lia. exact Hc.
Qed.

Lemma chunks_cells width lines :
  (∀ l, l ∈ lines → String.length l = width) →
  chunks (cells lines) (length lines) width = String.list_ascii_of_string <$> lines.
Proof.
  induction lines as [|l lines IH]; intros Hw; [done|].
  assert (Hl : length (String.list_ascii_of_string l) = width).
  { rewrite string_length_list. apply Hw. by left. }
  rewrite cells_cons. cbn [length chunks fmap list_fmap].
  rewrite take_app_length', drop_app_length' by done.
  f_equal. apply IH. intros l' Hl'. apply Hw. by right.
Qed.

Lemma legal_cases ch :
  legal ch = true →
  ch ∈ ["G"; "L"; "l"; "a"; "m"; "o"; "#"; "x"]%char.
Proof. unfold legal. apply bool_decide_eq_true_1. Qed.

(** A freshly loaded world with one start shows its own text. *)
Lemma loaded_shown width lines self :
  loaded width lines self →
  (∀ c, c ∈ cells lines → legal c = true) →
  positions "x" (cells lines) 0 = [current_state self] →
  shown self <$> seq 0 (Z.to_nat (size self)) = cells lines.
Proof.
  intros Ld Hlegal Hone.
  assert (Hn : Z.to_nat (size self) = length (cells lines)).
  { unfold size. rewrite (ld_cells _ _ _ Ld), (ld_x _ _ _ Ld), (ld_y _ _ _ Ld). lia. }
  apply list_eq. intros k. rewrite list_lookup_fmap.
  destruct (cells lines !! k) as [ch|] eqn:Hk.
  2:{ apply lookup_ge_None in Hk. rewrite lookup_seq_ge by lia. done. }
  rewrite lookup_seq_lt by (apply lookup_lt_Some in Hk; lia). cbn. f_equal.
  unfold shown. rewrite Hn, <- Hone.
  rewrite (ld_current_apples _ _ _ Ld), (ld_current_lemons _ _ _ Ld),
    (ld_current_melons _ _ _ Ld), (ld_apples _ _ _ Ld), (ld_lemons _ _ _ Ld),
    (ld_melons _ _ _ Ld), (ld_walls _ _ _ Ld), (ld_lava _ _ _ Ld),
    (ld_goal _ _ _ Ld).
  rewrite !(hits_cell _ _ _ _ Hk).
  assert (Hch : ch ∈ cells lines) by (by eapply list_elem_of_lookup_2).
  apply Hlegal, legal_cases in Hch.
  rewrite !elem_of_cons, elem_of_nil in Hch.
  destruct Hch as [->|[->|[->|[->|[->|[->|[->|[->|[]]]]]]]]]; reflexivity.
Qed.

(** The loader call a construction with a text world ends with. *)
Lemma init_Ok_text cfg p picks self lines :
  __init__ cfg p picks = Ok self → text_world p = Some lines →
  ∃ pick self0, _create_custom_world_from_text lines pick self0 = (Ok tt, self).
Proof.
  unfold __init__. destruct (init_body p picks (blank cfg)) as [[[]|e] self0] eqn:H;
    [|discriminate].
  intros [= ->]. unfold init_body in H.
  apply bind_Ok_inv in H as ([] & self1 & H1 & H).
  apply bind_Ok_inv in H as ([] & self2 & H2 & H).
  apply bind_Ok_inv in H as ([] & self3 & H3 & H).
  rewrite _check_specific_collisions_run in H.
  destruct (bool_decide (collision_free self3)); [|discriminate].
  injection H as ->.
  unfold text_world. destruct (random_maze p) as [maze|].
  - intros [= <-]. eauto.
  - injection H3 as <-. intros Hc. rewrite Hc in H2. eauto.
Qed.

End RenderText.

(** X20. What [_render] writes in its text modes. On a reachable environment
    whose current state denotes a cell it leaves the object as it is and
    writes one line per row of the grid, each cell followed by a blank,
    and an empty line at the end; a cell shows the last of agent, goal,
    lava, wall, melon, lemon and apple that is on it, so the agent is
    hidden by whatever shares its cell. When the current state is beyond
    the grid it raises [IndexError]. *)
Theorem X20_render_text self :
  reachable self →
  _render self
  = if bool_decide (- size self ≤ current_state self < size self)
    then (Ok (write_rows
                (chunks (shown self <$> seq 0 (Z.to_nat (size self)))
                   (Z.to_nat (y_max self)) (Z.to_nat (x_max self)))), self)
    else (Raise IndexError, self).
Proof.
  intros [L E]%reachable_ok. case_bool_decide.
  - by apply _render_run.
  - by apply _render_off_grid.
Qed.

Lemma X20_render_text_witness :
  _render terminated_2x2
  = if bool_decide (- size terminated_2x2 ≤ current_state terminated_2x2
                    < size terminated_2x2)
    then (Ok (write_rows
                (chunks (shown terminated_2x2 <$> seq 0 (Z.to_nat (size terminated_2x2)))
                   (Z.to_nat (y_max terminated_2x2)) (Z.to_nat (x_max terminated_2x2)))),
          terminated_2x2)
    else (Raise IndexError, terminated_2x2).
Proof.
  apply (X20_render_text terminated_2x2). apply reachable_after, reachable_world_2x2.
Defined.

(** X21. Reading a text world and rendering it gives the text back: when the
    rows have exactly one start cell, [_render] on the environment just
    constructed from them writes each row with a blank after every
    character, and the closing empty line. *)
Theorem X21_render_round_trip cfg p picks self lines s :
  __init__ cfg p picks = Ok self → text_world p = Some lines →
  positions "x" (cells lines) 0 = [s] →
  _render self = (Ok (write_rows (String.list_ascii_of_string <$> lines)), self).
Proof.
  intros H Ht Hone.
  assert (R : reachable self) by (by econstructor).
  destruct (reachable_ok _ R) as [L E].
  destruct (init_Ok_text _ _ _ _ _ H Ht) as (pick & self0 & Hload).
  apply loader_Ok_inv in Hload as (first & rest & -> & Hw & _ & _ & Ld & _).
  apply well_formed_rows_true in Hw as [Hwidth Hlegal].
  assert (Hs : current_state self = s).
  { pose proof (ld_start _ _ _ Ld) as Hin.
    rewrite (ld_starts _ _ _ Ld), Hone, <- (ld_current _ _ _ Ld) in Hin.
    by apply list_elem_of_singleton in Hin. }
  assert (Hrange : - size self ≤ current_state self < size self).
  { assert (Hin : s ∈ positions "x" (cells (first :: rest)) 0)
      by (rewrite Hone; by left).
    apply positions_bound in Hin. rewrite Hs. unfold size.
    rewrite (ld_x _ _ _ Ld), (ld_y _ _ _ Ld).
    pose proof (ld_cells _ _ _ Ld). nia. }
  rewrite (_render_run _ L E Hrange).
  rewrite (loaded_shown _ _ _ Ld Hlegal) by (by rewrite Hs).
  rewrite (ld_x _ _ _ Ld), (ld_y _ _ _ Ld), !Nat2Z.id.
  by rewrite (chunks_cells _ _ Hwidth).
Qed.

Lemma X21_render_round_trip_witness :
  _render (constructed (__init__ sample_rewards text_params first_pick))
  = (Ok (write_rows (String.list_ascii_of_string <$> ["xo"; "oG"]%string)),
     constructed (__init__ sample_rewards text_params first_pick)).
Proof.
  apply (X21_render_round_trip sample_rewards text_params first_pick _ _ 0).
  - vm_compute. reflexivity.
  - reflexivity.
  - reflexivity.
Defined.
(** X22. The wall test reads the wall list: on a reachable environment
    [_is_wall] changes nothing; for a state id on the grid it tells
    whether the id is a wall, for a negative id down to [-size] whether
    the cell it denotes from the end is one, and for any other id it
    raises [IndexError]. *)
Theorem X22_is_wall_reads_walls self s :
  reachable self →
  _is_wall s self
  = (if bool_decide (0 ≤ s < size self)
     then Ok (bool_decide (s ∈ wall_indices self))
     else if bool_decide (- size self ≤ s < 0)
          then Ok (bool_decide (s + size self ∈ wall_indices self))
          else Raise IndexError, self).
Proof.
  intros [L E]%reachable_ok.
  case_bool_decide as H1; [by apply _is_wall_run|].
  pose proof (lo_wall_len _ L) as Hlen.
  unfold _is_wall. rewrite bind_gets, bind_lift.
  case_bool_decide as H2.
  - unfold getitem. rewrite index_of_neg by lia. rewrite Hlen.
    rewrite (lo_wall_grid _ L (s + size self)) by lia.
    by destruct (bool_decide (s + size self ∈ wall_indices self)).
  - rewrite getitem_out_of_range; [done|]. lia.
Qed.

Lemma X22_is_wall_reads_walls_witness :
  _is_wall (-1) (constructed world_2x2)
  = (if bool_decide (0 ≤ -1 < size (constructed world_2x2))
     then Ok (bool_decide (-1 ∈ wall_indices (constructed world_2x2)))
     else if bool_decide (- size (constructed world_2x2) ≤ -1 < 0)
          then Ok (bool_decide (-1 + size (constructed world_2x2)
                                ∈ wall_indices (constructed world_2x2)))
          else Raise IndexError, constructed world_2x2).
Proof.
  apply (X22_is_wall_reads_walls (constructed world_2x2) (-1)).
  apply reachable_world_2x2.
Defined.
Section ConstructorReturns.

Lemma _generate_walls_run walls self :
  length (wall_grid self) = length (world self) →
  Forall (λ w, 0 ≤ w < world_size self) (default [] walls) →
  _generate_walls walls self
  = (Ok tt, set_wall_indices (wall_indices self ++ default [] walls)
              (set_wall_grid (mark (wall_grid self) (default [] walls)) self)).
Proof.
  intros Hlen H. destruct walls as [ws|]; cbn [default] in *.
  - by apply _generate_walls_returns.
  - rewrite _generate_walls_None. cbn. rewrite app_nil_r. by destruct self.
Qed.

Lemma init_fields_returns cfg p pick :
  0 < (grid_shape p).1 → 0 < (grid_shape p).2 →
  supplied_starts p ≠ [] →
  Forall (λ x, 0 ≤ x < (grid_shape p).1 * (grid_shape p).2) (supplied_lava p) →
  Forall (λ x, 0 ≤ x < (grid_shape p).1 * (grid_shape p).2) (supplied_walls p) →
  Forall (λ x, - ((grid_shape p).1 * (grid_shape p).2) ≤ x
               < (grid_shape p).1 * (grid_shape p).2)
    (supplied_goals p ++ supplied_fruit p) →
  ∃ self, init_fields p pick (blank cfg) = (Ok tt, self).
Proof.
  intros Hx Hy Hs Hlava Hwalls Hvalid.
  unfold init_fields. rewrite !bind_modify.
  unfold bind at 1. rewrite _generate_world_run. env_simpl.
  rewrite bool_decide_eq_true_2 by done.
  rewrite !bind_modify, bind_gets, bind_lift. env_simpl.
  destruct (choice_nonempty pick _ Hs) as [s Hc]. unfold supplied_starts in Hc.
  rewrite Hc.
  rewrite !bind_modify, bind_gets, !bind_modify, bind_gets.
  unfold world_size. env_simpl.
  set (w := fromiter_coords (grid_shape p).1 (grid_shape p).2) in *.
  assert (Hsize : Z.of_nat (length w) = (grid_shape p).1 * (grid_shape p).2)
    by (apply fromiter_coords_length; lia).
  rewrite !Hsize.
  unfold bind at 1. rewrite lava_check_run.
  rewrite bool_decide_eq_true_2 by done.
  rewrite !bind_modify. env_simpl.
  match goal with
  | |- context [bind (_generate_walls ?ws) _ ?e] =>
      pose proof (_generate_walls_run ws e) as Hgw
  end.
  unfold world_size in Hgw. env_simpl.
  rewrite length_replicate, !Hsize in Hgw.
  specialize (Hgw eq_refl Hwalls).
  rewrite (bind_Ok _ _ _ _ _ Hgw). clear Hgw.
  rewrite bind_modify. env_simpl. cbn [app].
  match goal with
  | |- context [bind _generate_reward_matrix _ ?e] =>
      destruct (_generate_reward_matrix_returns e) as (m1 & H1 & L1)
  end.
  { unfold current_fruit, terminal_states. env_simpl.
    rewrite length_replicate, Hsize.
    apply Forall_forall. intros x Hin.
    rewrite Forall_forall in Hvalid. rewrite Forall_forall in Hlava.
    unfold supplied_goals, supplied_fruit, supplied_lava in *.
    rewrite !elem_of_app in Hin.
    destruct Hin as [[Hin|[Hin|Hin]]|[Hin|Hin]];
      [apply Hvalid; rewrite !elem_of_app; auto
      |apply Hvalid; rewrite !elem_of_app; auto
      |apply Hvalid; rewrite !elem_of_app; auto
      |pose proof (Hlava x Hin); lia
      |apply Hvalid; rewrite !elem_of_app; auto]. }
  rewrite (bind_Ok _ _ _ _ _ H1), bind_gets. env_simpl.
  rewrite length_replicate in L1.
  match goal with
  | |- context [bind (for_ ?gs (reward_matrix_set 10)) _ ?e] =>
      destruct (for_matrix_returns _ _ (reward_matrix_set_run 10) gs e)
        as (m2 & H2 & L2)
  end.
  { env_simpl. rewrite L1, Hsize.
    unfold supplied_goals in Hvalid. rewrite Forall_app in Hvalid.
    exact (proj1 Hvalid). }
  rewrite (bind_Ok _ _ _ _ _ H2), bind_gets. env_simpl. rewrite L1 in L2.
  match goal with
  | |- context [bind (for_ ?ls (reward_matrix_set (-10))) _ ?e] =>
      destruct (for_matrix_returns _ _ (reward_matrix_set_run (-10)) ls e)
        as (m3 & H3 & L3)
  end.
  { env_simpl. rewrite L2, Hsize.
    eapply Forall_impl; [exact Hlava|]. cbn. intros; lia. }
  rewrite (bind_Ok _ _ _ _ _ H3). rewrite !bind_modify.
  unfold modify. eexists. reflexivity.
Qed.

End ConstructorReturns.
Section ConstructorAccepts.

Lemma text_world_None p :
  text_world p = None ↔ custom_world_fp p = None ∧ random_maze p = None.
Proof.
  unfold text_world. destruct (random_maze p), (custom_world_fp p);
    split; try done; by intros [? ?].
Qed.

(** The registry [__init__] assigns, in terms of the arguments. *)
Lemma assigned_supplied p self :
  assigned p self →
  size self = (grid_shape p).1 * (grid_shape p).2 ∧
  initial_states self = supplied_starts p ∧
  goal_states self = supplied_goals p ∧
  lava_states self = supplied_lava p ∧
  wall_indices self = supplied_walls p ∧
  fruit self = supplied_fruit p ∧
  current_fruit self = supplied_fruit p ∧
  current_apples self = default [] (p_apples p) ∧
  current_lemons self = default [] (p_lemons p) ∧
  current_melons self = default [] (p_melons p).
Proof.
  intros A. pose proof (as_placed _ _ A) as P.
  assert (Hsize : size self = (grid_shape p).1 * (grid_shape p).2).
  { unfold size. by rewrite (as_x _ _ A), (as_y _ _ A). }
  unfold fruit, current_fruit, supplied_fruit.
  rewrite (pl_current_apples _ P), (pl_current_lemons _ P), (pl_current_melons _ P).
  rewrite (as_apples _ _ A), (as_lemons _ _ A), (as_melons _ _ A).
  repeat split; try done; try apply A.
  rewrite (as_goal _ _ A). unfold supplied_goals. by rewrite Hsize.
Qed.

Lemma assigned_collision_free p self :
  assigned p self →
  collision_free self ↔
  NoDup (supplied_walls p) ∧ NoDup (supplied_starts p) ∧
  NoDup (supplied_goals p) ∧ NoDup (supplied_lava p) ∧
  NoDup (supplied_fruit p) ∧
  Forall (λ x, x ∉ supplied_walls p)
    (supplied_starts p ++ supplied_goals p ++ supplied_lava p ++ supplied_fruit p).
Proof.
  intros A.
  destruct (assigned_supplied _ _ A)
    as (_ & Hs & Hg & Hl & Hw & _ & Hcf & Hca & Hcl & Hcm).
  unfold collision_free. rewrite Hs, Hg, Hl, Hw, Hcf, Hca, Hcl, Hcm.
  rewrite !Forall_app. unfold supplied_fruit.
  split.
  - intros H. destruct_and!. by repeat split.
  - intros H. destruct_and!.
    match goal with
    | H : NoDup (_ ++ _ ++ _) |- _ =>
        pose proof H as Hnd; apply NoDup_app in Hnd as (Ha & _ & Hnd);
        apply NoDup_app in Hnd as (Hle & _ & Hm)
    end.
    by repeat split.
Qed.

End ConstructorAccepts.

(** X23. When a construction returns. Without a text world, [__init__] returns
    an environment exactly when the grid has cells, there is a start
    state to draw, the lava and wall ids are on the grid, the goal and
    fruit ids index the reward matrix (negative ids down to [-size]
    included), no id is listed twice among the walls, the starts, the
    goals, the lava states or all the fruit, and no start, goal, lava or
    fruit id is a wall. Start states are not compared with the grid, nor
    goal states with lava states. *)
Theorem X23_constructor_accepts cfg p picks :
  text_world p = None →
  (∃ self, __init__ cfg p picks = Ok self) ↔ valid_params p.
Proof.
  intros [Hc Hm]%text_world_None. split.
  - intros [self H].
    apply init_Ok_inv in H as ((self1 & _ & A & Heq) & P & C & _).
    rewrite <- (Heq Hc Hm) in A. clear Heq.
    destruct (assigned_supplied _ _ A) as (Hsize & Hs & Hg & Hl & Hw & Hf & _).
    apply (assigned_collision_free _ _ A) in C.
    pose proof (as_lava_range _ _ A) as Hlava.
    pose proof (pl_walls _ P) as Hwalls. pose proof (pl_valid _ P) as Hvalid.
    pose proof (pl_starts _ P) as Hstarts.
    unfold terminal_states in Hvalid. rewrite !Forall_app in Hvalid.
    rewrite Hsize, ?Hs, ?Hg, ?Hl, ?Hw, ?Hf in *.
    pose proof (pl_x _ P) as Hx. pose proof (pl_y _ P) as Hy.
    rewrite (as_x _ _ A) in Hx. rewrite (as_y _ _ A) in Hy.
    unfold valid_params. destruct_and!. by repeat split.
  - intros V. unfold valid_params in V. cbn zeta in V.
    destruct V as (Hx & Hy & Hs & Hlava & Hwalls & Hgoals & Hfruit & C).
    destruct (init_fields_returns cfg p (picks 0%nat) Hx Hy Hs Hlava Hwalls)
      as [self H1].
    { by apply Forall_app. }
    pose proof (init_fields_Ok_inv _ _ _ _ H1) as [A _].
    apply (assigned_collision_free _ _ A) in C.
    exists self. unfold __init__, init_body.
    rewrite (bind_Ok _ _ _ _ _ H1), Hc, Hm.
    unfold bind at 1. unfold ret at 1. unfold bind at 1. unfold ret at 1.
    rewrite _check_specific_collisions_run.
    by rewrite bool_decide_eq_true_2.
Qed.

Lemma X23_constructor_accepts_witness :
  (∃ self, __init__ sample_rewards wall_on_goal_params first_pick = Ok self)
  ↔ valid_params wall_on_goal_params.
Proof. apply X23_constructor_accepts. reflexivity. Defined.
(** X24. The reward read: on a reachable environment, what [reward_function]
    returns or raises is what indexing the reward matrix as it was before
    the call returns or raises ([IndexError] beyond [-size, size)), in
    both modes; and the call leaves the object as it is unless it
    collects, that is unless [collect] is true and the state holds a
    working fruit. *)
Theorem X24_reward_function_reads_matrix self ns c :
  reachable self →
  (reward_function ns c self).1 = getitem (reward_matrix self) ns ∧
  (c = false ∨ ns ∉ current_fruit self → (reward_function ns c self).2 = self).
Proof.
  intros [L E]%reachable_ok.
  destruct c; [|by rewrite reward_function_peek].
  destruct (decide (- Z.of_nat (length (reward_matrix self)) ≤ ns
                    < Z.of_nat (length (reward_matrix self)))) as [Hin|Hout].
  - destruct (reward_function_returns self ns E Hin)
      as (r & self' & -> & -> & _ & Hid & _).
    split; [done|]. intros [?|Hf]; [done|]. by apply Hid.
  - rewrite (reward_function_out_of_range _ _ Hout).
    by rewrite (getitem_out_of_range _ _ Hout).
Qed.

Lemma X24_reward_function_reads_matrix_witness :
  (reward_function 7 true (constructed world_2x2)).1
  = getitem (reward_matrix (constructed world_2x2)) 7 ∧
  (true = false ∨ 7 ∉ current_fruit (constructed world_2x2) →
   (reward_function 7 true (constructed world_2x2)).2 = constructed world_2x2).
Proof.
  apply (X24_reward_function_reads_matrix (constructed world_2x2) 7 true).
  apply reachable_world_2x2.
Defined.
